(** * hivekit: scripts/generate_graphs.py

    A shallow embedding of the benchmark-graph script: the two line parsers
    ([parse_json_benchmark], [parse_text_benchmark]), the line loop
    ([parse_benchmarks]), the aggregator ([generate_comparisons]), the
    renderer ([create_horizontal_bar_chart] and the three [generate_*_graph])
    and the driver ([main]), together with models of the Python built-ins
    they call.

    Conventions.
    - A Python [str] is a [string]; each [ascii] is the code point of that
      number, so the strings of the model are those over U+0000..U+00FF.
    - A Python [float] is an IEEE 754 binary64 value, [spec_float] with
      precision 53 and maximal exponent 1024.
    - Python is dynamically typed: what [json.loads] returns, and therefore
      what the numeric fields of a record hold, is a [Py.val].
    - A call that can raise returns an [outcome]. *)

From Stdlib Require Import ZArith NArith List String Ascii Bool Lia.
From Stdlib Require Import Sorted Permutation.
From Stdlib Require Import Floats.SpecFloat.
From Stdlib Require DecimalString.
Import ListNotations.
Local Open Scope string_scope.
Local Open Scope Z_scope.

(** ** Exceptions and outcomes *)

Inductive exn : Type :=
| JSONDecodeError
| KeyError
| AttributeError
| TypeError
| ValueError
| OverflowError
| ZeroDivisionError
| RecursionError
| UnicodeOutOfModel.  (* a code point above U+00FF: outside the string model *)

Inductive outcome (A : Type) : Type :=
| Returns (a : A)
| Raises (e : exn).
Arguments Returns {A} a.
Arguments Raises {A} e.

Definition bind {A B : Type} (m : outcome A) (f : A -> outcome B) : outcome B :=
  match m with
  | Returns a => f a
  | Raises e => Raises e
  end.

Declare Scope outcome_scope.
Delimit Scope outcome_scope with outcome.
Notation "x <- m ;; k" := (bind m (fun x => k))
  (at level 61, m at next level, right associativity) : outcome_scope.
Notation "' p <- m ;; k" := (bind m (fun x => match x with p => k end))
  (at level 61, p pattern, m at next level, right associativity) : outcome_scope.
Local Open Scope outcome_scope.

Definition exn_eqb (a b : exn) : bool :=
  match a, b with
  | JSONDecodeError, JSONDecodeError | KeyError, KeyError
  | AttributeError, AttributeError | TypeError, TypeError
  | ValueError, ValueError | OverflowError, OverflowError
  | ZeroDivisionError, ZeroDivisionError | RecursionError, RecursionError
  | UnicodeOutOfModel, UnicodeOutOfModel => true
  | _, _ => false
  end.

(** [try: m  except (e1, e2, ...): h] *)
Definition try_except {A : Type} (m : outcome A) (caught : list exn)
    (h : outcome A) : outcome A :=
  match m with
  | Returns a => Returns a
  | Raises e => if existsb (exn_eqb e) caught then h else Raises e
  end.

(** ** Python values *)

Module Py.

Definition float := spec_float.
Definition prec : Z := 53.
Definition emax : Z := 1024.

Definition fzero : float := S754_zero false.       (* 0.0 *)
Definition fltb : float -> float -> bool := SFltb.
Definition fdiv : float -> float -> float := SFdiv prec emax.

(** The values [json.loads] can return. A [dict] keeps its keys in
    insertion order and holds each key once. *)
#[warning="-register-all"]
Inductive val : Type :=
| VNone
| VBool (b : bool)
| VInt (n : Z)
| VFloat (f : float)
| VStr (s : string)
| VList (l : list val)
| VDict (d : list (string * val)).

(** *** dict *)

Fixpoint dict_lookup (d : list (string * val)) (k : string) : option val :=
  match d with
  | [] => None
  | (k', v) :: d' => if String.eqb k k' then Some v else dict_lookup d' k
  end.

(** [d[k] = v] *)
Fixpoint dict_set (d : list (string * val)) (k : string) (v : val)
    : list (string * val) :=
  match d with
  | [] => [(k, v)]
  | (k', v') :: d' =>
      if String.eqb k k' then (k', v) :: d' else (k', v') :: dict_set d' k v
  end.

(** [x.get(k, default)]: only a dict has the method. *)
Definition get (x : val) (k : string) (default : val) : outcome val :=
  match x with
  | VDict d =>
      match dict_lookup d k with
      | Some v => Returns v
      | None => Returns default
      end
  | _ => Raises AttributeError
  end.

(** *** str *)

(** [str.isspace] on one character, which is also [\s] of [re] and what
    [str.strip] removes. *)
Definition isspace (c : ascii) : bool :=
  let n := N_of_ascii c in
  ((9 <=? n) && (n <=? 13) || (28 <=? n) && (n <=? 32)
   || (n =? 133) || (n =? 160))%N.

(** [str.isdecimal] on one character, [\d] of [re]. *)
Definition isdecimal (c : ascii) : bool :=
  let n := N_of_ascii c in ((48 <=? n) && (n <=? 57))%N.

(** [\w] of [re]: alphabetic, decimal, digit or numeric characters and the
    underscore. *)
Definition isword (c : ascii) : bool :=
  let n := N_of_ascii c in
  ((48 <=? n) && (n <=? 57) || (65 <=? n) && (n <=? 90) || (n =? 95)
   || (97 <=? n) && (n <=? 122)
   || (n =? 170) || (n =? 178) || (n =? 179) || (n =? 181)
   || (185 <=? n) && (n <=? 186) || (188 <=? n) && (n <=? 190)
   || (192 <=? n) && (n <=? 214) || (216 <=? n) && (n <=? 246)
   || (248 <=? n) && (n <=? 255))%N.

Fixpoint lstrip (s : string) : string :=
  match s with
  | String c s' => if isspace c then lstrip s' else s
  | EmptyString => EmptyString
  end.

Fixpoint rstrip (s : string) : string :=
  match s with
  | String c s' =>
      match rstrip s' with
      | EmptyString => if isspace c then EmptyString else String c EmptyString
      | t => String c t
      end
  | EmptyString => EmptyString
  end.

(** [s.strip()] *)
Definition strip (s : string) : string := rstrip (lstrip s).

(** [s.startswith(p)] *)
Definition startswith (s p : string) : bool := String.prefix p s.

(** [s[n:]] for [0 <= n] *)
Fixpoint drop (n : nat) (s : string) : string :=
  match n, s with
  | O, _ => s
  | S n', String _ s' => drop n' s'
  | S _, EmptyString => EmptyString
  end.

(** [s.split(sep)] for a one-character separator: the list of the maximal
    pieces between separators, never empty. *)
Fixpoint split (sep : ascii) (s : string) : list string :=
  match s with
  | EmptyString => [EmptyString]
  | String c s' =>
      if Ascii.eqb c sep then EmptyString :: split sep s'
      else
        match split sep s' with
        | p :: ps => String c p :: ps
        | [] => [String c EmptyString]
        end
  end.

(** [s.replace(old, new, 1)] for a non-empty [old]: the leftmost occurrence
    of [old] is replaced, wherever it is. *)
Fixpoint replace1 (old new s : string) : string :=
  if String.prefix old s then new ++ drop (String.length old) s
  else
    match s with
    | String c s' => String c (replace1 old new s')
    | EmptyString => EmptyString
    end.

(** Truth value of a str: [if s:] *)
Definition truthy_str (s : string) : bool :=
  match s with EmptyString => false | _ => true end.

(** *** int and float from text *)

Definition digit_val (c : ascii) : Z := Z.of_N (N_of_ascii c) - 48.

Fixpoint digits_val (acc : Z) (s : string) : Z :=
  match s with
  | EmptyString => acc
  | String c s' => digits_val (10 * acc + digit_val c) s'
  end.

Fixpoint all_decimal (s : string) : bool :=
  match s with
  | EmptyString => true
  | String c s' => isdecimal c && all_decimal s'
  end.

(** [int(s)] for a string without sign, blanks or underscores: decimal
    digits only, at least one. *)
Definition int_of_str (s : string) : outcome Z :=
  match s with
  | EmptyString => Raises ValueError
  | _ => if all_decimal s then Returns (digits_val 0 s) else Raises ValueError
  end.

(** The binary64 nearest to [m * 10^e] (ties to even), with sign [neg]. *)
Definition float_of_decimal (neg : bool) (m : Z) (e : Z) : float :=
  match m with
  | Z0 => S754_zero neg
  | Zneg _ => S754_nan
  | Zpos p =>
      if 0 <=? e then
        binary_normalize prec emax (if neg then - (m * 10 ^ e) else m * 10 ^ e)
          0 false
      else
        SFdiv prec emax (S754_finite neg p 0)
          (S754_finite false (Z.to_pos (10 ^ (- e))) 0)
  end.

(** [float(n)] for an int: the nearest binary64, [OverflowError] beyond
    the finite range. *)
Definition float_of_int (n : Z) : outcome float :=
  match binary_normalize prec emax n 0 false with
  | S754_infinity _ => Raises OverflowError
  | f => Returns f
  end.

(** The longest prefix of decimal digits and the rest. *)
Fixpoint span_decimal (s : string) : string * string :=
  match s with
  | String c s' =>
      if isdecimal c then let (d, r) := span_decimal s' in (String c d, r)
      else (EmptyString, s)
  | EmptyString => (EmptyString, EmptyString)
  end.

(** An exponent part: [e], an optional sign, digits to the end. *)
Definition exponent_of_str (s : string) : outcome Z :=
  match s with
  | EmptyString => Returns 0
  | String c s' =>
      if Ascii.eqb c "e" || Ascii.eqb c "E" then
        match s' with
        | String "-" ds => n <- int_of_str ds ;; Returns (- n)
        | String "+" ds => int_of_str ds
        | _ => int_of_str s'
        end
      else Raises ValueError
  end.

(** [float(s)] for a string without blanks or underscores and other than
    the spellings of infinity and nan: an optional sign, digits with at
    most one point and at least one digit, an optional exponent.
    Everything else raises [ValueError]. *)
Definition float_of_str (s : string) : outcome float :=
  let '(neg, s1) :=
    match s with
    | String "-" r => (true, r)
    | String "+" r => (false, r)
    | _ => (false, s)
    end in
  let '(ip, s2) := span_decimal s1 in
  let '(fp, s3) :=
    match s2 with
    | String "." r => span_decimal r
    | _ => (EmptyString, s2)
    end in
  match (ip ++ fp)%string with
  | EmptyString => Raises ValueError
  | ds =>
      ex <- exponent_of_str s3 ;;
      Returns (float_of_decimal neg (digits_val 0 ds)
                 (ex - Z.of_nat (String.length fp)))
  end.

(** *** Arithmetic of the aggregator *)

(** [x > 0] with the int literal [0]. *)
Definition gt_zero (x : val) : outcome bool :=
  match x with
  | VFloat f => Returns (fltb fzero f)
  | VInt n => Returns (0 <? n)
  | VBool b => Returns b
  | _ => Raises TypeError
  end.

(** The operand of [/] as a number. *)
Inductive number : Type :=
| NInt (n : Z)
| NFloat (f : float).

Definition as_number (x : val) : outcome number :=
  match x with
  | VFloat f => Returns (NFloat f)
  | VInt n => Returns (NInt n)
  | VBool b => Returns (NInt (if b then 1 else 0))
  | _ => Raises TypeError
  end.

Definition is_fzero (f : float) : bool :=
  match f with S754_zero _ => true | _ => false end.

(** [a / b] on floats *)
Definition float_truediv (a b : float) : outcome float :=
  if is_fzero b then Raises ZeroDivisionError else Returns (fdiv a b).

(** [a / b] on ints: the binary64 nearest to the exact quotient. *)
Definition int_truediv (a b : Z) : outcome float :=
  match b, a with
  | Z0, _ => Raises ZeroDivisionError
  | _, Z0 => Returns (S754_zero (b <? 0))
  | _, _ =>
      match SFdiv prec emax
              (S754_finite (a <? 0) (Z.to_pos (Z.abs a)) 0)
              (S754_finite (b <? 0) (Z.to_pos (Z.abs b)) 0) with
      | S754_infinity _ => Raises OverflowError
      | f => Returns f
      end
  end.

(** [x / y] *)
Definition truediv (x y : val) : outcome val :=
  a <- as_number x ;;
  b <- as_number y ;;
  match a, b with
  | NInt m, NInt n => f <- int_truediv m n ;; Returns (VFloat f)
  | NInt m, NFloat g =>
      f <- float_of_int m ;; q <- float_truediv f g ;; Returns (VFloat q)
  | NFloat f, NInt n =>
      g <- float_of_int n ;; q <- float_truediv f g ;; Returns (VFloat q)
  | NFloat f, NFloat g => q <- float_truediv f g ;; Returns (VFloat q)
  end.

End Py.

(** ** Regular expressions

    The fragment of [re] that the text pattern is written in, matched the
    way [re] matches: leftmost alternative first, greedy repetitions longest
    first, lazy ones shortest first, backtracking into the last choice. A
    repetition is always of one character class, so matching recurses on the
    pattern and, inside a repetition, on the subject. *)

Module Re.

Inductive regex : Type :=
| Lit (s : string)                 (* literal text *)
| Plus (p : ascii -> bool)         (* [c+], greedy *)
| PlusLazy (p : ascii -> bool)     (* [c+?] *)
| Seq (r1 r2 : regex)              (* [r1r2] *)
| Alt (r1 r2 : regex)              (* [r1|r2] *)
| Opt (r : regex)                  (* [(?:r)?], greedy *)
| Group (i : nat) (r : regex).     (* capturing group number [i] *)

Definition cat (rs : list regex) : regex := fold_right Seq (Lit "") rs.

(** [match.groups()]: entry [i - 1] is group [i], [None] when the group
    took no part in the match. *)
Definition groups := list (option string).

(** [l[n] = x] within the list. *)
Fixpoint set_nth {A : Type} (n : nat) (x : A) (l : list A) : list A :=
  match l, n with
  | [], _ => []
  | _ :: l', O => x :: l'
  | y :: l', S n' => y :: set_nth n' x l'
  end.

Definition set_group (i : nat) (v : string) (g : groups) : groups :=
  match i with
  | O => g
  | S j => set_nth j (Some v) g
  end.

Definition group (g : groups) (i : nat) : option string :=
  match i with
  | O => None
  | S j => nth j g None
  end.

(** The first [n] characters of [s]. *)
Fixpoint take (n : nat) (s : string) : string :=
  match n, s with
  | S n', String c s' => String c (take n' s')
  | _, _ => EmptyString
  end.

(** What was consumed between subject [s] and its suffix [s']. *)
Definition consumed (s s' : string) : string :=
  take (String.length s - String.length s') s.

Section Repetition.
Variable A : Type.
Variable p : ascii -> bool.
Variable k : string -> option A.

Fixpoint plus_greedy (s : string) : option A :=
  match s with
  | String c s' =>
      if p c then
        match plus_greedy s' with
        | Some x => Some x
        | None => k s'
        end
      else None
  | EmptyString => None
  end.

Fixpoint plus_lazy (s : string) : option A :=
  match s with
  | String c s' =>
      if p c then
        match k s' with
        | Some x => Some x
        | None => plus_lazy s'
        end
      else None
  | EmptyString => None
  end.
End Repetition.
Arguments plus_greedy {A}.
Arguments plus_lazy {A}.

(** [run r s g k]: match [r] at the start of [s] with groups [g] so far and
    hand the rest of the subject to [k]; [None] sends the matcher back to
    its last choice. *)
Fixpoint run (r : regex) (s : string) (g : groups)
    (k : string -> groups -> option groups) {struct r} : option groups :=
  match r with
  | Lit l =>
      if String.prefix l s then k (Py.drop (String.length l) s) g else None
  | Plus p => plus_greedy p (fun s' => k s' g) s
  | PlusLazy p => plus_lazy p (fun s' => k s' g) s
  | Seq r1 r2 => run r1 s g (fun s' g' => run r2 s' g' k)
  | Alt r1 r2 =>
      match run r1 s g k with
      | Some x => Some x
      | None => run r2 s g k
      end
  | Opt r1 =>
      match run r1 s g k with
      | Some x => Some x
      | None => k s g
      end
  | Group i r1 => run r1 s g (fun s' g' => k s' (set_group i (consumed s s') g'))
  end.

(** [re.match(r, s)] for a pattern with [n] groups: anchored at the start
    of [s], free at its end. *)
Definition match_ (n : nat) (r : regex) (s : string) : option groups :=
  run r s (repeat None n) (fun _ g => Some g).

(** Character classes of the pattern. *)
Definition word : ascii -> bool := Py.isword.          (* [\w] *)
Definition digit : ascii -> bool := Py.isdecimal.      (* [\d] *)
Definition space : ascii -> bool := Py.isspace.        (* [\s] *)
Definition dot (c : ascii) : bool := negb (Ascii.eqb c "010").   (* [.] *)
Definition digit_or_dot (c : ascii) : bool :=          (* [[\d.]] *)
  Py.isdecimal c || Ascii.eqb c ".".

End Re.

(** ** json.loads

    The decoder of the [json] module with its default settings: objects
    become dicts (a repeated key keeps its last value), arrays lists, numbers
    with a fraction or an exponent floats and the others ints, and the
    literals [NaN], [Infinity] and [-Infinity] are accepted. Positions are
    suffixes of the document. *)

Module Json.
Import Py.

Definition dquote : ascii := "034".
Definition backslash : ascii := "092".

Definition is_ws (c : ascii) : bool :=
  Ascii.eqb c " " || Ascii.eqb c "009" || Ascii.eqb c "010" || Ascii.eqb c "013".

Fixpoint skip_ws (s : string) : string :=
  match s with
  | String c s' => if is_ws c then skip_ws s' else s
  | EmptyString => EmptyString
  end.

Definition hex_val (c : ascii) : option N :=
  let n := N_of_ascii c in
  if ((48 <=? n) && (n <=? 57))%N then Some (n - 48)%N
  else if ((65 <=? n) && (n <=? 70))%N then Some (n - 55)%N
  else if ((97 <=? n) && (n <=? 102))%N then Some (n - 87)%N
  else None.

Definition hex4 (a b c d : ascii) : option N :=
  match hex_val a, hex_val b, hex_val c, hex_val d with
  | Some x, Some y, Some z, Some w => Some (((x * 16 + y) * 16 + z) * 16 + w)%N
  | _, _, _, _ => None
  end.

(** The one-letter escapes. *)
Definition unescape (c : ascii) : option ascii :=
  if Ascii.eqb c dquote then Some dquote
  else if Ascii.eqb c backslash then Some backslash
  else if Ascii.eqb c "/" then Some "/"%char
  else if Ascii.eqb c "b" then Some "008"%char
  else if Ascii.eqb c "f" then Some "012"%char
  else if Ascii.eqb c "n" then Some "010"%char
  else if Ascii.eqb c "r" then Some "013"%char
  else if Ascii.eqb c "t" then Some "009"%char
  else None.

(** [scanstring], strict: from just after the opening quote to just after
    the closing one. *)
Fixpoint scanstring (s : string) : outcome (string * string) :=
  match s with
  | EmptyString => Raises JSONDecodeError
  | String c s' =>
      if Ascii.eqb c dquote then Returns (EmptyString, s')
      else if Ascii.eqb c backslash then
        match s' with
        | EmptyString => Raises JSONDecodeError
        | String "u" (String h1 (String h2 (String h3 (String h4 s'')))) =>
            match hex4 h1 h2 h3 h4 with
            | None => Raises JSONDecodeError
            | Some u =>
                if (u <=? 255)%N then
                  '(t, r) <- scanstring s'' ;;
                  Returns (String (ascii_of_N u) t, r)
                else Raises UnicodeOutOfModel
            end
        | String "u" _ => Raises JSONDecodeError
        | String e s'' =>
            match unescape e with
            | Some ch => '(t, r) <- scanstring s'' ;; Returns (String ch t, r)
            | None => Raises JSONDecodeError
            end
        end
      else if (N_of_ascii c <? 32)%N then Raises JSONDecodeError
      else '(t, r) <- scanstring s' ;; Returns (String c t, r)
  end.

(** The number pattern of the scanner: an optional minus sign, then
    either a single 0 or a non-zero digit and more digits; optionally a
    point and one digit or more; optionally [e] or [E], an optional sign
    and one digit or more. *)
Definition scan_integer (s : string) : option (bool * string * string) :=
  let '(neg, s1) :=
    match s with
    | String "-" r => (true, r)
    | _ => (false, s)
    end in
  match s1 with
  | String "0" r => Some (neg, "0", r)
  | String c _ =>
      if isdecimal c then let '(ds, r) := span_decimal s1 in Some (neg, ds, r)
      else None
  | EmptyString => None
  end.

Definition scan_frac (s : string) : option (string * string) :=
  match s with
  | String "." r =>
      match span_decimal r with
      | (EmptyString, _) => None
      | (ds, r') => Some (ds, r')
      end
  | _ => None
  end.

Definition scan_exp (s : string) : option (Z * string) :=
  match s with
  | String c r =>
      if Ascii.eqb c "e" || Ascii.eqb c "E" then
        let '(neg, r1) :=
          match r with
          | String "-" r' => (true, r')
          | String "+" r' => (false, r')
          | _ => (false, r)
          end in
        match span_decimal r1 with
        | (EmptyString, _) => None
        | (ds, r') =>
            Some (if neg then - digits_val 0 ds else digits_val 0 ds, r')
        end
      else None
  | EmptyString => None
  end.

Definition scan_number (s : string) : option (val * string) :=
  match scan_integer s with
  | None => None
  | Some (neg, ip, s1) =>
      let '(fp, s2) :=
        match scan_frac s1 with
        | Some (ds, r) => (Some ds, r)
        | None => (None, s1)
        end in
      let '(ex, s3) :=
        match scan_exp s2 with
        | Some (e, r) => (Some e, r)
        | None => (None, s2)
        end in
      match fp, ex with
      | None, None =>
          Some (VInt (if neg then - digits_val 0 ip else digits_val 0 ip), s3)
      | _, _ =>
          let fd := match fp with Some ds => ds | None => EmptyString end in
          let e := match ex with Some e => e | None => 0 end in
          Some (VFloat (float_of_decimal neg (digits_val 0 (ip ++ fd))
                          (e - Z.of_nat (String.length fd))), s3)
      end
  end.

Section Containers.
(** [scan_once] one level further in. *)
Variable scan : string -> outcome (val * string).

(** The loop of [JSONObject], from just after the opening quote of a
    key. *)
Fixpoint object_loop (n : nat) (s : string) (pairs : list (string * val))
    : outcome (val * string) :=
  match n with
  | O => Raises RecursionError
  | S n' =>
      '(key, s1) <- scanstring s ;;
      match skip_ws s1 with
      | String ":" s2 =>
          '(value, s3) <- scan (skip_ws s2) ;;
          let pairs' := dict_set pairs key value in
          match skip_ws s3 with
          | String "}" s4 => Returns (VDict pairs', s4)
          | String "," s4 =>
              match skip_ws s4 with
              | String c s5 =>
                  if Ascii.eqb c dquote then object_loop n' s5 pairs'
                  else Raises JSONDecodeError
              | EmptyString => Raises JSONDecodeError
              end
          | _ => Raises JSONDecodeError
          end
      | _ => Raises JSONDecodeError
      end
  end.

(** [JSONObject], from just after the brace. *)
Definition JSONObject (s : string) : outcome (val * string) :=
  match skip_ws s with
  | String "}" s1 => Returns (VDict [], s1)
  | String c s1 =>
      if Ascii.eqb c dquote then object_loop (S (String.length s1)) s1 []
      else Raises JSONDecodeError
  | EmptyString => Raises JSONDecodeError
  end.

(** The loop of [JSONArray], from the start of an element. *)
Fixpoint array_loop (n : nat) (s : string) (values : list val)
    : outcome (val * string) :=
  match n with
  | O => Raises RecursionError
  | S n' =>
      '(value, s1) <- scan s ;;
      let values' := (values ++ [value])%list in
      match skip_ws s1 with
      | String "]" s2 => Returns (VList values', s2)
      | String "," s2 => array_loop n' (skip_ws s2) values'
      | _ => Raises JSONDecodeError
      end
  end.

(** [JSONArray], from just after the bracket. *)
Definition JSONArray (s : string) : outcome (val * string) :=
  match skip_ws s with
  | String "]" s1 => Returns (VList [], s1)
  | s1 => array_loop (S (String.length s1)) s1 []
  end.
End Containers.

(** [scan_once]; [fuel] bounds the nesting depth. *)
Fixpoint scan_once (fuel : nat) (s : string) : outcome (val * string) :=
  match fuel with
  | O => Raises RecursionError
  | S fuel' =>
      match s with
      | EmptyString => Raises JSONDecodeError
      | String c s' =>
          if Ascii.eqb c dquote then
            '(t, r) <- scanstring s' ;; Returns (VStr t, r)
          else if Ascii.eqb c "{" then JSONObject (scan_once fuel') s'
          else if Ascii.eqb c "[" then JSONArray (scan_once fuel') s'
          else if String.prefix "null" s then Returns (VNone, drop 4 s)
          else if String.prefix "true" s then Returns (VBool true, drop 4 s)
          else if String.prefix "false" s then Returns (VBool false, drop 5 s)
          else
            match scan_number s with
            | Some r => Returns r
            | None =>
                if String.prefix "NaN" s then
                  Returns (VFloat S754_nan, drop 3 s)
                else if String.prefix "Infinity" s then
                  Returns (VFloat (S754_infinity false), drop 8 s)
                else if String.prefix "-Infinity" s then
                  Returns (VFloat (S754_infinity true), drop 9 s)
                else Raises JSONDecodeError
            end
      end
  end.

(** [json.loads(s)]: one value, blanks around it, nothing else. A value
    nests less deep than the document is long. *)
Definition loads (s : string) : outcome val :=
  '(v, r) <- scan_once (S (String.length s)) (skip_ws s) ;;
  match skip_ws r with
  | EmptyString => Returns v
  | _ => Raises JSONDecodeError
  end.

End Json.

(** ** The script *)

Import Py.

(** [class BenchmarkResult] *)
Module BenchmarkResult.
Record t : Type := Build {
  name : string;
  operation : string;
  hive_size : string;
  impl : string;
  iterations : val;
  ns_per_op : val;
  bytes_per_op : val;
  allocs_per_op : val
}.
End BenchmarkResult.

(** [class ComparisonResult] *)
Module ComparisonResult.
Record t : Type := Build {
  operation : string;
  hive_size : string;
  gohivex_ns : val;
  hivex_ns : val;
  speedup : val;
  gohivex_mem : val;
  hivex_mem : val;
  gohivex_allocs : val;
  hivex_allocs : val;
  gohivex_only : bool
}.

(** [__init__] *)
Definition init (operation hive_size : string) : t :=
  {| operation := operation;
     hive_size := hive_size;
     gohivex_ns := VFloat fzero;
     hivex_ns := VFloat fzero;
     speedup := VFloat fzero;
     gohivex_mem := VInt 0;
     hivex_mem := VInt 0;
     gohivex_allocs := VInt 0;
     hivex_allocs := VInt 0;
     gohivex_only := false |}.

(** [comp.gohivex_ns = ns; comp.gohivex_mem = mem; comp.gohivex_allocs = allocs] *)
Definition set_gohivex (c : t) (ns mem allocs : val) : t :=
  {| operation := operation c; hive_size := hive_size c;
     gohivex_ns := ns; hivex_ns := hivex_ns c; speedup := speedup c;
     gohivex_mem := mem; hivex_mem := hivex_mem c;
     gohivex_allocs := allocs; hivex_allocs := hivex_allocs c;
     gohivex_only := gohivex_only c |}.

(** [comp.hivex_ns = ns; comp.hivex_mem = mem; comp.hivex_allocs = allocs] *)
Definition set_hivex (c : t) (ns mem allocs : val) : t :=
  {| operation := operation c; hive_size := hive_size c;
     gohivex_ns := gohivex_ns c; hivex_ns := ns; speedup := speedup c;
     gohivex_mem := gohivex_mem c; hivex_mem := mem;
     gohivex_allocs := gohivex_allocs c; hivex_allocs := allocs;
     gohivex_only := gohivex_only c |}.

(** [comp.gohivex_only = b] *)
Definition set_gohivex_only (c : t) (b : bool) : t :=
  {| operation := operation c; hive_size := hive_size c;
     gohivex_ns := gohivex_ns c; hivex_ns := hivex_ns c; speedup := speedup c;
     gohivex_mem := gohivex_mem c; hivex_mem := hivex_mem c;
     gohivex_allocs := gohivex_allocs c; hivex_allocs := hivex_allocs c;
     gohivex_only := b |}.

(** [comp.speedup = x] *)
Definition set_speedup (c : t) (x : val) : t :=
  {| operation := operation c; hive_size := hive_size c;
     gohivex_ns := gohivex_ns c; hivex_ns := hivex_ns c; speedup := x;
     gohivex_mem := gohivex_mem c; hivex_mem := hivex_mem c;
     gohivex_allocs := gohivex_allocs c; hivex_allocs := hivex_allocs c;
     gohivex_only := gohivex_only c |}.

Definition label (c : t) : string :=
  if truthy_str (hive_size c)
  then operation c ++ " (" ++ hive_size c ++ ")"
  else operation c.
End ComparisonResult.

(** *** parse_json_benchmark *)

(** The body of the [try]. *)
Definition parse_json_benchmark_try (line : string)
    : outcome (option BenchmarkResult.t) :=
  data <- Json.loads line ;;
  name <- Py.get data "Name" (VStr "") ;;
  match name with
  | VStr name_s =>
      let parts := split "/" name_s in
      if (List.length parts <? 2)%nat then Returns None
      else
        let operation := replace1 "Benchmark" "" (nth 0 parts "") in
        let impl := nth 1 parts "" in
        let hive_size := if (3 <=? List.length parts)%nat then nth 2 parts "" else "" in
        let variant := if (4 <=? List.length parts)%nat then nth 3 parts "" else "" in
        let display_name :=
          if truthy_str variant then operation ++ "/" ++ variant else operation in
        iterations <- Py.get data "N" (VInt 0) ;;
        ns_per_op <- Py.get data "T" (VFloat fzero) ;;
        bytes_per_op <- Py.get data "B" (VInt 0) ;;
        allocs_per_op <- Py.get data "A" (VInt 0) ;;
        Returns (Some {|
          BenchmarkResult.name := name_s;
          BenchmarkResult.operation := display_name;
          BenchmarkResult.hive_size := hive_size;
          BenchmarkResult.impl := impl;
          BenchmarkResult.iterations := iterations;
          BenchmarkResult.ns_per_op := ns_per_op;
          BenchmarkResult.bytes_per_op := bytes_per_op;
          BenchmarkResult.allocs_per_op := allocs_per_op |})
  | _ => Raises AttributeError      (* [name.split]: only a str has it *)
  end.

Definition parse_json_benchmark (line : string)
    : outcome (option BenchmarkResult.t) :=
  try_except (parse_json_benchmark_try line) [JSONDecodeError; KeyError]
    (Returns None).

(** *** parse_text_benchmark *)

Definition pattern : Re.regex :=
  Re.cat
    [ Re.Lit "Benchmark"; Re.Group 1 (Re.Plus Re.word);
      Re.Lit "/"; Re.Group 2 (Re.Alt (Re.Lit "gohivex") (Re.Lit "hivex"));
      Re.Lit "/"; Re.Group 3 (Re.Plus Re.word);
      Re.Opt (Re.Seq (Re.Lit "/") (Re.Group 4 (Re.PlusLazy Re.dot)));
      Re.Lit "-"; Re.Plus Re.digit;
      Re.Plus Re.space; Re.Group 5 (Re.Plus Re.digit);
      Re.Plus Re.space; Re.Group 6 (Re.Plus Re.digit_or_dot);
      Re.Plus Re.space; Re.Lit "ns/op";
      Re.Opt (Re.cat [ Re.Plus Re.space; Re.Group 7 (Re.Plus Re.digit);
                       Re.Plus Re.space; Re.Lit "B/op" ]);
      Re.Opt (Re.cat [ Re.Plus Re.space; Re.Group 8 (Re.Plus Re.digit);
                       Re.Plus Re.space; Re.Lit "allocs/op" ]) ].

(** [int(g) if g else 0] for an optional group. *)
Definition int_or_zero (g : option string) : outcome val :=
  match g with
  | Some (String c s) => n <- int_of_str (String c s) ;; Returns (VInt n)
  | _ => Returns (VInt 0)
  end.

Definition parse_text_benchmark (line : string)
    : outcome (option BenchmarkResult.t) :=
  match Re.match_ 8 pattern line with
  | None => Returns None
  | Some [ Some operation; Some impl; Some hive_size; variant;
           Some iterations; Some ns_per_op; bytes_per_op; allocs_per_op ] =>
      let variant_s := match variant with Some v => v | None => "" end in
      let display_name :=
        if truthy_str variant_s then operation ++ "/" ++ variant_s
        else operation in
      iterations_v <- int_of_str iterations ;;
      ns_per_op_v <- float_of_str ns_per_op ;;
      bytes_per_op_v <- int_or_zero bytes_per_op ;;
      allocs_per_op_v <- int_or_zero allocs_per_op ;;
      Returns (Some {|
        BenchmarkResult.name :=
          "Benchmark" ++ operation ++ "/" ++ impl ++ "/" ++ hive_size ++ "/"
            ++ variant_s;
        BenchmarkResult.operation := display_name;
        BenchmarkResult.hive_size := hive_size;
        BenchmarkResult.impl := impl;
        BenchmarkResult.iterations := VInt iterations_v;
        BenchmarkResult.ns_per_op := VFloat ns_per_op_v;
        BenchmarkResult.bytes_per_op := bytes_per_op_v;
        BenchmarkResult.allocs_per_op := allocs_per_op_v |})
  | Some _ => Raises TypeError   (* never: groups 1, 2, 3, 5, 6 are not optional *)
  end.

(** *** parse_benchmarks *)

(** One turn of the loop: [results] before the line, [results] after. *)
Definition parse_benchmarks_body (results : list BenchmarkResult.t)
    (line : string) : outcome (list BenchmarkResult.t) :=
  let line := strip line in
  if negb (truthy_str line) then Returns results
  else
    json_result <-
      (if startswith line "{" then parse_json_benchmark line
       else Returns None) ;;
    match json_result with
    | Some result => Returns (results ++ [result])%list
    | None =>
        text_result <- parse_text_benchmark line ;;
        match text_result with
        | Some result => Returns (results ++ [result])%list
        | None => Returns results
        end
    end.

Definition parse_benchmarks (lines : list string)
    : outcome (list BenchmarkResult.t) :=
  fold_left (fun acc line => results <- acc ;; parse_benchmarks_body results line)
    lines (Returns []).

(** *** generate_comparisons *)

Definition MUTATION_OPERATIONS : list string :=
  [ "NodeAddChild"; "NodeSetValue"; "NodeSetValues"; "NodeDeleteChild";
    "Commit"; "IntrospectionRecursive" ].

(** [x in MUTATION_OPERATIONS] *)
Definition in_set (x : string) (set : list string) : bool :=
  existsb (String.eqb x) set.

Definition operation_base (result : BenchmarkResult.t) : string :=
  nth 0 (split "/" (BenchmarkResult.operation result)) "".

Definition is_mutation (result : BenchmarkResult.t) : bool :=
  in_set (operation_base result) MUTATION_OPERATIONS.

(** The two [continue]s of the grouping loop. *)
Definition skipped (filter_type : string) (result : BenchmarkResult.t) : bool :=
  if String.eqb filter_type "standard" && is_mutation result then true
  else if String.eqb filter_type "mutation" && negb (is_mutation result) then true
  else false.

Definition key : Type := string * string.

Definition key_eqb (a b : key) : bool :=
  String.eqb (fst a) (fst b) && String.eqb (snd a) (snd b).

(** [groups]: a [defaultdict(list)], its keys in insertion order. *)
Definition groups : Type := list (key * list BenchmarkResult.t).

(** [groups[k].append(result)] *)
Fixpoint groups_append (g : groups) (k : key) (result : BenchmarkResult.t)
    : groups :=
  match g with
  | [] => [(k, [result])]
  | (k', group) :: g' =>
      if key_eqb k k' then (k', (group ++ [result])%list) :: g'
      else (k', group) :: groups_append g' k result
  end.

Definition result_key (result : BenchmarkResult.t) : key :=
  (BenchmarkResult.operation result, BenchmarkResult.hive_size result).

Definition group_results (results : list BenchmarkResult.t)
    (filter_type : string) : groups :=
  fold_left
    (fun g result =>
       if skipped filter_type result then g
       else groups_append g (result_key result) result)
    results [].

(** The inner loop over a group: the pair [(gohivex, hivex)]. *)
Definition find_impls (group : list BenchmarkResult.t)
    : option BenchmarkResult.t * option BenchmarkResult.t :=
  fold_left
    (fun '(gohivex, hivex) result =>
       if String.eqb (BenchmarkResult.impl result) "gohivex" then (Some result, hivex)
       else if String.eqb (BenchmarkResult.impl result) "hivex" then (gohivex, Some result)
       else (gohivex, hivex))
    group (None, None).

Definition is_some {A : Type} (o : option A) : bool :=
  match o with Some _ => true | None => false end.

(** One turn of the loop over [groups.items()]: the comparison of a group. *)
Definition compare_group (k : key) (group : list BenchmarkResult.t)
    : outcome ComparisonResult.t :=
  let '(gohivex, hivex) := find_impls group in
  let comp := ComparisonResult.init (fst k) (snd k) in
  let comp :=
    match gohivex with
    | Some g =>
        ComparisonResult.set_gohivex comp (BenchmarkResult.ns_per_op g)
          (BenchmarkResult.bytes_per_op g) (BenchmarkResult.allocs_per_op g)
    | None => comp
    end in
  let comp :=
    match hivex with
    | Some h =>
        ComparisonResult.set_hivex comp (BenchmarkResult.ns_per_op h)
          (BenchmarkResult.bytes_per_op h) (BenchmarkResult.allocs_per_op h)
    | None => comp
    end in
  let comp :=
    if is_some gohivex && negb (is_some hivex)
    then ComparisonResult.set_gohivex_only comp true
    else comp in
  gohivex_positive <- gt_zero (ComparisonResult.gohivex_ns comp) ;;
  both_positive <-
    (if gohivex_positive then gt_zero (ComparisonResult.hivex_ns comp)
     else Returns false) ;;
  if both_positive then
    ratio <- truediv (ComparisonResult.hivex_ns comp)
               (ComparisonResult.gohivex_ns comp) ;;
    Returns (ComparisonResult.set_speedup comp ratio)
  else Returns comp.

Definition compare_groups (g : groups) : outcome (list ComparisonResult.t) :=
  fold_left
    (fun acc '(k, group) =>
       comparisons <- acc ;;
       comp <- compare_group k group ;;
       Returns (comparisons ++ [comp])%list)
    g (Returns []).

(** The sort key [(c.operation, c.hive_size)] and [<] on such tuples: the
    first components decide unless they are equal. *)
Definition sort_key (c : ComparisonResult.t) : key :=
  (ComparisonResult.operation c, ComparisonResult.hive_size c).

Definition key_ltb (a b : key) : bool :=
  if String.eqb (fst a) (fst b) then String.ltb (snd a) (snd b)
  else String.ltb (fst a) (fst b).

(** [list.sort(key=...)]: stable, and asking only [<] of the keys. An
    element goes in after every element not greater than it. *)
Fixpoint sort_insert (c : ComparisonResult.t) (l : list ComparisonResult.t)
    : list ComparisonResult.t :=
  match l with
  | [] => [c]
  | y :: l' =>
      if key_ltb (sort_key c) (sort_key y) then c :: y :: l'
      else y :: sort_insert c l'
  end.

Definition sort (l : list ComparisonResult.t) : list ComparisonResult.t :=
  fold_left (fun sorted c => sort_insert c sorted) l [].

Definition generate_comparisons (results : list BenchmarkResult.t)
    (filter_type : string) : outcome (list ComparisonResult.t) :=
  comparisons <- compare_groups (group_results results filter_type) ;;
  Returns (sort comparisons).

(** ** The renderer and the driver

    What the script computes itself is modelled as it is written: labels,
    value lists, bar positions, figure height, file names, the order of the
    steps and the handling of errors. What it asks of matplotlib, of the file
    system, of the clock and of the interpreter is a [world]: each answer may
    depend on everything that happened before, the [trace]. *)

(** [Path(s)] and [p / name], kept as written. *)
Inductive path : Type :=
| Path (s : string)
| Join (dir : path) (name : string).

(** [str(n)] for a length. *)
Definition str_of_nat (n : nat) : string :=
  DecimalString.NilEmpty.string_of_uint (Nat.to_uint n).

(** The float literals of the renderer. *)
Definition float_0_25 : float := float_of_decimal false 25 (-2).
Definition float_0_35 : float := float_of_decimal false 35 (-2).

(** [n * g] for an int and a float: the int converts first. *)
Definition int_mul_float (n : Z) (g : float) : outcome float :=
  f <- float_of_int n ;; Returns (SFmul prec emax f g).

(** [y - g] and [y + g] for an int and a float. *)
Definition int_sub_float (y : Z) (g : float) : outcome float :=
  f <- float_of_int y ;; Returns (SFsub prec emax f g).

Definition int_add_float (y : Z) (g : float) : outcome float :=
  f <- float_of_int y ;; Returns (SFadd prec emax f g).

(** [f / n] for a float and an int. *)
Definition float_div_int (f : float) (n : Z) : outcome float :=
  g <- float_of_int n ;; float_truediv f g.

(** [max(8, h)]: the second argument wins only when it compares greater. *)
Definition max_8 (h : float) : val :=
  if fltb (float_of_decimal false 8 0) h then VFloat h else VInt 8.

(** [[f(y) for y in ys]] for an [f] that can raise. *)
Fixpoint for_each {A B : Type} (f : A -> outcome B) (ys : list A)
    : outcome (list B) :=
  match ys with
  | [] => Returns []
  | y :: ys' => b <- f y ;; bs <- for_each f ys' ;; Returns (b :: bs)
  end.

(** What [create_horizontal_bar_chart] hands to matplotlib. Colours, font
    size, legend place, grid and resolution are constants of the source. *)
Module BarChart.
Record t : Type := Build {
  figsize : val * val;            (* [plt.subplots(figsize=(16, height))] *)
  gohivex_y : list float;         (* first [ax.barh]: positions, values *)
  gohivex_values : list val;
  hivex_y : list float;           (* second [ax.barh] *)
  hivex_values : list val;
  bar_height : float;
  yticks : list Z;                (* [ax.set_yticks(y_pos)] *)
  yticklabels : list string;      (* [ax.set_yticklabels(labels)] *)
  title : string;                 (* [ax.set_title] *)
  output_path : path              (* [plt.savefig] *)
}.
End BarChart.

(** [range(n)] *)
Definition range (n : nat) : list Z := map Z.of_nat (seq 0 n).

(** The chart [create_horizontal_bar_chart] draws and saves: everything up
    to the calls into matplotlib. *)
Definition bar_chart (comparisons : list ComparisonResult.t)
    (title subtitle : string) (gohivex_values hivex_values : list val)
    (output_path : path) : outcome BarChart.t :=
  scaled <- int_mul_float (Z.of_nat (List.length comparisons)) float_0_25 ;;
  let height := max_8 scaled in
  let labels := map ComparisonResult.label comparisons in
  let y_pos := range (List.length labels) in
  let bar_height := float_0_35 in
  upper <- for_each (fun y => half <- float_div_int bar_height 2 ;;
                              int_sub_float y half) y_pos ;;
  lower <- for_each (fun y => half <- float_div_int bar_height 2 ;;
                              int_add_float y half) y_pos ;;
  Returns {|
    BarChart.figsize := (VInt 16, height);
    BarChart.gohivex_y := upper;
    BarChart.gohivex_values := gohivex_values;
    BarChart.hivex_y := lower;
    BarChart.hivex_values := hivex_values;
    BarChart.bar_height := bar_height;
    BarChart.yticks := y_pos;
    BarChart.yticklabels := labels;
    BarChart.title := title ++ String "010" subtitle;
    BarChart.output_path := output_path |}.

(** *** Effects *)

Inductive event : Type :=
| Stderr (text : string)          (* [print(..., file=sys.stderr)] *)
| Mkdir (p : path)                (* [p.mkdir(parents=True, exist_ok=True)] *)
| Savefig (chart : BarChart.t).   (* [plt.savefig(output_path, ...)] returned *)

Definition trace : Type := list event.

(** What ends a computation early. *)
Inductive failure : Type :=
| PyExn (e : exn)                 (* raised by the modelled code *)
| LibExn (message : string)       (* an [Exception] of matplotlib or the OS *)
| SystemExit (code : Z).          (* [sys.exit(code)] *)

Inductive result (A : Type) : Type :=
| Ok (a : A)
| Fail (f : failure).
Arguments Ok {A} a.
Arguments Fail {A} f.

(** What [open(name).readlines()] does. *)
Inductive read_result : Type :=
| Lines (lines : list string)
| ReadIOError (message : string)      (* [IOError], that is [OSError] *)
| ReadOtherError (message : string).  (* any other, as a decoding error *)

(** What the calls into matplotlib do with a chart. *)
Inductive draw_result : Type :=
| Drawn                               (* every call returned *)
| RaisedBefore (message : string)     (* an [Exception] up to [plt.savefig] *)
| RaisedAfter (message : string).     (* an [Exception] of [plt.close] *)

(** The answers of the world. Those that raise, raise an [Exception]; an
    interrupt is outside the model, and so are a failing [print] and a
    standard input that cannot be read. *)
Record world : Type := {
  read_input : string -> read_result;
  stdin_lines : list string;                      (* [sys.stdin.readlines()] *)
  now : string;           (* [datetime.now().strftime('%Y-%m-%d_%H%M%S')] *)
  mkdir_error : trace -> path -> option string;   (* [None]: done *)
  draw : trace -> BarChart.t -> draw_result;
  describe : exn -> string;                       (* [str(e)] *)
  str_of_path : path -> string                    (* [str(p)] *)
}.

Definition io (A : Type) : Type := world -> trace -> trace * result A.

Definition io_ret {A : Type} (a : A) : io A := fun _ t => (t, Ok a).

Definition io_bind {A B : Type} (m : io A) (f : A -> io B) : io B :=
  fun w t =>
    match m w t with
    | (t', Ok a) => f a w t'
    | (t', Fail x) => (t', Fail x)
    end.

Declare Scope io_scope.
Delimit Scope io_scope with io.
Notation "x <- m ;; k" := (io_bind m (fun x => k))
  (at level 61, m at next level, right associativity) : io_scope.
Notation "m ;;; k" := (io_bind m (fun _ => k))
  (at level 61, right associativity) : io_scope.

Definition emit (e : event) : io unit := fun _ t => ((t ++ [e])%list, Ok tt).

Definition io_fail {A : Type} (f : failure) : io A := fun _ t => (t, Fail f).

(** A pure step of the modelled code inside the driver. *)
Definition lift {A : Type} (m : outcome A) : io A :=
  fun _ t =>
    match m with
    | Returns a => (t, Ok a)
    | Raises e => (t, Fail (PyExn e))
    end.

(** [str(p)] for a path. *)
Definition path_str (p : path) : io string :=
  fun w t => (t, Ok (str_of_path w p)).

(** [datetime.now().strftime('%Y-%m-%d_%H%M%S')] *)
Definition strftime_now : io string := fun w t => (t, Ok (now w)).

(** [print(text, file=sys.stderr)] *)
Definition print_stderr (text : string) : io unit := emit (Stderr text).

(** [if not args.quiet: print(text, file=sys.stderr)] *)
Definition progress (quiet : bool) (text : string) : io unit :=
  if quiet then io_ret tt else print_stderr text.

(** [p.mkdir(parents=True, exist_ok=True)] *)
Definition mkdir (p : path) : io unit :=
  fun w t =>
    match mkdir_error w t p with
    | Some message => (t, Fail (LibExn message))
    | None => ((t ++ [Mkdir p])%list, Ok tt)
    end.

(** [try: m  except Exception as e: h(str(e))]; [SystemExit] is no
    [Exception] and passes. *)
Definition try_except_Exception {A : Type} (m : io A) (h : string -> io A)
    : io A :=
  fun w t =>
    match m w t with
    | (t', Ok a) => (t', Ok a)
    | (t', Fail (PyExn e)) => h (describe w e) w t'
    | (t', Fail (LibExn message)) => h message w t'
    | (t', Fail (SystemExit code)) => (t', Fail (SystemExit code))
    end.

(** [create_horizontal_bar_chart]: the chart is computed, then drawn and
    saved. The source computes the bar positions between its calls into
    matplotlib; for a list Python can hold, its own computations raise
    nothing, so that nothing is lost by computing the chart first. *)
Definition create_horizontal_bar_chart (comparisons : list ComparisonResult.t)
    (title subtitle : string) (gohivex_values hivex_values : list val)
    (output_path : path) : io unit :=
  io_bind
    (lift (bar_chart comparisons title subtitle gohivex_values hivex_values
             output_path))
    (fun chart w t =>
       match draw w t chart with
       | Drawn => ((t ++ [Savefig chart])%list, Ok tt)
       | RaisedBefore message => (t, Fail (LibExn message))
       | RaisedAfter message =>
           ((t ++ [Savefig chart])%list, Fail (LibExn message))
       end).

Local Open Scope io_scope.

(** [generate_time_graph] *)
Definition generate_time_graph (comparisons : list ComparisonResult.t)
    (output_dir : path) (timestamp prefix : string) (docs_dir : option path)
    : io unit :=
  let gohivex_values := map ComparisonResult.gohivex_ns comparisons in
  let hivex_values :=
    map (fun comp => if ComparisonResult.gohivex_only comp then VInt 0
                     else ComparisonResult.hivex_ns comp) comparisons in
  let filename :=
    if truthy_str prefix then (timestamp ++ "_" ++ prefix ++ "time.png")%string
    else (timestamp ++ "_time.png")%string in
  let output_path := Join output_dir filename in
  create_horizontal_bar_chart comparisons "Performance Comparison (ns/op)"
    "gohivex vs hivex - Lower is Better" gohivex_values hivex_values
    output_path ;;;
  match docs_dir with
  | Some docs =>
      let static_filename :=
        if truthy_str prefix then (prefix ++ "time.png")%string else "time.png" in
      let docs_path := Join docs static_filename in
      create_horizontal_bar_chart comparisons "Performance Comparison (ns/op)"
        "gohivex vs hivex - Lower is Better" gohivex_values hivex_values
        docs_path
  | None => io_ret tt
  end.

(** [generate_memory_graph] *)
Definition generate_memory_graph (comparisons : list ComparisonResult.t)
    (output_dir : path) (timestamp prefix : string) (docs_dir : option path)
    : io unit :=
  let gohivex_values := map ComparisonResult.gohivex_mem comparisons in
  let hivex_values :=
    map (fun comp => if ComparisonResult.gohivex_only comp then VInt 0
                     else ComparisonResult.hivex_mem comp) comparisons in
  let filename :=
    if truthy_str prefix then (timestamp ++ "_" ++ prefix ++ "memory.png")%string
    else (timestamp ++ "_memory.png")%string in
  let output_path := Join output_dir filename in
  create_horizontal_bar_chart comparisons "Memory Usage Comparison (B/op)"
    "gohivex vs hivex - Lower is Better" gohivex_values hivex_values
    output_path ;;;
  match docs_dir with
  | Some docs =>
      let static_filename :=
        if truthy_str prefix then (prefix ++ "memory.png")%string
        else "memory.png" in
      let docs_path := Join docs static_filename in
      create_horizontal_bar_chart comparisons "Memory Usage Comparison (B/op)"
        "gohivex vs hivex - Lower is Better" gohivex_values hivex_values
        docs_path
  | None => io_ret tt
  end.

(** [generate_allocations_graph] *)
Definition generate_allocations_graph (comparisons : list ComparisonResult.t)
    (output_dir : path) (timestamp prefix : string) (docs_dir : option path)
    : io unit :=
  let gohivex_values := map ComparisonResult.gohivex_allocs comparisons in
  let hivex_values :=
    map (fun comp => if ComparisonResult.gohivex_only comp then VInt 0
                     else ComparisonResult.hivex_allocs comp) comparisons in
  let filename :=
    if truthy_str prefix
    then (timestamp ++ "_" ++ prefix ++ "allocations.png")%string
    else (timestamp ++ "_allocations.png")%string in
  let output_path := Join output_dir filename in
  create_horizontal_bar_chart comparisons "Allocations Comparison (allocs/op)"
    "gohivex vs hivex - Lower is Better" gohivex_values hivex_values
    output_path ;;;
  match docs_dir with
  | Some docs =>
      let static_filename :=
        if truthy_str prefix then (prefix ++ "allocations.png")%string
        else "allocations.png" in
      let docs_path := Join docs static_filename in
      create_horizontal_bar_chart comparisons "Allocations Comparison (allocs/op)"
        "gohivex vs hivex - Lower is Better" gohivex_values hivex_values
        docs_path
  | None => io_ret tt
  end.

(** The namespace [parser.parse_args()] returns. *)
Module Args.
Record t : Type := Build {
  input : string;
  output : string;
  docs_dir : string;
  timestamp : string;
  quiet : bool
}.

(** The defaults of the options. *)
Definition default : t :=
  {| input := ""; output := "benchmarks/graphs/png"; docs_dir := "docs/images";
     timestamp := ""; quiet := false |}.
End Args.

(** The body of each of the two [try] statements of [main]: the three graphs
    of one category and the progress line. The first passes no [prefix],
    which is then the default [''], the second ['mutation_']. *)
Definition generate_graphs (quiet : bool) (category_name : string)
    (comparisons : list ComparisonResult.t) (output_dir : path)
    (timestamp prefix : string) (docs_dir : path) : io unit :=
  match comparisons with
  | [] => io_ret tt
  | _ =>
      generate_time_graph comparisons output_dir timestamp prefix (Some docs_dir) ;;;
      generate_memory_graph comparisons output_dir timestamp prefix (Some docs_dir) ;;;
      generate_allocations_graph comparisons output_dir timestamp prefix
        (Some docs_dir) ;;;
      progress quiet
        ("Generated " ++ category_name ++ " graphs ("
         ++ str_of_nat (List.length comparisons) ++ " ops)")%string
  end.

(** The block of [main] that reads the input: the lines of the file
    [--input] names, or those of the standard input. Of what [open] and
    [readlines] raise, [IOError] alone is caught. *)
Definition read_lines (input : string) : io (list string) :=
  if truthy_str input then
    fun w t =>
      match read_input w input with
      | Lines lines => (t, Ok lines)
      | ReadIOError message =>
          (print_stderr ("Error opening input file: " ++ message)%string ;;;
           io_fail (SystemExit 1)) w t
      | ReadOtherError message => (t, Fail (LibExn message))
      end
  else fun w t => (t, Ok (stdin_lines w)).

(** [main], from the parsed arguments on: lines 364 to 427. The lines before,
    which build the parser and call [parse_args], are [main_argv] below. *)
Definition main (args : Args.t) : io unit :=
  lines <- read_lines (Args.input args) ;;
  results <- lift (parse_benchmarks lines) ;;
  progress (Args.quiet args)
    ("Parsed " ++ str_of_nat (List.length results) ++ " benchmark results")%string ;;;
  standard_comparisons <- lift (generate_comparisons results "standard") ;;
  progress (Args.quiet args)
    ("Generated " ++ str_of_nat (List.length standard_comparisons)
     ++ " standard comparisons")%string ;;;
  mutation_comparisons <- lift (generate_comparisons results "mutation") ;;
  progress (Args.quiet args)
    ("Generated " ++ str_of_nat (List.length mutation_comparisons)
     ++ " mutation comparisons")%string ;;;
  timestamp <-
    (if truthy_str (Args.timestamp args) then io_ret (Args.timestamp args)
     else strftime_now) ;;
  let output_dir := Path (Args.output args) in
  mkdir output_dir ;;;
  let docs_dir := Path (Args.docs_dir args) in
  mkdir docs_dir ;;;
  try_except_Exception
    (generate_graphs (Args.quiet args) "standard" standard_comparisons
       output_dir timestamp "" docs_dir)
    (fun message =>
       print_stderr ("Error generating standard graphs: " ++ message)%string ;;;
       io_fail (SystemExit 1)) ;;;
  try_except_Exception
    (generate_graphs (Args.quiet args) "mutation" mutation_comparisons
       output_dir timestamp "mutation_" docs_dir)
    (fun message =>
       print_stderr ("Error generating mutation graphs: " ++ message)%string ;;;
       io_fail (SystemExit 1)) ;;;
  if Args.quiet args then io_ret tt
  else
    shown <- path_str output_dir ;;
    print_stderr ("All graphs generated in " ++ shown)%string ;;;
    shown <- path_str docs_dir ;;
    print_stderr ("Static documentation images in " ++ shown)%string.

Close Scope io_scope.

(** What [parser.parse_args()] makes of the command line, lines 348 to 362
    of [main]: the namespace, or one of the two exits of argparse itself.
    What argparse prints then is its own and not in the trace. *)
Inductive parse_args_result : Type :=
| Parsed (args : Args.t)
| HelpExit     (* [-h], [--help]: the help on the standard output, [sys.exit(0)] *)
| UsageExit.   (* a rejected command line: usage on the standard error, [sys.exit(2)] *)

(** [main()] from its first line: the arguments are parsed, and what is
    left is [main] above. *)
Definition main_argv (parsed : parse_args_result) : io unit :=
  match parsed with
  | Parsed args => main args
  | HelpExit => io_fail (SystemExit 0)
  | UsageExit => io_fail (SystemExit 2)
  end.

(** How the process ends: the exit status of the interpreter. A run that
    falls off the end of [main] exits with 0, [sys.exit(code)] with [code],
    and an exception nobody catches with 1 after its traceback. *)
Definition exit_code (r : result unit) : Z :=
  match r with
  | Ok _ => 0
  | Fail (SystemExit code) => code
  | Fail _ => 1
  end.

(** The files a trace wrote and the lines it printed. *)
Definition saved_paths (t : trace) : list path :=
  flat_map (fun e => match e with
                     | Savefig chart => [BarChart.output_path chart]
                     | _ => []
                     end) t.

Definition printed (t : trace) : list string :=
  flat_map (fun e => match e with Stderr text => [text] | _ => [] end) t.

Definition made_dirs (t : trace) : list path :=
  flat_map (fun e => match e with Mkdir p => [p] | _ => [] end) t.

(** ** Specification vocabulary *)

(** JSON documents are written with ['] standing for the double quote. *)
Fixpoint json_text (s : string) : string :=
  match s with
  | EmptyString => EmptyString
  | String c s' =>
      String (if Ascii.eqb c "'" then Json.dquote else c) (json_text s')
  end.

(** Ascending order on comparisons: by operation name, code point by code
    point, and among equal names by size category. *)
Definition comparison_le (a b : ComparisonResult.t) : Prop :=
  String.ltb (ComparisonResult.operation a) (ComparisonResult.operation b) = true
  \/ (ComparisonResult.operation a = ComparisonResult.operation b
      /\ String.leb (ComparisonResult.hive_size a) (ComparisonResult.hive_size b)
         = true).

(** The time of a record is a float, as [BenchmarkResult] declares it. *)
Definition float_time (r : BenchmarkResult.t) : Prop :=
  exists f, BenchmarkResult.ns_per_op r = VFloat f.

(** The category a record belongs to. *)
Definition category (r : BenchmarkResult.t) : string :=
  if is_mutation r then "mutation" else "standard".

(** The last record of a group with a given implementation tag. *)
Definition last_of (tag : string) (group : list BenchmarkResult.t)
    : option BenchmarkResult.t :=
  find (fun r => String.eqb (BenchmarkResult.impl r) tag) (rev group).

(** The binary64 values nearest to 150.2 and to 120.5. *)
Definition float_150_2 : float := S754_finite false 5284692687742566 (-45).
Definition float_120_5 : float := S754_finite false 8479433673408512 (-46).

(** The records of a run that carry key [k], in input order. *)
Definition members (filter_type : string) (results : list BenchmarkResult.t)
    (k : key) : list BenchmarkResult.t :=
  filter (fun r => negb (skipped filter_type r) && key_eqb (result_key r) k)
    results.

(** [groups.get(k)] *)
Fixpoint groups_get (g : groups) (k : key) : option (list BenchmarkResult.t) :=
  match g with
  | [] => None
  | (k', group) :: g' => if key_eqb k k' then Some group else groups_get g' k
  end.

(** A record is included in a run when the grouping loop of that run files
    it under its key. *)
Definition included (results : list BenchmarkResult.t) (filter_type : string)
    (r : BenchmarkResult.t) : Prop :=
  exists group,
    In (result_key r, group) (group_results results filter_type) /\ In r group.

(** [d.get(k, default)] on the pairs of a dict. *)
Definition lookup_default (d : list (string * val)) (k : string) (default : val)
    : val :=
  match dict_lookup d k with
  | Some v => v
  | None => default
  end.

(** The lines of scenarios 1 and 2 of the specification and the records
    they parse to. *)
Definition scenario_1_line : string :=
  json_text
    "{'Name':'BenchmarkNodeGetChild/gohivex/medium','N':1000000,'T':120.5,'B':48,'A':2}".

Definition scenario_2_line : string :=
  "BenchmarkNodeGetChild/hivex/medium-8  900000  150.2 ns/op  64 B/op  3 allocs/op".

Definition scenario_1_record : BenchmarkResult.t :=
  {| BenchmarkResult.name := "BenchmarkNodeGetChild/gohivex/medium";
     BenchmarkResult.operation := "NodeGetChild";
     BenchmarkResult.hive_size := "medium";
     BenchmarkResult.impl := "gohivex";
     BenchmarkResult.iterations := VInt 1000000;
     BenchmarkResult.ns_per_op := VFloat float_120_5;
     BenchmarkResult.bytes_per_op := VInt 48;
     BenchmarkResult.allocs_per_op := VInt 2 |}.

Definition scenario_2_record : BenchmarkResult.t :=
  {| BenchmarkResult.name := "BenchmarkNodeGetChild/hivex/medium/";
     BenchmarkResult.operation := "NodeGetChild";
     BenchmarkResult.hive_size := "medium";
     BenchmarkResult.impl := "hivex";
     BenchmarkResult.iterations := VInt 900000;
     BenchmarkResult.ns_per_op := VFloat float_150_2;
     BenchmarkResult.bytes_per_op := VInt 64;
     BenchmarkResult.allocs_per_op := VInt 3 |}.

(** A second gohivex run of the benchmark of scenario 1. *)
Definition rerun_record : BenchmarkResult.t :=
  {| BenchmarkResult.name := "BenchmarkNodeGetChild/gohivex/medium";
     BenchmarkResult.operation := "NodeGetChild";
     BenchmarkResult.hive_size := "medium";
     BenchmarkResult.impl := "gohivex";
     BenchmarkResult.iterations := VInt 2000000;
     BenchmarkResult.ns_per_op := VFloat float_150_2;
     BenchmarkResult.bytes_per_op := VInt 50;
     BenchmarkResult.allocs_per_op := VInt 4 |}.

(** A record of a mutation operation, for hivex alone. *)
Definition commit_record : BenchmarkResult.t :=
  {| BenchmarkResult.name := "BenchmarkCommit/hivex/large/";
     BenchmarkResult.operation := "Commit";
     BenchmarkResult.hive_size := "large";
     BenchmarkResult.impl := "hivex";
     BenchmarkResult.iterations := VInt 100;
     BenchmarkResult.ns_per_op := VFloat float_150_2;
     BenchmarkResult.bytes_per_op := VInt 1024;
     BenchmarkResult.allocs_per_op := VInt 12 |}.

(** A gohivex record of the same benchmark on a large hive, without a hivex
    counterpart. *)
Definition large_record : BenchmarkResult.t :=
  {| BenchmarkResult.name := "BenchmarkNodeGetChild/gohivex/large";
     BenchmarkResult.operation := "NodeGetChild";
     BenchmarkResult.hive_size := "large";
     BenchmarkResult.impl := "gohivex";
     BenchmarkResult.iterations := VInt 500000;
     BenchmarkResult.ns_per_op := VFloat float_120_5;
     BenchmarkResult.bytes_per_op := VInt 48;
     BenchmarkResult.allocs_per_op := VInt 2 |}.

Definition large_comparison : ComparisonResult.t :=
  {| ComparisonResult.operation := "NodeGetChild";
     ComparisonResult.hive_size := "large";
     ComparisonResult.gohivex_ns := VFloat float_120_5;
     ComparisonResult.hivex_ns := VFloat fzero;
     ComparisonResult.speedup := VFloat fzero;
     ComparisonResult.gohivex_mem := VInt 48;
     ComparisonResult.hivex_mem := VInt 0;
     ComparisonResult.gohivex_allocs := VInt 2;
     ComparisonResult.hivex_allocs := VInt 0;
     ComparisonResult.gohivex_only := true |}.

(** The comparison of scenario 3: 150.2 / 120.5 rounds to
    5613615469137332 * 2^-52, about 1.2465. *)
Definition scenario_3_comparison : ComparisonResult.t :=
  {| ComparisonResult.operation := "NodeGetChild";
     ComparisonResult.hive_size := "medium";
     ComparisonResult.gohivex_ns := VFloat float_120_5;
     ComparisonResult.hivex_ns := VFloat float_150_2;
     ComparisonResult.speedup :=
       VFloat (S754_finite false 5613615469137332 (-52));
     ComparisonResult.gohivex_mem := VInt 48;
     ComparisonResult.hivex_mem := VInt 64;
     ComparisonResult.gohivex_allocs := VInt 2;
     ComparisonResult.hivex_allocs := VInt 3;
     ComparisonResult.gohivex_only := false |}.

Definition commit_comparison : ComparisonResult.t :=
  {| ComparisonResult.operation := "Commit";
     ComparisonResult.hive_size := "large";
     ComparisonResult.gohivex_ns := VFloat fzero;
     ComparisonResult.hivex_ns := VFloat float_150_2;
     ComparisonResult.speedup := VFloat fzero;
     ComparisonResult.gohivex_mem := VInt 0;
     ComparisonResult.hivex_mem := VInt 1024;
     ComparisonResult.gohivex_allocs := VInt 0;
     ComparisonResult.hivex_allocs := VInt 12;
     ComparisonResult.gohivex_only := false |}.

(** A scanner is sound up to length [L] when, on documents that short, it
    never runs out of fuel and leaves less than it was given. *)
Definition sound_upto (L : nat) (scan : string -> outcome (val * string)) : Prop :=
  forall s, (String.length s <= L)%nat ->
    scan s <> Raises RecursionError
    /\ forall v r, scan s = Returns (v, r) ->
                   (String.length r < String.length s)%nat.

(** The groups a pattern sets in every match. *)
Fixpoint always_set (r : Re.regex) : list nat :=
  match r with
  | Re.Seq r1 r2 => always_set r1 ++ always_set r2
  | Re.Alt r1 r2 =>
      filter (fun i => existsb (Nat.eqb i) (always_set r2)) (always_set r1)
  | Re.Group i r1 => i :: always_set r1
  | _ => []
  end.

(** ** What a pattern matches

    The declarative reading of the patterns of [Re]: [matches r s g s' g']
    when [r] matches the start of [s] up to the suffix [s'] and takes the
    groups from [g] to [g']. *)

(** One character of class [p] or more, from [s] up to [s']. *)
Inductive plus_span (p : ascii -> bool) : string -> string -> Prop :=
| span_one (c : ascii) (s : string) :
    p c = true -> plus_span p (String c s) s
| span_more (c : ascii) (s s' : string) :
    p c = true -> plus_span p s s' -> plus_span p (String c s) s'.

Inductive matches : Re.regex -> string -> Re.groups -> string -> Re.groups -> Prop :=
| matches_lit (l s : string) (g : Re.groups) :
    String.prefix l s = true ->
    matches (Re.Lit l) s g (drop (String.length l) s) g
| matches_plus (p : ascii -> bool) (s s' : string) (g : Re.groups) :
    plus_span p s s' -> matches (Re.Plus p) s g s' g
| matches_plus_lazy (p : ascii -> bool) (s s' : string) (g : Re.groups) :
    plus_span p s s' -> matches (Re.PlusLazy p) s g s' g
| matches_seq (r1 r2 : Re.regex) (s s1 s2 : string) (g g1 g2 : Re.groups) :
    matches r1 s g s1 g1 -> matches r2 s1 g1 s2 g2 ->
    matches (Re.Seq r1 r2) s g s2 g2
| matches_alt_l (r1 r2 : Re.regex) (s s' : string) (g g' : Re.groups) :
    matches r1 s g s' g' -> matches (Re.Alt r1 r2) s g s' g'
| matches_alt_r (r1 r2 : Re.regex) (s s' : string) (g g' : Re.groups) :
    matches r2 s g s' g' -> matches (Re.Alt r1 r2) s g s' g'
| matches_opt_some (r : Re.regex) (s s' : string) (g g' : Re.groups) :
    matches r s g s' g' -> matches (Re.Opt r) s g s' g'
| matches_opt_none (r : Re.regex) (s : string) (g : Re.groups) :
    matches (Re.Opt r) s g s g
| matches_group (i : nat) (r : Re.regex) (s s' : string) (g g' : Re.groups) :
    matches r s g s' g' ->
    matches (Re.Group i r) s g s' (Re.set_group i (Re.consumed s s') g').

(** Every character of [s] is of class [p]. *)
Fixpoint all_chars (p : ascii -> bool) (s : string) : bool :=
  match s with
  | EmptyString => true
  | String c s' => p c && all_chars p s'
  end.

(** No character of [s] is [c]. *)
Definition free_of (c : ascii) (s : string) : bool :=
  all_chars (fun x => negb (Ascii.eqb x c)) s.


(** The name the Go benchmarks carry: [Benchmark<operation>/<impl>/<size>]
    and, for a sub-benchmark, [/<variant>] after it. *)
Definition benchmark_name (operation impl hive_size variant : string) : string :=
  "Benchmark" ++ operation ++ "/" ++ impl ++ "/" ++ hive_size
  ++ (if truthy_str variant then "/" ++ variant else "").





(** The values [>] and [/] take: int, float and bool. *)
Definition numeric (x : val) : bool :=
  match x with
  | VInt _ | VFloat _ | VBool _ => true
  | _ => false
  end.

(** A record whose time is not a number, as the line
    [{"Name": "BenchmarkOpen/gohivex/small", "T": "fast"}] gives it. *)
Definition untimed_record : BenchmarkResult.t :=
  {| BenchmarkResult.name := "BenchmarkOpen/gohivex/small";
     BenchmarkResult.operation := "Open";
     BenchmarkResult.hive_size := "small";
     BenchmarkResult.impl := "gohivex";
     BenchmarkResult.iterations := VInt 0;
     BenchmarkResult.ns_per_op := VStr "fast";
     BenchmarkResult.bytes_per_op := VInt 0;
     BenchmarkResult.allocs_per_op := VInt 0 |}.

(** Two records with int times, as JSON lines with [T] 100 and 250 give
    them, and their comparison: 250 / 100 is the float 2.5. *)
Definition int_gohivex_record : BenchmarkResult.t :=
  {| BenchmarkResult.name := "BenchmarkOpen/gohivex/small";
     BenchmarkResult.operation := "Open";
     BenchmarkResult.hive_size := "small";
     BenchmarkResult.impl := "gohivex";
     BenchmarkResult.iterations := VInt 10;
     BenchmarkResult.ns_per_op := VInt 100;
     BenchmarkResult.bytes_per_op := VInt 0;
     BenchmarkResult.allocs_per_op := VInt 0 |}.

Definition int_hivex_record : BenchmarkResult.t :=
  {| BenchmarkResult.name := "BenchmarkOpen/hivex/small";
     BenchmarkResult.operation := "Open";
     BenchmarkResult.hive_size := "small";
     BenchmarkResult.impl := "hivex";
     BenchmarkResult.iterations := VInt 10;
     BenchmarkResult.ns_per_op := VInt 250;
     BenchmarkResult.bytes_per_op := VInt 0;
     BenchmarkResult.allocs_per_op := VInt 0 |}.

Definition int_comparison : ComparisonResult.t :=
  {| ComparisonResult.operation := "Open";
     ComparisonResult.hive_size := "small";
     ComparisonResult.gohivex_ns := VInt 100;
     ComparisonResult.hivex_ns := VInt 250;
     ComparisonResult.speedup :=
       VFloat (S754_finite false 5629499534213120 (-51));
     ComparisonResult.gohivex_mem := VInt 0;
     ComparisonResult.hivex_mem := VInt 0;
     ComparisonResult.gohivex_allocs := VInt 0;
     ComparisonResult.hivex_allocs := VInt 0;
     ComparisonResult.gohivex_only := false |}.

(** *** Vocabulary for the runs of the driver *)

(** The lines [main] prints before it gives up start with [Error]. *)
Definition error_line (text : string) : bool := startswith text "Error ".

(** How a computation ended, without its value. *)
Definition status {A : Type} (r : result A) : option failure :=
  match r with
  | Ok _ => None
  | Fail f => Some f
  end.

Definition is_exit (f : failure) : bool :=
  match f with SystemExit _ => true | _ => false end.

(** [l] is a beginning of [plan]. *)
Definition list_prefix {A : Type} (l plan : list A) : Prop :=
  exists rest, plan = (l ++ rest)%list.

(** A property of runs: of the events a computation adds to the trace and
    of the way it ends. *)
Definition always {A : Type} (P : list event -> option failure -> Prop)
    (m : io A) : Prop :=
  forall w t, exists d,
    fst (m w t) = (t ++ d)%list /\ P d (status (snd (m w t))).

(** A computation saves the files of [plan], in this order: all of them when
    it returns, and the first few when it fails. *)
Definition saves {A : Type} (plan : list path) (m : io A) : Prop :=
  always (fun d s => list_prefix (saved_paths d) plan
                     /\ (s = None -> saved_paths d = plan)) m.

(** A world in which no directory fails to be made and no chart to be
    drawn. *)
Definition benign (w : world) : Prop :=
  (forall t p, mkdir_error w t p = None)
  /\ (forall t chart, draw w t chart = Drawn).

(** In a benign world the computation returns. *)
Definition succeeds {A : Type} (m : io A) : Prop :=
  forall w t, benign w -> exists a, snd (m w t) = Ok a.

(** The bars, the values of both implementations, the ticks and the labels
    of a chart are as many as its rows. *)
Definition well_shaped (chart : BarChart.t) : Prop :=
  let rows := List.length (BarChart.yticklabels chart) in
  List.length (BarChart.yticks chart) = rows
  /\ List.length (BarChart.gohivex_y chart) = rows
  /\ List.length (BarChart.gohivex_values chart) = rows
  /\ List.length (BarChart.hivex_y chart) = rows
  /\ List.length (BarChart.hivex_values chart) = rows.

(** The six files of a category, in the order they are written: for time,
    memory and allocations the archive copy under [output_dir], then the
    static copy under [docs_dir]. *)
Definition graph_paths (output_dir docs_dir : path) (timestamp prefix : string)
    : list path :=
  [ Join output_dir (timestamp ++ "_" ++ prefix ++ "time.png");
    Join docs_dir (prefix ++ "time.png");
    Join output_dir (timestamp ++ "_" ++ prefix ++ "memory.png");
    Join docs_dir (prefix ++ "memory.png");
    Join output_dir (timestamp ++ "_" ++ prefix ++ "allocations.png");
    Join docs_dir (prefix ++ "allocations.png") ].

(** The files of a category with these comparisons: none without. *)
Definition category_paths (comparisons : list ComparisonResult.t)
    (output_dir docs_dir : path) (timestamp prefix : string) : list path :=
  match comparisons with
  | [] => []
  | _ => graph_paths output_dir docs_dir timestamp prefix
  end.

(** What [main] gets to read, when reading does not fail. *)
Definition input_lines (args : Args.t) (w : world) : option (list string) :=
  if truthy_str (Args.input args) then
    match read_input w (Args.input args) with
    | Lines lines => Some lines
    | _ => None
    end
  else Some (stdin_lines w).

(** The timestamp in the names of the archive copies. *)
Definition timestamp_of (args : Args.t) (w : world) : string :=
  if truthy_str (Args.timestamp args) then Args.timestamp args else now w.

(** The steps of [main] before it touches the file system. *)
Definition front_end (lines : list string)
    : outcome (list BenchmarkResult.t * list ComparisonResult.t
               * list ComparisonResult.t) :=
  results <- parse_benchmarks lines ;;
  standard_comparisons <- generate_comparisons results "standard" ;;
  mutation_comparisons <- generate_comparisons results "mutation" ;;
  Returns (results, standard_comparisons, mutation_comparisons).

(** A world for the examples: a file [bench.txt] with the lines of
    scenarios 1 and 2, nothing else to open, and nothing that fails. *)
Definition example_world : world :=
  {| read_input := fun name =>
       if String.eqb name "bench.txt"
       then Lines [scenario_1_line; scenario_2_line]
       else ReadIOError "[Errno 2] No such file or directory";
     stdin_lines := [scenario_2_line; "PASS"];
     now := "2025-01-31_120000";
     mkdir_error := fun _ _ => None;
     draw := fun _ _ => Drawn;
     describe := fun _ => "int too large to convert to float";
     str_of_path := fun p => match p with Path s => s | Join _ name => name end |}.

(** The same world with a full disk: the third chart cannot be saved. *)
Definition full_disk_world : world :=
  {| read_input := read_input example_world;
     stdin_lines := stdin_lines example_world;
     now := now example_world;
     mkdir_error := mkdir_error example_world;
     draw := fun t _ =>
       if (2 <=? List.length (saved_paths t))%nat
       then RaisedBefore "[Errno 28] No space left on device"
       else Drawn;
     describe := describe example_world;
     str_of_path := str_of_path example_world |}.

Definition example_args (input : string) (quiet : bool) : Args.t :=
  {| Args.input := input; Args.output := "out"; Args.docs_dir := "docs";
     Args.timestamp := "T"; Args.quiet := quiet |}.

(** A world whose standard input holds the line [{"Name": 5}], on which the
    parser raises. *)
Definition bad_input_world : world :=
  {| read_input := read_input example_world;
     stdin_lines := [json_text "{'Name': 5}"];
     now := now example_world;
     mkdir_error := mkdir_error example_world;
     draw := draw example_world;
     describe := describe example_world;
     str_of_path := str_of_path example_world |}.

(** The charts among the events. *)
Definition saved_charts (t : trace) : list BarChart.t :=
  flat_map (fun e => match e with Savefig chart => [chart] | _ => [] end) t.

(** A world without a display, where no chart can be drawn, and with no
    result on its standard input. *)
Definition headless_world : world :=
  {| read_input := read_input example_world;
     stdin_lines := ["goos: linux"; "PASS"];
     now := now example_world;
     mkdir_error := mkdir_error example_world;
     draw := fun _ _ => RaisedBefore "no display";
     describe := describe example_world;
     str_of_path := str_of_path example_world |}.

(** * Properties *)

(** Case analysis on the eight bits of a character, for definitions that
    match on character literals. *)
Ltac char_cases c := destruct c as [[] [] [] [] [] [] [] []].

(** ** Outcomes *)

Lemma bind_returns {A B : Type} (m : outcome A) (f : A -> outcome B) (b : B) :
  bind m f = Returns b -> exists a, m = Returns a /\ f a = Returns b.
Proof.
  destruct m as [a | e]; simpl; intros H; [eauto | discriminate].
Qed.

Lemma fold_left_raises {A B : Type} (f : outcome A -> B -> outcome A)
    (l : list B) (e : exn) :
  (forall b, f (Raises e) b = Raises e) ->
  fold_left f l (Raises e) = Raises e.
Proof.
  intros Hf. induction l as [| b l IH]; simpl; [reflexivity |].
  now rewrite Hf.
Qed.

(** ** The order on strings *)

Lemma ascii_compare_refl (a : ascii) : Ascii.compare a a = Eq.
Proof. unfold Ascii.compare. apply N.compare_refl. Qed.

Lemma ascii_compare_eq (a b : ascii) : Ascii.compare a b = Eq -> a = b.
Proof. apply Ascii.compare_eq_iff. Qed.

Lemma ascii_compare_lt_trans (a b c : ascii) :
  Ascii.compare a b = Lt -> Ascii.compare b c = Lt -> Ascii.compare a c = Lt.
Proof.
  unfold Ascii.compare. rewrite !N.compare_lt_iff. apply N.lt_trans.
Qed.

Lemma string_compare_refl (s : string) : String.compare s s = Eq.
Proof.
  induction s as [| a s IH]; simpl; [reflexivity |].
  now rewrite ascii_compare_refl.
Qed.

Lemma string_compare_lt_trans (s t u : string) :
  String.compare s t = Lt -> String.compare t u = Lt -> String.compare s u = Lt.
Proof.
  revert t u. induction s as [| a s IH]; intros [| b t] [| c u]; simpl;
    try discriminate; try reflexivity.
  destruct (Ascii.compare a b) eqn:Hab; try discriminate;
    destruct (Ascii.compare b c) eqn:Hbc; try discriminate; intros H1 H2.
  - apply ascii_compare_eq in Hab, Hbc. subst.
    rewrite ascii_compare_refl. eauto.
  - apply ascii_compare_eq in Hab. subst. now rewrite Hbc.
  - apply ascii_compare_eq in Hbc. subst. now rewrite Hab.
  - now rewrite (ascii_compare_lt_trans _ _ _ Hab Hbc).
Qed.

Lemma string_ltb_lt (s t : string) :
  String.ltb s t = true <-> String.compare s t = Lt.
Proof.
  unfold String.ltb. destruct (String.compare s t); split; congruence.
Qed.

Lemma string_leb_cases (s t : string) :
  String.leb s t = true <-> String.compare s t = Lt \/ s = t.
Proof.
  unfold String.leb. destruct (String.compare s t) eqn:H; split; intros H';
    try (left; reflexivity); try reflexivity; try discriminate.
  - right. now apply String.compare_eq_iff.
  - destruct H' as [H' | H']; [discriminate |].
    subst. rewrite string_compare_refl in H. discriminate.
Qed.

Lemma string_ltb_false (s t : string) :
  String.ltb s t = false -> String.leb t s = true.
Proof.
  unfold String.ltb, String.leb. rewrite (String.compare_antisym s t).
  destruct (String.compare t s); simpl; congruence.
Qed.

Lemma string_leb_trans (s t u : string) :
  String.leb s t = true -> String.leb t u = true -> String.leb s u = true.
Proof.
  rewrite !string_leb_cases. intros [H1 | ->] [H2 | ->]; auto.
  left. eapply string_compare_lt_trans; eauto.
Qed.

Lemma comparison_le_trans (a b c : ComparisonResult.t) :
  comparison_le a b -> comparison_le b c -> comparison_le a c.
Proof.
  unfold comparison_le. rewrite !string_ltb_lt.
  intros [H1 | [E1 L1]] [H2 | [E2 L2]].
  - left. eapply string_compare_lt_trans; eauto.
  - left. now rewrite <- E2.
  - left. now rewrite E1.
  - right. split; [congruence |]. eapply string_leb_trans; eauto.
Qed.

Lemma key_ltb_le (a b : ComparisonResult.t) :
  key_ltb (sort_key a) (sort_key b) = true -> comparison_le a b.
Proof.
  unfold key_ltb, sort_key, comparison_le; simpl.
  destruct (String.eqb_spec (ComparisonResult.operation a)
              (ComparisonResult.operation b)) as [E | N]; intros H.
  - right. split; [assumption |].
    apply string_leb_cases. left. now apply string_ltb_lt.
  - now left.
Qed.

Lemma key_ltb_false_le (a b : ComparisonResult.t) :
  key_ltb (sort_key a) (sort_key b) = false -> comparison_le b a.
Proof.
  unfold key_ltb, sort_key, comparison_le; simpl.
  destruct (String.eqb_spec (ComparisonResult.operation a)
              (ComparisonResult.operation b)) as [E | N]; intros H.
  - right. split; [congruence |]. now apply string_ltb_false.
  - left. apply string_ltb_false in H. apply string_leb_cases in H.
    destruct H as [H | H]; [now apply string_ltb_lt | congruence].
Qed.

(** ** list.sort *)

Lemma sort_insert_perm (c : ComparisonResult.t) (l : list ComparisonResult.t) :
  Permutation (sort_insert c l) (c :: l).
Proof.
  induction l as [| y l IH]; simpl; [reflexivity |].
  destruct (key_ltb (sort_key c) (sort_key y)); [reflexivity |].
  rewrite IH. apply perm_swap.
Qed.

Lemma sort_insert_sorted (c : ComparisonResult.t) (l : list ComparisonResult.t) :
  StronglySorted comparison_le l -> StronglySorted comparison_le (sort_insert c l).
Proof.
  induction 1 as [| y l Hs IH Hy]; simpl.
  - repeat constructor.
  - destruct (key_ltb (sort_key c) (sort_key y)) eqn:E.
    + apply key_ltb_le in E.
      constructor; [constructor; assumption |].
      constructor; [assumption |].
      eapply Forall_impl; [| exact Hy].
      intros z Hz. eapply comparison_le_trans; eauto.
    + apply key_ltb_false_le in E.
      constructor; [assumption |].
      eapply Permutation_Forall.
      * symmetry. apply sort_insert_perm.
      * constructor; assumption.
Qed.

Lemma sort_acc_spec (l acc : list ComparisonResult.t) :
  StronglySorted comparison_le acc ->
  StronglySorted comparison_le (fold_left (fun sorted c => sort_insert c sorted) l acc)
  /\ Permutation (fold_left (fun sorted c => sort_insert c sorted) l acc) (acc ++ l).
Proof.
  revert acc. induction l as [| c l IH]; simpl; intros acc Hacc.
  - rewrite app_nil_r. split; [assumption | reflexivity].
  - destruct (IH (sort_insert c acc) (sort_insert_sorted c acc Hacc)) as [Hs Hp].
    split; [assumption |].
    rewrite Hp, sort_insert_perm. simpl. apply Permutation_middle.
Qed.

Lemma sort_sorted (l : list ComparisonResult.t) :
  StronglySorted comparison_le (sort l).
Proof. apply (sort_acc_spec l []). constructor. Qed.

Lemma sort_perm (l : list ComparisonResult.t) : Permutation (sort l) l.
Proof. apply (sort_acc_spec l []). constructor. Qed.

Lemma sort_In (l : list ComparisonResult.t) (c : ComparisonResult.t) :
  In c (sort l) <-> In c l.
Proof.
  split; apply Permutation_in; [apply sort_perm | symmetry; apply sort_perm].
Qed.

(** ** json.loads: the fuel suffices *)

Lemma skip_ws_length (s : string) :
  (String.length (Json.skip_ws s) <= String.length s)%nat.
Proof.
  induction s as [| c s IH]; simpl; [lia |].
  destruct (Json.is_ws c); simpl; lia.
Qed.

Lemma span_decimal_length (s d r : string) :
  span_decimal s = (d, r) -> (String.length r <= String.length s)%nat.
Proof.
  revert d r. induction s as [| c s IH]; simpl; intros d r H.
  - inversion H; subst. simpl. lia.
  - destruct (isdecimal c).
    + destruct (span_decimal s) as [d' r'] eqn:E. inversion H; subst.
      specialize (IH _ _ eq_refl). lia.
    + inversion H; subst. simpl. lia.
Qed.

Lemma drop_length (n : nat) (s : string) :
  (String.length (drop n s) <= String.length s)%nat.
Proof.
  revert s. induction n as [| n IH]; intros [| c s]; simpl; try lia.
  specialize (IH s). lia.
Qed.

Lemma scanstring_length :
  forall (n : nat) (s t r : string),
    (String.length s <= n)%nat ->
    Json.scanstring s = Returns (t, r) ->
    (String.length r < String.length s)%nat.
Proof.
  induction n as [| n IH]; intros s t r Hn.
  - destruct s; [discriminate | simpl in Hn; lia].
  - destruct s as [| c s]; [discriminate |].
    cbn [Json.scanstring]. simpl in Hn.
    destruct (Ascii.eqb c Json.dquote).
    { intros H. inversion H; subst. simpl. lia. }
    destruct (Ascii.eqb c Json.backslash).
    + destruct s as [| e s]; [discriminate |].
      assert (Hesc : forall ch,
                (t0 <- Json.scanstring s ;;
                 (let '(t1, r1) := t0 in Returns (String ch t1, r1)))
                = Returns (t, r) ->
                (String.length r < String.length (String c (String e s)))%nat).
      { intros ch H. apply bind_returns in H. destruct H as ([t1 r1] & H1 & H2).
        inversion H2; subst. apply IH in H1; simpl in *; lia. }
      destruct (Ascii.eqb_spec e "u") as [-> | Ne].
      * destruct s as [| h1 [| h2 [| h3 [| h4 s]]]]; try discriminate.
        destruct (Json.hex4 h1 h2 h3 h4) as [u |]; [| discriminate].
        destruct (u <=? 255)%N; [| discriminate].
        intros H. apply bind_returns in H. destruct H as ([t1 r1] & H1 & H2).
        inversion H2; subst. apply IH in H1; simpl in *; lia.
      * intros H.
        assert (H' : match Json.unescape e with
                     | Some ch =>
                         t0 <- Json.scanstring s ;;
                         (let '(t1, r1) := t0 in Returns (String ch t1, r1))
                     | None => Raises JSONDecodeError
                     end = Returns (t, r)).
        { char_cases e; try exact H;
            exfalso; apply Ne; reflexivity. }
        destruct (Json.unescape e) as [ch |]; [| discriminate].
        exact (Hesc ch H').
    + destruct (N_of_ascii c <? 32)%N; [discriminate |].
      intros H. apply bind_returns in H. destruct H as ([t1 r1] & H1 & H2).
      inversion H2; subst. apply IH in H1; simpl in *; lia.
Qed.

Lemma scan_integer_length (s : string) (neg : bool) (ip s1 : string) :
  Json.scan_integer s = Some (neg, ip, s1) ->
  (String.length s1 < String.length s)%nat.
Proof.
  unfold Json.scan_integer.
  assert (Hsign : let '(_, s0) := match s with
                                  | String "-" r => (true, r)
                                  | _ => (false, s)
                                  end in
                  (String.length s0 <= String.length s)%nat).
  { destruct s as [| c s]; [simpl; lia |].
    char_cases c; simpl; lia. }
  destruct (match s with
            | String "-" r => (true, r)
            | _ => (false, s)
            end) as [neg0 s0].
  destruct s0 as [| c s0]; [discriminate |].
  assert (Hdigits : (if isdecimal c
                     then let '(ds, r) := span_decimal (String c s0) in
                          Some (neg0, ds, r)
                     else None) = Some (neg, ip, s1) ->
                    (String.length s1 < String.length s)%nat).
  { simpl. destruct (isdecimal c); [| discriminate].
    destruct (span_decimal s0) as [d r] eqn:E. intros H. inversion H; subst.
    apply span_decimal_length in E. simpl in Hsign. lia. }
  char_cases c; try exact Hdigits.
  intros H. inversion H; subst. simpl in Hsign. lia.
Qed.

Lemma scan_frac_length (s ds r : string) :
  Json.scan_frac s = Some (ds, r) -> (String.length r <= String.length s)%nat.
Proof.
  unfold Json.scan_frac. destruct s as [| c s]; [discriminate |].
  assert (H : match span_decimal s with
              | (EmptyString, _) => None
              | (ds0, r') => Some (ds0, r')
              end = Some (ds, r) ->
              (String.length r <= String.length (String c s))%nat).
  { destruct (span_decimal s) as [d r'] eqn:E.
    apply span_decimal_length in E.
    destruct d; [discriminate |]. intros H. inversion H; subst. simpl. lia. }
  char_cases c; try discriminate. exact H.
Qed.

Lemma scan_exp_length (s : string) (e : Z) (r : string) :
  Json.scan_exp s = Some (e, r) -> (String.length r <= String.length s)%nat.
Proof.
  unfold Json.scan_exp. destruct s as [| c s]; [discriminate |].
  destruct (_ || _); [| discriminate].
  assert (Hsign : let '(_, s0) := match s with
                                  | String "-" r' => (true, r')
                                  | String "+" r' => (false, r')
                                  | _ => (false, s)
                                  end in
                  (String.length s0 <= String.length s)%nat).
  { destruct s as [| c' s]; [simpl; lia |].
    char_cases c'; simpl; lia. }
  destruct (match s with
            | String "-" r' => (true, r')
            | String "+" r' => (false, r')
            | _ => (false, s)
            end) as [neg s0].
  destruct (span_decimal s0) as [d r'] eqn:E. apply span_decimal_length in E.
  destruct d; [discriminate |]. intros H. inversion H; subst. simpl. lia.
Qed.

Lemma scan_number_length (s : string) (v : val) (r : string) :
  Json.scan_number s = Some (v, r) -> (String.length r < String.length s)%nat.
Proof.
  unfold Json.scan_number.
  destruct (Json.scan_integer s) as [[[neg ip] s1] |] eqn:E1; [| discriminate].
  apply scan_integer_length in E1.
  destruct (Json.scan_frac s1) as [[fd s2] |] eqn:E2;
    [apply scan_frac_length in E2 |];
    (destruct (Json.scan_exp _) as [[e s3] |] eqn:E3;
     [apply scan_exp_length in E3 |]);
    intros H; inversion H; subst; lia.
Qed.

Lemma scanstring_no_exhaustion (s : string) :
  Json.scanstring s <> Raises RecursionError.
Proof.
  assert (G : forall m s, (String.length s <= m)%nat ->
                Json.scanstring s <> Raises RecursionError).
  { induction m as [| m IHm]; intros s' Hm.
    - destruct s'; [discriminate | simpl in Hm; lia].
    - destruct s' as [| c s']; [discriminate |].
      cbn [Json.scanstring]. simpl in Hm.
      destruct (Ascii.eqb c Json.dquote); [discriminate |].
      assert (Hrec : forall t (f : string * string -> outcome (string * string)),
                (String.length t <= m)%nat ->
                (forall x, f x <> Raises RecursionError) ->
                bind (Json.scanstring t) f <> Raises RecursionError).
      { intros t f Ht Hf. specialize (IHm t Ht).
        destruct (Json.scanstring t); simpl; [apply Hf | congruence]. }
      destruct (Ascii.eqb c Json.backslash).
      + destruct s' as [| e s']; [discriminate |].
        assert (Hesc : match Json.unescape e with
                       | Some ch =>
                           t0 <- Json.scanstring s' ;;
                           (let '(t1, r1) := t0 in Returns (String ch t1, r1))
                       | None => Raises JSONDecodeError
                       end <> Raises RecursionError).
        { destruct (Json.unescape e); [| discriminate].
          apply Hrec; [simpl in Hm; lia |]. intros [? ?]. discriminate. }
        destruct (Ascii.eqb_spec e "u") as [-> | Ne].
        * destruct s' as [| h1 [| h2 [| h3 [| h4 s']]]]; try discriminate.
          destruct (Json.hex4 h1 h2 h3 h4) as [u |]; [| discriminate].
          destruct (u <=? 255)%N; [| discriminate].
          apply Hrec; [simpl in Hm; lia |]. intros [? ?]. discriminate.
        * char_cases e; try exact Hesc;
            exfalso; apply Ne; reflexivity.
      + destruct (N_of_ascii c <? 32)%N; [discriminate |].
        apply Hrec; [lia |]. intros [? ?]. discriminate. }
  exact (G _ s (le_n _)).
Qed.

Lemma object_loop_sound (L : nat) (scan : string -> outcome (val * string)) :
  sound_upto L scan ->
  forall (n : nat) (s : string) (pairs : list (string * val)),
    (String.length s < n)%nat -> (String.length s <= L)%nat ->
    Json.object_loop scan n s pairs <> Raises RecursionError
    /\ forall v r, Json.object_loop scan n s pairs = Returns (v, r) ->
                   (String.length r < String.length s)%nat.
Proof.
  intros Hscan. induction n as [| n IH]; intros s pairs Hn HL; [lia |].
  cbn [Json.object_loop].
  destruct (Json.scanstring s) as [[key s1] | e] eqn:E1; cbn [bind].
  2:{ split; [| discriminate]. intros H. inversion H; subst.
      exact (scanstring_no_exhaustion _ E1). }
  pose proof (scanstring_length _ _ _ _ (le_n _) E1) as H1.
  pose proof (skip_ws_length s1) as W1.
  destruct (Json.skip_ws s1) as [| c1 s2] eqn:E2.
  { split; discriminate. }
  assert (Hcolon :
    (x <- scan (Json.skip_ws s2) ;;
     (let '(value, s3) := x in
      let pairs' := dict_set pairs key value in
      match Json.skip_ws s3 with
      | String "}" s4 => Returns (VDict pairs', s4)
      | String "," s4 =>
          match Json.skip_ws s4 with
          | String c s5 =>
              if Ascii.eqb c Json.dquote then Json.object_loop scan n s5 pairs'
              else Raises JSONDecodeError
          | EmptyString => Raises JSONDecodeError
          end
      | _ => Raises JSONDecodeError
      end)) <> Raises RecursionError
    /\ forall v r,
        (x <- scan (Json.skip_ws s2) ;;
         (let '(value, s3) := x in
          let pairs' := dict_set pairs key value in
          match Json.skip_ws s3 with
          | String "}" s4 => Returns (VDict pairs', s4)
          | String "," s4 =>
              match Json.skip_ws s4 with
              | String c s5 =>
                  if Ascii.eqb c Json.dquote then Json.object_loop scan n s5 pairs'
                  else Raises JSONDecodeError
              | EmptyString => Raises JSONDecodeError
              end
          | _ => Raises JSONDecodeError
          end)) = Returns (v, r) ->
        (String.length r < String.length s)%nat).
  { pose proof (skip_ws_length s2) as W2. simpl in W1.
    destruct (Hscan (Json.skip_ws s2)) as [Hn1 Hl1]; [lia |].
    destruct (scan (Json.skip_ws s2)) as [[value s3] | e] eqn:E3; cbn [bind].
    2:{ split; [congruence | discriminate]. }
    specialize (Hl1 _ _ eq_refl).
    pose proof (skip_ws_length s3) as W3.
    destruct (Json.skip_ws s3) as [| c3 s4] eqn:E4.
    { split; discriminate. }
    simpl in W3.
    assert (Hcomma :
      match Json.skip_ws s4 with
      | String c s5 =>
          if Ascii.eqb c Json.dquote
          then Json.object_loop scan n s5 (dict_set pairs key value)
          else Raises JSONDecodeError
      | EmptyString => Raises JSONDecodeError
      end <> Raises RecursionError
      /\ forall v r,
          match Json.skip_ws s4 with
          | String c s5 =>
              if Ascii.eqb c Json.dquote
              then Json.object_loop scan n s5 (dict_set pairs key value)
              else Raises JSONDecodeError
          | EmptyString => Raises JSONDecodeError
          end = Returns (v, r) ->
          (String.length r < String.length s)%nat).
    { pose proof (skip_ws_length s4) as W4.
      destruct (Json.skip_ws s4) as [| c5 s5] eqn:E5.
      { split; discriminate. }
      simpl in W4.
      destruct (Ascii.eqb c5 Json.dquote); [| split; discriminate].
      destruct (IH s5 (dict_set pairs key value)) as [Hn5 Hl5]; [lia | lia |].
      split; [exact Hn5 |]. intros v r H. apply Hl5 in H. lia. }
    char_cases c3;
      try (split; discriminate); try exact Hcomma.
    split; [discriminate |]. intros v r H. inversion H; subst. lia. }
  char_cases c1;
    try (split; discriminate); exact Hcolon.
Qed.

Lemma array_loop_sound (L : nat) (scan : string -> outcome (val * string)) :
  sound_upto L scan ->
  forall (n : nat) (s : string) (values : list val),
    (String.length s < n)%nat -> (String.length s <= L)%nat ->
    Json.array_loop scan n s values <> Raises RecursionError
    /\ forall v r, Json.array_loop scan n s values = Returns (v, r) ->
                   (String.length r < String.length s)%nat.
Proof.
  intros Hscan. induction n as [| n IH]; intros s values Hn HL; [lia |].
  cbn [Json.array_loop].
  destruct (Hscan s HL) as [Hn1 Hl1].
  destruct (scan s) as [[value s1] | e] eqn:E1; cbn [bind].
  2:{ split; [congruence | discriminate]. }
  specialize (Hl1 _ _ eq_refl).
  pose proof (skip_ws_length s1) as W1.
  destruct (Json.skip_ws s1) as [| c1 s2] eqn:E2.
  { split; discriminate. }
  simpl in W1.
  pose proof (skip_ws_length s2) as W2.
  destruct (IH (Json.skip_ws s2) (values ++ [value])%list) as [Hn2 Hl2];
    [lia | lia |].
  char_cases c1; try (split; discriminate);
    first [ split; [exact Hn2 | intros v r H; apply Hl2 in H; lia]
          | split; [discriminate | intros v r H; inversion H; subst; lia] ].
Qed.

Lemma JSONObject_sound (L : nat) (scan : string -> outcome (val * string)) :
  sound_upto L scan ->
  forall s, (String.length s <= L)%nat ->
    Json.JSONObject scan s <> Raises RecursionError
    /\ forall v r, Json.JSONObject scan s = Returns (v, r) ->
                   (String.length r <= String.length s)%nat.
Proof.
  intros Hscan s HL. unfold Json.JSONObject.
  pose proof (skip_ws_length s) as W.
  destruct (Json.skip_ws s) as [| c s1] eqn:E.
  { split; discriminate. }
  simpl in W.
  assert (Hloop :
    (if Ascii.eqb c Json.dquote
     then Json.object_loop scan (S (String.length s1)) s1 []
     else Raises JSONDecodeError) <> Raises RecursionError
    /\ forall v r,
        (if Ascii.eqb c Json.dquote
         then Json.object_loop scan (S (String.length s1)) s1 []
         else Raises JSONDecodeError) = Returns (v, r) ->
        (String.length r <= String.length s)%nat).
  { destruct (Ascii.eqb c Json.dquote); [| split; discriminate].
    destruct (object_loop_sound L scan Hscan (S (String.length s1)) s1 [])
      as [Hn Hl]; [lia | lia |].
    split; [exact Hn |]. intros v r H. apply Hl in H. lia. }
  char_cases c; try exact Hloop.
  split; [discriminate |]. intros v r H. inversion H; subst. lia.
Qed.

Lemma JSONArray_sound (L : nat) (scan : string -> outcome (val * string)) :
  sound_upto L scan ->
  forall s, (String.length s <= L)%nat ->
    Json.JSONArray scan s <> Raises RecursionError
    /\ forall v r, Json.JSONArray scan s = Returns (v, r) ->
                   (String.length r <= String.length s)%nat.
Proof.
  intros Hscan s HL. unfold Json.JSONArray.
  pose proof (skip_ws_length s) as W.
  assert (Hloop :
    Json.array_loop scan (S (String.length (Json.skip_ws s))) (Json.skip_ws s) []
    <> Raises RecursionError
    /\ forall v r,
        Json.array_loop scan (S (String.length (Json.skip_ws s)))
          (Json.skip_ws s) [] = Returns (v, r) ->
        (String.length r <= String.length s)%nat).
  { destruct (array_loop_sound L scan Hscan
                (S (String.length (Json.skip_ws s))) (Json.skip_ws s) [])
      as [Hn Hl]; [lia | lia |].
    split; [exact Hn |]. intros v r H. apply Hl in H. lia. }
  destruct (Json.skip_ws s) as [| c s1] eqn:E; [exact Hloop |].
  simpl in W.
  char_cases c; try exact Hloop.
  split; [discriminate |]. intros v r H. inversion H; subst. lia.
Qed.

Lemma scan_once_sound (fuel : nat) : sound_upto (pred fuel) (Json.scan_once fuel)
                                     \/ fuel = O.
Proof.
  induction fuel as [| fuel IH]; [now right |]. left.
  assert (Hin : sound_upto (pred fuel) (Json.scan_once fuel) \/ fuel = O)
    by exact IH.
  intros s Hs. simpl in Hs. cbn [Json.scan_once].
  destruct s as [| c s]; [split; discriminate |].
  simpl in Hs.
  assert (Hsound : sound_upto (pred fuel) (Json.scan_once fuel)).
  { destruct Hin as [H | ->]; [exact H | lia]. }
  assert (Hs' : (String.length s <= pred fuel)%nat) by lia.
  destruct (Ascii.eqb c Json.dquote).
  { destruct (Json.scanstring s) as [[t r] | e] eqn:E; cbn [bind].
    - split; [discriminate |]. intros v r' H. inversion H; subst.
      apply (scanstring_length _ _ _ _ (le_n _)) in E. simpl. lia.
    - split; [| discriminate]. intros H. inversion H; subst.
      exact (scanstring_no_exhaustion _ E). }
  destruct (Ascii.eqb c "{").
  { destruct (JSONObject_sound _ _ Hsound s Hs') as [Hn Hl].
    split; [exact Hn |]. intros v r H. apply Hl in H. simpl. lia. }
  destruct (Ascii.eqb c "[").
  { destruct (JSONArray_sound _ _ Hsound s Hs') as [Hn Hl].
    split; [exact Hn |]. intros v r H. apply Hl in H. simpl. lia. }
  assert (Hdrop : forall n, (String.length (drop (S n) (String c s))
                             < String.length (String c s))%nat).
  { intros n. pose proof (drop_length n s). simpl. lia. }
  destruct (String.prefix "null" (String c s)).
  { split; [discriminate |]. intros v r H. inversion H; subst. exact (Hdrop 3%nat). }
  destruct (String.prefix "true" (String c s)).
  { split; [discriminate |]. intros v r H. inversion H; subst. exact (Hdrop 3%nat). }
  destruct (String.prefix "false" (String c s)).
  { split; [discriminate |]. intros v r H. inversion H; subst. exact (Hdrop 4%nat). }
  destruct (Json.scan_number (String c s)) as [[v0 r0] |] eqn:E.
  { split; [discriminate |]. intros v r H. inversion H; subst.
    exact (scan_number_length _ _ _ E). }
  destruct (String.prefix "NaN" (String c s)).
  { split; [discriminate |]. intros v r H. inversion H; subst. exact (Hdrop 2%nat). }
  destruct (String.prefix "Infinity" (String c s)).
  { split; [discriminate |]. intros v r H. inversion H; subst. exact (Hdrop 7%nat). }
  destruct (String.prefix "-Infinity" (String c s)).
  { split; [discriminate |]. intros v r H. inversion H; subst. exact (Hdrop 8%nat). }
  split; discriminate.
Qed.

(** The fuel [json.loads] hands to the scanner is never used up. *)
Theorem loads_no_exhaustion (s : string) :
  Json.loads s <> Raises RecursionError.
Proof.
  unfold Json.loads.
  destruct (scan_once_sound (S (String.length s))) as [H | H]; [| discriminate].
  pose proof (skip_ws_length s) as W.
  destruct (H (Json.skip_ws s)) as [Hn _]; [simpl; lia |].
  destruct (Json.scan_once (S (String.length s)) (Json.skip_ws s))
    as [[v r] | e]; cbn [bind]; [| congruence].
  destruct (Json.skip_ws r); discriminate.
Qed.

(** ** The text pattern *)

Lemma plus_greedy_some {A : Type} (p : ascii -> bool) (k : string -> option A)
    (s : string) (x : A) :
  Re.plus_greedy p k s = Some x -> exists s', k s' = Some x.
Proof.
  induction s as [| c s IH]; simpl; [discriminate |].
  destruct (p c); [| discriminate].
  destruct (Re.plus_greedy p k s) as [y |].
  - intros E. apply IH. congruence.
  - eauto.
Qed.

Lemma plus_lazy_some {A : Type} (p : ascii -> bool) (k : string -> option A)
    (s : string) (x : A) :
  Re.plus_lazy p k s = Some x -> exists s', k s' = Some x.
Proof.
  induction s as [| c s IH]; simpl; [discriminate |].
  destruct (p c); [| discriminate].
  destruct (k s) as [y |] eqn:E; [| exact IH].
  intros H. exists s. congruence.
Qed.

Lemma set_nth_length {A : Type} (n : nat) (x : A) (l : list A) :
  List.length (Re.set_nth n x l) = List.length l.
Proof.
  revert n. induction l as [| y l IH]; intros [| n]; simpl; auto.
Qed.

Lemma set_nth_same {A : Type} (n : nat) (x d : A) (l : list A) :
  (n < List.length l)%nat -> nth n (Re.set_nth n x l) d = x.
Proof.
  revert n. induction l as [| y l IH]; intros [| n]; simpl; intros H;
    try lia; auto.
  apply IH. lia.
Qed.

Lemma set_nth_keeps {A : Type} (n m : nat) (x d : A) (l : list A) :
  x <> d -> nth m l d <> d -> nth m (Re.set_nth n x l) d <> d.
Proof.
  intros Hx. revert n m.
  induction l as [| y l IH]; intros [| n] [| m]; simpl; auto.
Qed.

Lemma set_group_length (i : nat) (v : string) (g : Re.groups) :
  List.length (Re.set_group i v g) = List.length g.
Proof. destruct i; simpl; [reflexivity | apply set_nth_length]. Qed.

Lemma set_group_same (i : nat) (v : string) (g : Re.groups) :
  (1 <= i <= List.length g)%nat -> Re.group (Re.set_group i v g) i = Some v.
Proof.
  destruct i; simpl; intros H; [lia |]. apply set_nth_same. lia.
Qed.

Lemma set_group_keeps (i j : nat) (v : string) (g : Re.groups) :
  Re.group g j <> None -> Re.group (Re.set_group i v g) j <> None.
Proof.
  destruct i, j; simpl; auto. apply set_nth_keeps. discriminate.
Qed.

(** A successful run reaches its continuation with groups that are still
    set where they were, and set wherever the pattern always sets them. *)
Lemma run_sets (r : Re.regex) :
  forall (s : string) (g : Re.groups) (k : string -> Re.groups -> option Re.groups)
         (x : Re.groups),
    Re.run r s g k = Some x ->
    exists s' g',
      k s' g' = Some x
      /\ List.length g' = List.length g
      /\ (forall i, Re.group g i <> None -> Re.group g' i <> None)
      /\ (forall i, In i (always_set r) -> (1 <= i <= List.length g)%nat ->
                    Re.group g' i <> None).
Proof.
  induction r as [l | p | p | r1 IH1 r2 IH2 | r1 IH1 r2 IH2 | r1 IH1 | n r1 IH1];
    intros s g k x; simpl.
  - destruct (String.prefix l s); [| discriminate].
    intros H. exists (drop (String.length l) s), g. repeat split; auto; simpl; tauto.
  - intros H. apply plus_greedy_some in H. destruct H as (s' & H).
    exists s', g. repeat split; auto; simpl; tauto.
  - intros H. apply plus_lazy_some in H. destruct H as (s' & H).
    exists s', g. repeat split; auto; simpl; tauto.
  - intros H. apply IH1 in H. destruct H as (s1 & g1 & H & L1 & K1 & S1).
    apply IH2 in H. destruct H as (s2 & g2 & H & L2 & K2 & S2).
    exists s2, g2. split; [assumption |]. split; [congruence |].
    split; [auto |].
    intros i Hi Hr. apply in_app_or in Hi. destruct Hi as [Hi | Hi].
    + apply K2. now apply S1.
    + apply S2; [assumption | lia].
  - destruct (Re.run r1 s g k) as [y |] eqn:E.
    + intros H. inversion H; subst y. apply IH1 in E.
      destruct E as (s1 & g1 & H1 & L1 & K1 & S1).
      exists s1, g1. repeat split; auto.
      intros i Hi. apply filter_In in Hi. now apply S1.
    + intros H. apply IH2 in H. destruct H as (s2 & g2 & H2 & L2 & K2 & S2).
      exists s2, g2. repeat split; auto.
      intros i Hi. apply filter_In in Hi. destruct Hi as [_ Hi].
      apply existsb_exists in Hi. destruct Hi as (j & Hj & Eij).
      apply Nat.eqb_eq in Eij. subst j. now apply S2.
  - destruct (Re.run r1 s g k) as [y |] eqn:E.
    + intros H. inversion H; subst y. apply IH1 in E.
      destruct E as (s1 & g1 & H1 & L1 & K1 & S1).
      exists s1, g1. repeat split; auto; simpl; tauto.
    + intros H. exists s, g. repeat split; auto; simpl; tauto.
  - intros H. apply IH1 in H. destruct H as (s1 & g1 & H & L1 & K1 & S1).
    exists s1, (Re.set_group n (Re.consumed s s1) g1).
    split; [assumption |]. split; [now rewrite set_group_length |].
    split.
    + intros i Hg. apply set_group_keeps; auto.
    + intros i [<- | Hi] Hr.
      * rewrite set_group_same; [discriminate | lia].
      * apply set_group_keeps. now apply S1.
Qed.

(** A match of the text pattern has eight groups, of which 1, 2, 3, 5 and 6
    always hold a string. *)
Lemma pattern_groups (line : string) (m : Re.groups) :
  Re.match_ 8 pattern line = Some m ->
  exists operation impl hive_size variant iterations ns_per_op bytes_per_op
         allocs_per_op,
    m = [ Some operation; Some impl; Some hive_size; variant;
          Some iterations; Some ns_per_op; bytes_per_op; allocs_per_op ].
Proof.
  unfold Re.match_. intros H. apply run_sets in H.
  destruct H as (s' & g' & H & L & _ & S). inversion H; subst g'. clear H.
  simpl in L.
  assert (H1 := S 1%nat). assert (H2 := S 2%nat). assert (H3 := S 3%nat).
  assert (H5 := S 5%nat). assert (H6 := S 6%nat). clear S.
  destruct m as [| [a |] [| [b |] [| [c |] [| d [| [e |] [| [f |] [| g [| h [| ? ?]]]]]]]]];
    simpl in *; try discriminate L;
    try (exfalso; apply H1; [tauto | lia | reflexivity]);
    try (exfalso; apply H2; [tauto | lia | reflexivity]);
    try (exfalso; apply H3; [tauto | lia | reflexivity]);
    try (exfalso; apply H5; [tauto | lia | reflexivity]);
    try (exfalso; apply H6; [tauto | lia | reflexivity]).
  repeat eexists.
Qed.

Lemma int_of_str_raises (s : string) (e : exn) :
  int_of_str s = Raises e -> e = ValueError.
Proof.
  unfold int_of_str. destruct s; [congruence |].
  destruct (all_decimal _); congruence.
Qed.

Lemma exponent_of_str_raises (s : string) (e : exn) :
  exponent_of_str s = Raises e -> e = ValueError.
Proof.
  unfold exponent_of_str. destruct s as [| c s]; [discriminate |].
  destruct (_ || _); [| congruence].
  destruct s as [| c' s'].
  - apply int_of_str_raises.
  - destruct (Ascii.eqb_spec c' "-") as [-> | N1].
    + destruct (int_of_str s') eqn:E; simpl; [discriminate |].
      intros H. inversion H; subst. eapply int_of_str_raises; eauto.
    + destruct (Ascii.eqb_spec c' "+") as [-> | N2].
      * apply int_of_str_raises.
      * intros H. apply (int_of_str_raises (String c' s')).
        char_cases c'; try exact H;
          congruence.
Qed.

Lemma float_of_str_raises (s : string) (e : exn) :
  float_of_str s = Raises e -> e = ValueError.
Proof.
  unfold float_of_str.
  destruct (match s with
            | String "-" r => (true, r)
            | String "+" r => (false, r)
            | _ => (false, s)
            end) as [neg s1].
  destruct (span_decimal s1) as [ip s2].
  destruct (match s2 with
            | String "." r => span_decimal r
            | _ => (EmptyString, s2)
            end) as [fp s3].
  destruct (ip ++ fp)%string; [congruence |].
  destruct (exponent_of_str s3) as [ex | e'] eqn:E; simpl; [intros H; discriminate H |].
  intros H. inversion H; subst. eapply exponent_of_str_raises; eauto.
Qed.

Lemma int_or_zero_raises (g : option string) (e : exn) :
  int_or_zero g = Raises e -> e = ValueError.
Proof.
  destruct g as [[| c s] |]; cbn [int_or_zero];
    try (intros H; discriminate H).
  destruct (int_of_str (String c s)) as [n | e'] eqn:E; cbn [bind];
    [intros H; discriminate H |].
  intros H. inversion H; subst. eapply int_of_str_raises; eauto.
Qed.

(** The text parser returns, or raises [ValueError] from a conversion: the
    groups it reads as strings always are strings. *)
Lemma parse_text_benchmark_raises (line : string) (e : exn) :
  parse_text_benchmark line = Raises e -> e = ValueError.
Proof.
  unfold parse_text_benchmark.
  destruct (Re.match_ 8 pattern line) as [m |] eqn:M; [| intros H; discriminate H].
  apply pattern_groups in M.
  destruct M as (operation & impl & hive_size & variant & iterations & ns_per_op
                 & bytes_per_op & allocs_per_op & ->).
  destruct (int_of_str iterations) as [n | e1] eqn:E1; simpl.
  2:{ intros H. inversion H; subst. eapply int_of_str_raises; eauto. }
  destruct (float_of_str ns_per_op) as [f | e2] eqn:E2; simpl.
  2:{ intros H. inversion H; subst. eapply float_of_str_raises; eauto. }
  destruct (int_or_zero bytes_per_op) as [b | e3] eqn:E3; simpl.
  2:{ intros H. inversion H; subst. eapply int_or_zero_raises; eauto. }
  destruct (int_or_zero allocs_per_op) as [a | e4] eqn:E4; simpl.
  2:{ intros H. inversion H; subst. eapply int_or_zero_raises; eauto. }
  intros H; discriminate H.
Qed.

(** ** The structured parser *)

(** ['] in [json_text] is the double quote, character 34. *)
Lemma json_text_quote :
  json_text "'" = String (ascii_of_nat 34) EmptyString
  /\ json_text "{'Name': 5}"
     = String "{" (String (ascii_of_nat 34) ("Name" ++ String (ascii_of_nat 34) ": 5}")).
Proof. split; reflexivity. Qed.

(** [float_150_2] is the binary64 nearest to 150.2: a 53-bit mantissa, and
    an error below half a unit in the last place, 2^-46. *)
Lemma float_150_2_nearest :
  bounded prec emax 5284692687742566 (-45) = true
  /\ 2 * Z.abs (10 * 5284692687742566 - 1502 * 2 ^ 45) < 10.
Proof. split; [reflexivity | vm_compute; reflexivity]. Qed.

Lemma float_of_str_150_2 : float_of_str "150.2" = Returns float_150_2.
Proof. vm_compute. reflexivity. Qed.

(** On a document that decodes to a dict whose [Name] is a str of two
    segments or more, the structured parser returns a record: the fields
    come from the segments of the name and from [data.get] with its
    defaults. *)
Lemma parse_json_benchmark_dict (line : string) (d : list (string * val))
    (name : string) :
  Json.loads line = Returns (VDict d) ->
  dict_lookup d "Name" = Some (VStr name) ->
  (2 <= List.length (split "/" name))%nat ->
  let parts := split "/" name in
  let operation := replace1 "Benchmark" "" (nth 0 parts "") in
  let variant := if (4 <=? List.length parts)%nat then nth 3 parts "" else "" in
  parse_json_benchmark line =
  Returns (Some {|
    BenchmarkResult.name := name;
    BenchmarkResult.operation :=
      if truthy_str variant then operation ++ "/" ++ variant else operation;
    BenchmarkResult.hive_size :=
      if (3 <=? List.length parts)%nat then nth 2 parts "" else "";
    BenchmarkResult.impl := nth 1 parts "";
    BenchmarkResult.iterations := lookup_default d "N" (VInt 0);
    BenchmarkResult.ns_per_op := lookup_default d "T" (VFloat fzero);
    BenchmarkResult.bytes_per_op := lookup_default d "B" (VInt 0);
    BenchmarkResult.allocs_per_op := lookup_default d "A" (VInt 0) |}).
Proof.
  intros Hloads Hname Hlen. cbv zeta.
  unfold parse_json_benchmark, parse_json_benchmark_try.
  rewrite Hloads. cbn [bind]. unfold get at 1. rewrite Hname. cbn [bind].
  destruct (Nat.ltb_spec (List.length (split "/" name)) 2) as [Hlt | _]; [lia |].
  unfold get, lookup_default.
  destruct (dict_lookup d "N"), (dict_lookup d "T"), (dict_lookup d "B"),
    (dict_lookup d "A"); reflexivity.
Qed.

(** When the [Name] of the dict is anything but a str, [name.split] raises
    [AttributeError], which the [except] clause does not catch. *)
Lemma parse_json_benchmark_name_not_str (line : string)
    (d : list (string * val)) (v : val) :
  Json.loads line = Returns (VDict d) ->
  dict_lookup d "Name" = Some v ->
  (forall s, v <> VStr s) ->
  parse_json_benchmark line = Raises AttributeError.
Proof.
  intros Hloads Hname Hv.
  unfold parse_json_benchmark, parse_json_benchmark_try.
  rewrite Hloads. cbn [bind]. unfold get. rewrite Hname. cbn [bind].
  destruct v; try reflexivity. exfalso. exact (Hv s eq_refl).
Qed.

(** [s.replace(old, new, 1)] on a string that starts with [old]. *)
Lemma replace1_prefix (old new s : string) :
  String.prefix old s = true ->
  replace1 old new s = new ++ drop (String.length old) s.
Proof. intros H. destruct s; cbn [replace1]; rewrite H; reflexivity. Qed.

(** [s.replace(old, new, 1)] removes an occurrence that is not at the
    front: after a first character that does not start an occurrence, the
    replacement goes on in the rest. *)
Lemma replace1_skip (old new : string) (c : ascii) (s : string) :
  String.prefix old (String c s) = false ->
  replace1 old new (String c s) = String c (replace1 old new s).
Proof. intros H. cbn [replace1]. rewrite H. reflexivity. Qed.

(** ** The grouping loop *)

Lemma key_eqb_spec (a b : key) : reflect (a = b) (key_eqb a b).
Proof.
  destruct a as [a1 a2], b as [b1 b2]. unfold key_eqb; simpl.
  destruct (String.eqb_spec a1 b1), (String.eqb_spec a2 b2); simpl;
    constructor; congruence.
Qed.

Lemma key_eqb_refl (a : key) : key_eqb a a = true.
Proof. destruct (key_eqb_spec a a); congruence. Qed.

Lemma groups_get_In (g : groups) (k : key) (group : list BenchmarkResult.t) :
  groups_get g k = Some group -> In (k, group) g.
Proof.
  induction g as [| [k' grp] g IH]; simpl; [discriminate |].
  destruct (key_eqb_spec k k') as [-> | N]; intros H.
  - left. congruence.
  - right. auto.
Qed.

Lemma groups_get_None (g : groups) (k : key) :
  groups_get g k = None -> ~ In k (map fst g).
Proof.
  induction g as [| [k' grp] g IH]; simpl; [tauto |].
  destruct (key_eqb_spec k k') as [-> | N]; [discriminate |].
  intros H [E | HIn]; [congruence | now apply IH].
Qed.

Lemma In_groups_get (g : groups) (k : key) (group : list BenchmarkResult.t) :
  NoDup (map fst g) -> In (k, group) g -> groups_get g k = Some group.
Proof.
  induction g as [| [k' grp] g IH]; simpl; [tauto |].
  intros Hnd [E | HIn].
  - inversion E; subst. now rewrite key_eqb_refl.
  - inversion Hnd as [| ? ? Hk' Hnd']; subst.
    destruct (key_eqb_spec k k') as [-> | N]; [| auto].
    exfalso. apply Hk'. apply (in_map fst) in HIn. exact HIn.
Qed.

Lemma groups_append_keys (g : groups) (k : key) (r : BenchmarkResult.t) (k' : key) :
  In k' (map fst (groups_append g k r)) <-> k' = k \/ In k' (map fst g).
Proof.
  induction g as [| [k0 grp] g IH]; simpl.
  - intuition.
  - destruct (key_eqb_spec k k0) as [-> | N]; simpl; [intuition |].
    rewrite IH. intuition.
Qed.

Lemma groups_append_NoDup (g : groups) (k : key) (r : BenchmarkResult.t) :
  NoDup (map fst g) -> NoDup (map fst (groups_append g k r)).
Proof.
  induction g as [| [k0 grp] g IH]; simpl; intros Hnd.
  - constructor; [simpl; tauto | constructor].
  - inversion Hnd as [| ? ? Hk0 Hnd']; subst.
    destruct (key_eqb_spec k k0) as [-> | N]; simpl.
    + constructor; assumption.
    + constructor; [| auto].
      rewrite groups_append_keys. intros [E | HIn]; [congruence | tauto].
Qed.

Lemma groups_get_append (g : groups) (k : key) (r : BenchmarkResult.t) (k' : key) :
  groups_get (groups_append g k r) k' =
  if key_eqb k' k then
    Some (match groups_get g k with Some old => old | None => [] end ++ [r])%list
  else groups_get g k'.
Proof.
  induction g as [| [k0 grp] g IH]; cbn [groups_get groups_append].
  - destruct (key_eqb_spec k' k); reflexivity.
  - destruct (key_eqb_spec k k0) as [E | N]; cbn [groups_get].
    + subst k0. destruct (key_eqb_spec k' k); reflexivity.
    + destruct (key_eqb_spec k' k0) as [E' | N'].
      * subst k0. destruct (key_eqb_spec k' k); [congruence | reflexivity].
      * exact IH.
Qed.

Lemma group_results_snoc (results : list BenchmarkResult.t)
    (r : BenchmarkResult.t) (filter_type : string) :
  group_results (results ++ [r]) filter_type =
  if skipped filter_type r then group_results results filter_type
  else groups_append (group_results results filter_type) (result_key r) r.
Proof. unfold group_results. now rewrite fold_left_app. Qed.

Lemma group_results_NoDup (results : list BenchmarkResult.t) (filter_type : string) :
  NoDup (map fst (group_results results filter_type)).
Proof.
  induction results as [| r results IH] using rev_ind.
  - constructor.
  - rewrite group_results_snoc.
    destruct (skipped filter_type r); [assumption |].
    now apply groups_append_NoDup.
Qed.

(** The entry of a key is the list of its members, and a key without
    members has no entry. *)
Lemma group_results_get (results : list BenchmarkResult.t)
    (filter_type : string) (k : key) :
  groups_get (group_results results filter_type) k =
  match members filter_type results k with
  | [] => None
  | m => Some m
  end.
Proof.
  induction results as [| r results IH] using rev_ind; [reflexivity |].
  rewrite group_results_snoc. unfold members in *. rewrite filter_app. simpl.
  destruct (skipped filter_type r); simpl.
  - now rewrite app_nil_r.
  - rewrite groups_get_append.
    destruct (key_eqb_spec k (result_key r)) as [-> | N].
    + rewrite key_eqb_refl, IH.
      destruct (filter _ results); reflexivity.
    + destruct (key_eqb_spec (result_key r) k); [congruence |].
      now rewrite app_nil_r.
Qed.

Lemma group_results_In (results : list BenchmarkResult.t)
    (filter_type : string) (k : key) (group : list BenchmarkResult.t) :
  In (k, group) (group_results results filter_type) <->
  group = members filter_type results k /\ group <> [].
Proof.
  split.
  - intros HIn. apply In_groups_get in HIn; [| apply group_results_NoDup].
    rewrite group_results_get in HIn.
    destruct (members filter_type results k); [discriminate |].
    inversion HIn; subst. split; [reflexivity | discriminate].
  - intros [-> Hne]. apply groups_get_In. rewrite group_results_get.
    destruct (members filter_type results k); [congruence | reflexivity].
Qed.

Lemma members_In (filter_type : string) (results : list BenchmarkResult.t)
    (k : key) (r : BenchmarkResult.t) :
  In r (members filter_type results k) <->
  In r results /\ skipped filter_type r = false /\ result_key r = k.
Proof.
  unfold members. rewrite filter_In, andb_true_iff, negb_true_iff.
  destruct (key_eqb_spec (result_key r) k); intuition congruence.
Qed.

Lemma included_iff (results : list BenchmarkResult.t) (filter_type : string)
    (r : BenchmarkResult.t) :
  In r results ->
  (included results filter_type r <-> skipped filter_type r = false).
Proof.
  intros HIn. unfold included. split.
  - intros (group & Hg & Hr). apply group_results_In in Hg.
    destruct Hg as [-> _]. apply members_In in Hr. tauto.
  - intros Hs. exists (members filter_type results (result_key r)).
    assert (Hr : In r (members filter_type results (result_key r)))
      by (apply members_In; auto).
    split; [| exact Hr].
    apply group_results_In. split; [reflexivity |].
    intros E. rewrite E in Hr. exact Hr.
Qed.


(** The filter looks at the operation only: records under one key pass or
    fail together. *)
Lemma skipped_key (filter_type : string) (r r' : BenchmarkResult.t) :
  result_key r' = result_key r -> skipped filter_type r' = skipped filter_type r.
Proof.
  unfold result_key, skipped, is_mutation, operation_base.
  intros E. inversion E as [[Eo Eh]]. now rewrite Eo.
Qed.

(** ** The inner loop *)

Lemma find_impls_snoc (group : list BenchmarkResult.t) (r : BenchmarkResult.t) :
  find_impls (group ++ [r]) =
  let '(gohivex, hivex) := find_impls group in
  if String.eqb (BenchmarkResult.impl r) "gohivex" then (Some r, hivex)
  else if String.eqb (BenchmarkResult.impl r) "hivex" then (gohivex, Some r)
  else (gohivex, hivex).
Proof.
  unfold find_impls. rewrite fold_left_app. simpl.
  destruct (fold_left _ group (None, None)); reflexivity.
Qed.

Lemma find_impls_last (group : list BenchmarkResult.t) :
  find_impls group = (last_of "gohivex" group, last_of "hivex" group).
Proof.
  induction group as [| r group IH] using rev_ind; [reflexivity |].
  rewrite find_impls_snoc, IH. unfold last_of. rewrite rev_app_distr. simpl.
  destruct (String.eqb_spec (BenchmarkResult.impl r) "gohivex") as [E | N].
  - rewrite E. reflexivity.
  - destruct (String.eqb (BenchmarkResult.impl r) "hivex"); reflexivity.
Qed.

Lemma last_of_some (tag : string) (group : list BenchmarkResult.t)
    (r : BenchmarkResult.t) :
  last_of tag group = Some r -> In r group /\ BenchmarkResult.impl r = tag.
Proof.
  unfold last_of. intros H. apply find_some in H. destruct H as [HIn E].
  apply in_rev in HIn. apply String.eqb_eq in E. auto.
Qed.

Lemma last_of_none (tag : string) (group : list BenchmarkResult.t) :
  last_of tag group = None ->
  forall r, In r group -> BenchmarkResult.impl r <> tag.
Proof.
  unfold last_of. intros H r HIn.
  apply in_rev in HIn. apply (find_none _ _ H) in HIn.
  now apply String.eqb_neq.
Qed.

Lemma find_skip {A : Type} (f : A -> bool) (l1 l2 : list A) :
  Forall (fun x => f x = false) l1 -> find f (l1 ++ l2) = find f l2.
Proof.
  induction 1 as [| x l1 Hx Hl1 IH]; simpl; [reflexivity |].
  now rewrite Hx.
Qed.

Lemma last_of_split (tag : string) (before after : list BenchmarkResult.t)
    (r : BenchmarkResult.t) :
  BenchmarkResult.impl r = tag ->
  Forall (fun r' => BenchmarkResult.impl r' <> tag) after ->
  last_of tag (before ++ r :: after) = Some r.
Proof.
  intros E Hafter. unfold last_of.
  rewrite rev_app_distr. simpl. rewrite <- app_assoc.
  rewrite find_skip.
  - simpl. now rewrite E, String.eqb_refl.
  - apply Forall_rev. eapply Forall_impl; [| exact Hafter].
    intros x Hx. now apply String.eqb_neq.
Qed.

Lemma last_of_is_some (tag : string) (group : list BenchmarkResult.t) :
  is_some (last_of tag group) = true <->
  exists r, In r group /\ BenchmarkResult.impl r = tag.
Proof.
  destruct (last_of tag group) as [r |] eqn:E; simpl.
  - apply last_of_some in E. split; eauto.
  - split; [discriminate |]. intros (r & HIn & Hr).
    exfalso. exact (last_of_none _ _ E r HIn Hr).
Qed.

(** ** The loop over the groups *)

Lemma Forall2_in_r {A B : Type} (R : A -> B -> Prop) (l1 : list A) (l2 : list B) :
  Forall2 R l1 l2 -> forall b, In b l2 -> exists a, In a l1 /\ R a b.
Proof.
  induction 1 as [| a b l1 l2 HR H IH]; simpl; [tauto |].
  intros b' [<- | HIn]; [eauto |].
  destruct (IH b' HIn) as (a' & Ha' & HR'). eauto.
Qed.

Lemma Forall2_in_l {A B : Type} (R : A -> B -> Prop) (l1 : list A) (l2 : list B) :
  Forall2 R l1 l2 -> forall a, In a l1 -> exists b, In b l2 /\ R a b.
Proof.
  induction 1 as [| a b l1 l2 HR H IH]; simpl; [tauto |].
  intros a' [<- | HIn]; [eauto |].
  destruct (IH a' HIn) as (b' & Hb' & HR'). eauto.
Qed.

(** What the loop body leaves in [comp] before the speedup is computed. *)
Lemma compare_group_fields (k : key) (group : list BenchmarkResult.t)
    (c : ComparisonResult.t) :
  compare_group k group = Returns c ->
  ComparisonResult.operation c = fst k
  /\ ComparisonResult.hive_size c = snd k
  /\ ComparisonResult.gohivex_only c =
       is_some (last_of "gohivex" group) && negb (is_some (last_of "hivex" group))
  /\ match last_of "gohivex" group with
     | Some g =>
         ComparisonResult.gohivex_ns c = BenchmarkResult.ns_per_op g
         /\ ComparisonResult.gohivex_mem c = BenchmarkResult.bytes_per_op g
         /\ ComparisonResult.gohivex_allocs c = BenchmarkResult.allocs_per_op g
     | None =>
         ComparisonResult.gohivex_ns c = VFloat fzero
         /\ ComparisonResult.gohivex_mem c = VInt 0
         /\ ComparisonResult.gohivex_allocs c = VInt 0
     end
  /\ match last_of "hivex" group with
     | Some h =>
         ComparisonResult.hivex_ns c = BenchmarkResult.ns_per_op h
         /\ ComparisonResult.hivex_mem c = BenchmarkResult.bytes_per_op h
         /\ ComparisonResult.hivex_allocs c = BenchmarkResult.allocs_per_op h
     | None =>
         ComparisonResult.hivex_ns c = VFloat fzero
         /\ ComparisonResult.hivex_mem c = VInt 0
         /\ ComparisonResult.hivex_allocs c = VInt 0
     end.
Proof.
  unfold compare_group. rewrite find_impls_last.
  set (comp := if _ : bool then _ else _).
  intros H.
  apply bind_returns in H. destruct H as (gpos & _ & H).
  apply bind_returns in H. destruct H as (both & _ & H).
  assert (Hc : ComparisonResult.operation c = ComparisonResult.operation comp
          /\ ComparisonResult.hive_size c = ComparisonResult.hive_size comp
          /\ ComparisonResult.gohivex_only c = ComparisonResult.gohivex_only comp
          /\ ComparisonResult.gohivex_ns c = ComparisonResult.gohivex_ns comp
          /\ ComparisonResult.gohivex_mem c = ComparisonResult.gohivex_mem comp
          /\ ComparisonResult.gohivex_allocs c = ComparisonResult.gohivex_allocs comp
          /\ ComparisonResult.hivex_ns c = ComparisonResult.hivex_ns comp
          /\ ComparisonResult.hivex_mem c = ComparisonResult.hivex_mem comp
          /\ ComparisonResult.hivex_allocs c = ComparisonResult.hivex_allocs comp).
  { destruct both.
    - apply bind_returns in H. destruct H as (ratio & _ & H).
      inversion H; subst c. repeat split.
    - inversion H; subst c. repeat split. }
  destruct Hc as (-> & -> & -> & -> & -> & -> & -> & -> & ->).
  subst comp.
  destruct (last_of "gohivex" group), (last_of "hivex" group); simpl;
    repeat split.
Qed.

(** The speedup the loop body computes. *)
Lemma compare_group_speedup (k : key) (group : list BenchmarkResult.t)
    (c : ComparisonResult.t) :
  compare_group k group = Returns c ->
  (gt_zero (ComparisonResult.gohivex_ns c) = Returns true ->
   gt_zero (ComparisonResult.hivex_ns c) = Returns true ->
   truediv (ComparisonResult.hivex_ns c) (ComparisonResult.gohivex_ns c)
   = Returns (ComparisonResult.speedup c))
  /\ (~ (gt_zero (ComparisonResult.gohivex_ns c) = Returns true
         /\ gt_zero (ComparisonResult.hivex_ns c) = Returns true) ->
      ComparisonResult.speedup c = VFloat fzero).
Proof.
  unfold compare_group. rewrite find_impls_last.
  set (comp := if _ : bool then _ else _).
  assert (Hs : ComparisonResult.speedup comp = VFloat fzero).
  { subst comp.
    destruct (last_of "gohivex" group), (last_of "hivex" group); reflexivity. }
  intros H.
  apply bind_returns in H. destruct H as (gpos & Hg & H).
  apply bind_returns in H. destruct H as (both & Hb & H).
  destruct both.
  - apply bind_returns in H. destruct H as (ratio & Hr & H).
    inversion H; subst c. simpl. split; [intros _ _; exact Hr |].
    intros Hn. exfalso. apply Hn. destruct gpos; [auto | discriminate].
  - inversion H; subst c. split; [| intros _; exact Hs].
    intros Hg' Hh'. rewrite Hg' in Hg. inversion Hg; subst gpos.
    congruence.
Qed.

Lemma fltb_fzero_not_zero (f : float) : fltb fzero f = true -> is_fzero f = false.
Proof. destruct f; simpl; try reflexivity. discriminate. Qed.

(** On records with float times the loop body raises nothing. *)
Lemma compare_group_total (k : key) (group : list BenchmarkResult.t) :
  Forall float_time group -> exists c, compare_group k group = Returns c.
Proof.
  intros Hf. rewrite Forall_forall in Hf.
  unfold compare_group. rewrite find_impls_last.
  assert (Hg : forall g, last_of "gohivex" group = Some g -> float_time g).
  { intros g Hg. apply last_of_some in Hg. apply Hf, Hg. }
  assert (Hh : forall h, last_of "hivex" group = Some h -> float_time h).
  { intros h Hh. apply last_of_some in Hh. apply Hf, Hh. }
  destruct (last_of "gohivex" group) as [g |];
    destruct (last_of "hivex" group) as [h |]; simpl;
    try (destruct (Hg g eq_refl) as [fg Eg]; rewrite Eg);
    try (destruct (Hh h eq_refl) as [fh Eh]; rewrite Eh); simpl;
    try (destruct (fltb fzero fg) eqn:Pg); simpl;
    try (destruct (fltb fzero fh) eqn:Ph); simpl;
    try (unfold truediv, float_truediv; simpl;
         rewrite (fltb_fzero_not_zero _ Pg)); simpl; eauto.
Qed.


Lemma compare_groups_acc (g : groups) (acc comps : list ComparisonResult.t) :
  fold_left
    (fun acc '(k, group) =>
       comparisons <- acc ;;
       comp <- compare_group k group ;;
       Returns (comparisons ++ [comp])%list)
    g (Returns acc) = Returns comps <->
  exists cs, comps = (acc ++ cs)%list
             /\ Forall2 (fun kg c => compare_group (fst kg) (snd kg) = Returns c) g cs.
Proof.
  revert acc. induction g as [| [k group] g IH]; simpl; intros acc.
  - split.
    + intros H. inversion H; subst. exists []. rewrite app_nil_r. auto.
    + intros (cs & -> & H). inversion H; subst. now rewrite app_nil_r.
  - destruct (compare_group k group) as [c | e] eqn:E; simpl.
    + rewrite IH. split.
      * intros (cs & -> & H). exists (c :: cs). rewrite <- app_assoc. auto.
      * intros (cs & -> & H). inversion H; subst.
        assert (y = c) by (simpl in *; congruence). subst y.
        exists l'. rewrite <- app_assoc. auto.
    + rewrite fold_left_raises by (intros [? ?]; reflexivity).
      split; [discriminate |].
      intros (cs & _ & H). inversion H; subst. simpl in *. congruence.
Qed.

Lemma generate_comparisons_returns (results : list BenchmarkResult.t)
    (filter_type : string) (comps : list ComparisonResult.t) :
  generate_comparisons results filter_type = Returns comps <->
  exists cs,
    Forall2 (fun kg c => compare_group (fst kg) (snd kg) = Returns c)
      (group_results results filter_type) cs
    /\ comps = sort cs.
Proof.
  unfold generate_comparisons, compare_groups. split.
  - intros H. apply bind_returns in H. destruct H as (cs & H & E).
    apply compare_groups_acc in H. destruct H as (cs' & -> & H).
    exists cs'. split; [assumption | now inversion E].
  - intros (cs & H & ->).
    assert (E : fold_left
      (fun acc '(k, group) =>
         comparisons <- acc ;;
         comp <- compare_group k group ;;
         Returns (comparisons ++ [comp])%list)
      (group_results results filter_type) (Returns []) = Returns cs).
    { apply compare_groups_acc. exists cs. auto. }
    rewrite E. reflexivity.
Qed.

(** A comparison of the output is the comparison of a group, under the key
    of that group. *)
Lemma generate_comparisons_In (results : list BenchmarkResult.t)
    (filter_type : string) (comps : list ComparisonResult.t)
    (c : ComparisonResult.t) :
  generate_comparisons results filter_type = Returns comps ->
  In c comps ->
  exists group,
    In (sort_key c, group) (group_results results filter_type)
    /\ compare_group (sort_key c) group = Returns c.
Proof.
  intros H HIn. apply generate_comparisons_returns in H.
  destruct H as (cs & H & ->). apply (proj1 (sort_In _ _)) in HIn.
  destruct (Forall2_in_r _ _ _ H c HIn) as ([k group] & HIng & Hc).
  simpl in Hc. exists group.
  destruct (compare_group_fields _ _ _ Hc) as (Ho & Hh & _).
  assert (E : sort_key c = k).
  { destruct k; unfold sort_key; simpl in *; congruence. }
  rewrite E. auto.
Qed.

(** Every group has its comparison in the output. *)
Lemma generate_comparisons_group (results : list BenchmarkResult.t)
    (filter_type : string) (comps : list ComparisonResult.t)
    (k : key) (group : list BenchmarkResult.t) :
  generate_comparisons results filter_type = Returns comps ->
  In (k, group) (group_results results filter_type) ->
  exists c, In c comps /\ compare_group k group = Returns c.
Proof.
  intros H HIn. apply generate_comparisons_returns in H.
  destruct H as (cs & H & ->).
  destruct (Forall2_in_l _ _ _ H _ HIn) as (c & HInc & Hc).
  exists c. split; [now apply (proj2 (sort_In _ _)) | exact Hc].
Qed.

Lemma compare_groups_total (g : groups) :
  Forall (fun kg => Forall float_time (snd kg)) g ->
  exists cs, Forall2 (fun kg c => compare_group (fst kg) (snd kg) = Returns c) g cs.
Proof.
  induction 1 as [| [k group] g Hx Hg IH]; [exists []; constructor |].
  destruct IH as (cs & Hcs).
  destruct (compare_group_total k group Hx) as (c & Hc).
  exists (c :: cs). constructor; assumption.
Qed.

(** On records with float times the aggregator returns. *)
Lemma generate_comparisons_total (results : list BenchmarkResult.t)
    (filter_type : string) :
  Forall float_time results ->
  exists comps, generate_comparisons results filter_type = Returns comps.
Proof.
  intros Hf.
  destruct (compare_groups_total (group_results results filter_type)) as (cs & Hcs).
  - apply Forall_forall. intros [k group] HIn. simpl.
    apply group_results_In in HIn. destruct HIn as [-> _].
    apply Forall_forall. intros r Hr. apply members_In in Hr.
    rewrite Forall_forall in Hf. apply Hf, Hr.
  - exists (sort cs). apply generate_comparisons_returns. eauto.
Qed.

(** ** The claims *)

(** C1. The line [{"Name": 5}] is valid JSON with a Name that is not a
    string: [parse_json_benchmark] raises [AttributeError] on it, and so
    does [parse_benchmarks] on the input holding that line. *)
Theorem C1_non_string_name_raises :
  Json.loads (json_text "{'Name': 5}") = Returns (VDict [("Name", VInt 5)])
  /\ parse_json_benchmark (json_text "{'Name': 5}") = Raises AttributeError
  /\ parse_benchmarks [json_text "{'Name': 5}"] = Raises AttributeError.
Proof. repeat split; vm_compute; reflexivity. Qed.

(** A second line that makes the parser raise: the text pattern lets a time
    with two points through, and [float] rejects it with [ValueError]. *)
Lemma parse_text_benchmark_raises_ValueError :
  parse_text_benchmark "BenchmarkA/hivex/s-1 1 1.2.3 ns/op" = Raises ValueError
  /\ parse_benchmarks ["BenchmarkA/hivex/s-1 1 1.2.3 ns/op"] = Raises ValueError.
Proof. split; vm_compute; reflexivity. Qed.

(** C2. The line [{"Name": "XBenchmarkY/gohivex"}] parses to a record.
    Segment 0 of its Name, [XBenchmarkY], does not start with [Benchmark],
    yet the operation of the record is [XY]: the occurrence in the middle
    was removed. *)
Theorem C2_benchmark_removed_from_the_middle :
  exists r,
    parse_json_benchmark (json_text "{'Name': 'XBenchmarkY/gohivex'}")
    = Returns (Some r)
    /\ BenchmarkResult.name r = "XBenchmarkY/gohivex"
    /\ nth 0 (split "/" (BenchmarkResult.name r)) "" = "XBenchmarkY"
    /\ startswith "XBenchmarkY" "Benchmark" = false
    /\ BenchmarkResult.operation r = "XY".
Proof.
  eexists. split; [vm_compute; reflexivity |]. repeat split.
Qed.

(** C3. In every comparison the aggregator returns, the speedup is the hivex
    time divided by the gohivex time when both times compare greater than
    zero (for two floats, their IEEE quotient), and it is the float zero in
    every other case: a time that is zero, negative, not a number, or left
    at zero because the implementation has no record. *)
Theorem C3_speedup_ratio (results : list BenchmarkResult.t)
    (filter_type : string) (comps : list ComparisonResult.t)
    (c : ComparisonResult.t) :
  generate_comparisons results filter_type = Returns comps ->
  In c comps ->
  (gt_zero (ComparisonResult.gohivex_ns c) = Returns true ->
   gt_zero (ComparisonResult.hivex_ns c) = Returns true ->
   truediv (ComparisonResult.hivex_ns c) (ComparisonResult.gohivex_ns c)
   = Returns (ComparisonResult.speedup c))
  /\ (forall g h,
        ComparisonResult.gohivex_ns c = VFloat g ->
        ComparisonResult.hivex_ns c = VFloat h ->
        fltb fzero g = true -> fltb fzero h = true ->
        ComparisonResult.speedup c = VFloat (fdiv h g))
  /\ (~ (gt_zero (ComparisonResult.gohivex_ns c) = Returns true
         /\ gt_zero (ComparisonResult.hivex_ns c) = Returns true) ->
      ComparisonResult.speedup c = VFloat fzero).
Proof.
  intros H HIn.
  destruct (generate_comparisons_In _ _ _ _ H HIn) as (group & _ & Hc).
  destruct (compare_group_speedup _ _ _ Hc) as [Hpos Hzero].
  split; [exact Hpos |]. split; [| exact Hzero].
  intros g h Eg Eh Pg Ph. rewrite Eg, Eh in Hpos. simpl in Hpos.
  rewrite Pg, Ph in Hpos. specialize (Hpos eq_refl eq_refl).
  unfold truediv, float_truediv in Hpos. simpl in Hpos.
  rewrite (fltb_fzero_not_zero _ Pg) in Hpos. simpl in Hpos. congruence.
Qed.

Lemma C3_speedup_ratio_witness :
  generate_comparisons [scenario_1_record; scenario_2_record] "standard"
  = Returns [scenario_3_comparison]
  /\ ComparisonResult.speedup scenario_3_comparison
     = VFloat (fdiv float_150_2 float_120_5)
  /\ generate_comparisons [commit_record] "mutation" = Returns [commit_comparison]
  /\ ComparisonResult.speedup commit_comparison = VFloat fzero.
Proof.
  assert (H1 : generate_comparisons [scenario_1_record; scenario_2_record]
                 "standard" = Returns [scenario_3_comparison])
    by (vm_compute; reflexivity).
  assert (H2 : generate_comparisons [commit_record] "mutation"
               = Returns [commit_comparison])
    by (vm_compute; reflexivity).
  destruct (C3_speedup_ratio _ _ _ scenario_3_comparison H1 (or_introl eq_refl))
    as (_ & Hfloat & _).
  destruct (C3_speedup_ratio _ _ _ commit_comparison H2 (or_introl eq_refl))
    as (_ & _ & Hzero).
  split; [exact H1 |].
  split; [exact (Hfloat _ _ eq_refl eq_refl eq_refl eq_refl) |].
  split; [exact H2 |].
  apply Hzero. intros [Hg _]. discriminate Hg.
Defined.

(** C4. In every comparison the aggregator returns, [gohivex_only] is true
    exactly when the group of the comparison holds a gohivex record and no
    hivex record; and when the group holds no gohivex record the flag is
    false and the gohivex time, memory and allocation count are left at
    zero. *)
Theorem C4_gohivex_only (results : list BenchmarkResult.t)
    (filter_type : string) (comps : list ComparisonResult.t)
    (c : ComparisonResult.t) :
  generate_comparisons results filter_type = Returns comps ->
  In c comps ->
  exists group,
    In (sort_key c, group) (group_results results filter_type)
    /\ group = members filter_type results (sort_key c)
    /\ (ComparisonResult.gohivex_only c = true <->
        (exists r, In r group /\ BenchmarkResult.impl r = "gohivex")
        /\ ~ (exists r, In r group /\ BenchmarkResult.impl r = "hivex"))
    /\ (~ (exists r, In r group /\ BenchmarkResult.impl r = "gohivex") ->
        ComparisonResult.gohivex_only c = false
        /\ ComparisonResult.gohivex_ns c = VFloat fzero
        /\ ComparisonResult.gohivex_mem c = VInt 0
        /\ ComparisonResult.gohivex_allocs c = VInt 0).
Proof.
  intros H HIn.
  destruct (generate_comparisons_In _ _ _ _ H HIn) as (group & Hg & Hc).
  exists group. split; [assumption |].
  split; [apply group_results_In, Hg |].
  destruct (compare_group_fields _ _ _ Hc) as (_ & _ & Ho & Hgo & _).
  rewrite Ho, andb_true_iff, negb_true_iff, <- not_true_iff_false,
    !last_of_is_some.
  split; [reflexivity |].
  intros Hno. rewrite <- last_of_is_some in Hno.
  destruct (last_of "gohivex" group); simpl in *; [congruence | tauto].
Qed.

Lemma C4_gohivex_only_witness :
  generate_comparisons [commit_record] "mutation" = Returns [commit_comparison]
  /\ In commit_comparison [commit_comparison]
  /\ exists group,
       In (sort_key commit_comparison, group) (group_results [commit_record] "mutation")
       /\ group = members "mutation" [commit_record] (sort_key commit_comparison)
       /\ (ComparisonResult.gohivex_only commit_comparison = true <->
           (exists r, In r group /\ BenchmarkResult.impl r = "gohivex")
           /\ ~ (exists r, In r group /\ BenchmarkResult.impl r = "hivex"))
       /\ (~ (exists r, In r group /\ BenchmarkResult.impl r = "gohivex") ->
           ComparisonResult.gohivex_only commit_comparison = false
           /\ ComparisonResult.gohivex_ns commit_comparison = VFloat fzero
           /\ ComparisonResult.gohivex_mem commit_comparison = VInt 0
           /\ ComparisonResult.gohivex_allocs commit_comparison = VInt 0).
Proof.
  assert (H : generate_comparisons [commit_record] "mutation"
              = Returns [commit_comparison]) by (vm_compute; reflexivity).
  assert (HIn : In commit_comparison [commit_comparison]) by (left; reflexivity).
  split; [exact H |]. split; [exact HIn |].
  exact (C4_gohivex_only _ _ _ _ H HIn).
Defined.

(** C5. Of the two runs of the aggregator, 'standard' and 'mutation', exactly
    one includes a given record: the mutation run when the operation name cut
    at its first '/' is one of the six mutation operations, the standard run
    when it is not. The output of a run holds a comparison under the key of
    the record exactly when the run includes the record. *)
Theorem C5_category_partition (results : list BenchmarkResult.t)
    (r : BenchmarkResult.t) :
  In r results ->
  (included results "mutation" r <->
   In (nth 0 (split "/" (BenchmarkResult.operation r)) "") MUTATION_OPERATIONS)
  /\ (included results "standard" r <->
      ~ In (nth 0 (split "/" (BenchmarkResult.operation r)) "") MUTATION_OPERATIONS)
  /\ (included results "standard" r <-> ~ included results "mutation" r)
  /\ List.length MUTATION_OPERATIONS = 6%nat
  /\ NoDup MUTATION_OPERATIONS
  /\ (forall filter_type comps,
        generate_comparisons results filter_type = Returns comps ->
        ((exists c, In c comps /\ sort_key c = result_key r) <->
         included results filter_type r)).
Proof.
  intros HIn.
  assert (Hm : is_mutation r = true <->
               In (nth 0 (split "/" (BenchmarkResult.operation r)) "")
                 MUTATION_OPERATIONS).
  { unfold is_mutation, in_set, operation_base. rewrite existsb_exists. split.
    - intros (x & Hx & E). apply String.eqb_eq in E. now subst.
    - intros H. eexists. split; [exact H | apply String.eqb_refl]. }
  assert (Hout : forall filter_type comps,
             generate_comparisons results filter_type = Returns comps ->
             ((exists c, In c comps /\ sort_key c = result_key r) <->
              included results filter_type r)).
  { intros filter_type comps Hcomps. split.
    - intros (c & Hc & Ek).
      destruct (generate_comparisons_In _ _ _ _ Hcomps Hc) as (group & Hg & _).
      rewrite Ek in Hg. exists group. split; [exact Hg |].
      apply group_results_In in Hg. destruct Hg as [-> Hne].
      apply members_In. split; [exact HIn |]. split; [| reflexivity].
      destruct (members filter_type results (result_key r)) as [| r' rest] eqn:E;
        [congruence |].
      assert (Hr' : In r' (members filter_type results (result_key r)))
        by (rewrite E; left; reflexivity).
      apply members_In in Hr'. destruct Hr' as (_ & Hs & Hk).
      now rewrite <- (skipped_key filter_type r r' Hk).
    - intros (group & Hg & _).
      destruct (generate_comparisons_group _ _ _ _ _ Hcomps Hg) as (c & Hc & Hcg).
      exists c. split; [exact Hc |].
      destruct (compare_group_fields _ _ _ Hcg) as (Eo & Eh & _).
      unfold sort_key. rewrite Eo, Eh. reflexivity. }
  rewrite !(included_iff results _ r HIn), <- Hm.
  unfold skipped. simpl.
  assert (Hnd : NoDup MUTATION_OPERATIONS)
    by (repeat constructor; simpl; intuition discriminate).
  destruct (is_mutation r); simpl; intuition (try discriminate; try congruence).
Qed.

Lemma C5_category_partition_witness :
  In commit_record [commit_record; scenario_1_record]
  /\ included [commit_record; scenario_1_record] "mutation" commit_record
  /\ ~ included [commit_record; scenario_1_record] "standard" commit_record.
Proof.
  assert (HIn : In commit_record [commit_record; scenario_1_record])
    by (left; reflexivity).
  destruct (C5_category_partition [commit_record; scenario_1_record]
              commit_record HIn) as (Hm & Hs & Hx & _).
  split; [exact HIn |].
  assert (M : included [commit_record; scenario_1_record] "mutation" commit_record).
  { apply Hm. simpl. tauto. }
  split; [exact M |].
  intros S. apply Hx in S. exact (S M).
Defined.

(** C6. Whatever the records and the selector, the list the aggregator
    returns is in ascending order of operation name, and of size category
    among equal operation names: every comparison is below all those after
    it. *)
Theorem C6_output_sorted (results : list BenchmarkResult.t)
    (filter_type : string) (comps : list ComparisonResult.t) :
  generate_comparisons results filter_type = Returns comps ->
  StronglySorted comparison_le comps.
Proof.
  intros H. apply generate_comparisons_returns in H.
  destruct H as (cs & _ & ->). apply sort_sorted.
Qed.

Lemma C6_output_sorted_witness :
  generate_comparisons
    [scenario_1_record; commit_record; large_record; scenario_2_record] "standard"
  = Returns [large_comparison; scenario_3_comparison]
  /\ StronglySorted comparison_le [large_comparison; scenario_3_comparison].
Proof.
  assert (H : generate_comparisons
                [scenario_1_record; commit_record; large_record; scenario_2_record]
                "standard"
              = Returns [large_comparison; scenario_3_comparison])
    by (vm_compute; reflexivity).
  split; [exact H |].
  exact (C6_output_sorted _ _ _ H).
Defined.

(** C7. When the group of a key holds several records of one
    implementation, the comparison of that key carries the time, memory and
    allocation count of the last of them; and repeated records raise
    nothing: on records whose times are floats the aggregator returns. *)
Theorem C7_last_record_wins (results : list BenchmarkResult.t)
    (filter_type : string) (k : key) (before after : list BenchmarkResult.t)
    (r : BenchmarkResult.t) :
  In (k, (before ++ r :: after)%list) (group_results results filter_type) ->
  Forall (fun r' => BenchmarkResult.impl r' <> BenchmarkResult.impl r) after ->
  (forall comps,
     generate_comparisons results filter_type = Returns comps ->
     exists c,
       In c comps /\ sort_key c = k
       /\ (BenchmarkResult.impl r = "gohivex" ->
           ComparisonResult.gohivex_ns c = BenchmarkResult.ns_per_op r
           /\ ComparisonResult.gohivex_mem c = BenchmarkResult.bytes_per_op r
           /\ ComparisonResult.gohivex_allocs c = BenchmarkResult.allocs_per_op r)
       /\ (BenchmarkResult.impl r = "hivex" ->
           ComparisonResult.hivex_ns c = BenchmarkResult.ns_per_op r
           /\ ComparisonResult.hivex_mem c = BenchmarkResult.bytes_per_op r
           /\ ComparisonResult.hivex_allocs c = BenchmarkResult.allocs_per_op r))
  /\ (Forall float_time results ->
      exists comps, generate_comparisons results filter_type = Returns comps).
Proof.
  intros Hg Hafter. split; [| apply generate_comparisons_total].
  intros comps H.
  destruct (generate_comparisons_group _ _ _ _ _ H Hg) as (c & HIn & Hc).
  exists c. split; [assumption |].
  destruct (compare_group_fields _ _ _ Hc) as (Ho & Hh & _ & Hgo & Hhi).
  split; [destruct k; unfold sort_key; simpl in *; congruence |].
  split; intros E.
  - rewrite (last_of_split "gohivex" before after r E) in Hgo; [exact Hgo |].
    now rewrite <- E.
  - rewrite (last_of_split "hivex" before after r E) in Hhi; [exact Hhi |].
    now rewrite <- E.
Qed.

Lemma C7_last_record_wins_witness :
  In (("NodeGetChild", "medium"),
      ([scenario_1_record; scenario_2_record] ++ rerun_record :: [])%list)
    (group_results [scenario_1_record; scenario_2_record; rerun_record] "standard")
  /\ exists comps c,
       generate_comparisons [scenario_1_record; scenario_2_record; rerun_record]
         "standard" = Returns comps
       /\ In c comps
       /\ ComparisonResult.gohivex_ns c = VFloat float_150_2
       /\ ComparisonResult.gohivex_mem c = VInt 50
       /\ ComparisonResult.gohivex_allocs c = VInt 4.
Proof.
  assert (Hg : In (("NodeGetChild", "medium"),
                   ([scenario_1_record; scenario_2_record] ++ rerun_record :: [])%list)
                 (group_results [scenario_1_record; scenario_2_record; rerun_record]
                    "standard")) by (left; reflexivity).
  split; [exact Hg |].
  destruct (C7_last_record_wins _ _ _ _ _ _ Hg (Forall_nil _)) as [Hlast Htotal].
  destruct Htotal as (comps & Hcomps).
  { repeat constructor; eexists; reflexivity. }
  destruct (Hlast comps Hcomps) as (c & HIn & _ & Hgo & _).
  destruct (Hgo eq_refl) as (Hns & Hmem & Hallocs).
  exists comps, c. auto.
Defined.

(** C8. The line of scenario 2 parses to exactly one record: operation
    NodeGetChild, implementation hivex, size category medium, 150.2 ns per
    operation, 64 bytes and 3 allocations per operation. *)
Theorem C8_scenario_2_text_line :
  exists r,
    parse_benchmarks
      ["BenchmarkNodeGetChild/hivex/medium-8  900000  150.2 ns/op  64 B/op  3 allocs/op"]
    = Returns [r]
    /\ BenchmarkResult.operation r = "NodeGetChild"
    /\ BenchmarkResult.impl r = "hivex"
    /\ BenchmarkResult.hive_size r = "medium"
    /\ BenchmarkResult.ns_per_op r = VFloat float_150_2
    /\ BenchmarkResult.bytes_per_op r = VInt 64
    /\ BenchmarkResult.allocs_per_op r = VInt 3.
Proof.
  exists scenario_2_record. split; [vm_compute; reflexivity |]. repeat split.
Qed.






(** C10. A line that is a JSON object with a Name of two segments or more is
    not skipped: the parser returns a record and the line loop appends it;
    each of N, T, B and A that the object lacks is 0 in the record (0.0 for
    T). *)
Theorem C10_missing_keys_default (raw : string) (d : list (string * val))
    (name : string) (results : list BenchmarkResult.t) :
  startswith (strip raw) "{" = true ->
  Json.loads (strip raw) = Returns (VDict d) ->
  dict_lookup d "Name" = Some (VStr name) ->
  (2 <= List.length (split "/" name))%nat ->
  exists r,
    parse_json_benchmark (strip raw) = Returns (Some r)
    /\ parse_benchmarks_body results raw = Returns (results ++ [r])%list
    /\ (dict_lookup d "N" = None -> BenchmarkResult.iterations r = VInt 0)
    /\ (dict_lookup d "T" = None -> BenchmarkResult.ns_per_op r = VFloat fzero)
    /\ (dict_lookup d "B" = None -> BenchmarkResult.bytes_per_op r = VInt 0)
    /\ (dict_lookup d "A" = None -> BenchmarkResult.allocs_per_op r = VInt 0).
Proof.
  intros Hstart Hloads Hname Hlen.
  pose proof (parse_json_benchmark_dict _ _ _ Hloads Hname Hlen) as Hp.
  cbv zeta in Hp. eexists. split; [exact Hp |]. split.
  - unfold parse_benchmarks_body. cbv zeta.
    assert (Ht : truthy_str (strip raw) = true).
    { destruct (strip raw); [discriminate Hstart | reflexivity]. }
    rewrite Ht, Hstart, Hp. reflexivity.
  - unfold lookup_default. simpl.
    repeat split; intros E; rewrite E; reflexivity.
Qed.

Lemma C10_missing_keys_default_witness :
  Json.loads (strip (json_text " {'Name': 'BenchmarkOpen/gohivex'} "))
  = Returns (VDict [("Name", VStr "BenchmarkOpen/gohivex")])
  /\ exists r,
       parse_benchmarks_body [] (json_text " {'Name': 'BenchmarkOpen/gohivex'} ")
       = Returns [r]
       /\ BenchmarkResult.iterations r = VInt 0
       /\ BenchmarkResult.ns_per_op r = VFloat fzero
       /\ BenchmarkResult.bytes_per_op r = VInt 0
       /\ BenchmarkResult.allocs_per_op r = VInt 0.
Proof.
  assert (Hloads :
    Json.loads (strip (json_text " {'Name': 'BenchmarkOpen/gohivex'} "))
    = Returns (VDict [("Name", VStr "BenchmarkOpen/gohivex")]))
    by (vm_compute; reflexivity).
  split; [exact Hloads |].
  destruct (C10_missing_keys_default
              (json_text " {'Name': 'BenchmarkOpen/gohivex'} ")
              _ "BenchmarkOpen/gohivex" [] eq_refl Hloads eq_refl)
    as (r & _ & Hbody & HN & HT & HB & HA).
  - simpl. lia.
  - exists r. split; [exact Hbody |].
    split; [exact (HN eq_refl) |]. split; [exact (HT eq_refl) |].
    split; [exact (HB eq_refl) | exact (HA eq_refl)].
Defined.

(** ** The matcher against the declarative reading *)

Lemma plus_greedy_span {A : Type} (p : ascii -> bool) (k : string -> option A)
    (s : string) (x : A) :
  Re.plus_greedy p k s = Some x -> exists s', plus_span p s s' /\ k s' = Some x.
Proof.
  induction s as [| c s IH]; simpl; [discriminate |].
  destruct (p c) eqn:Pc; [| discriminate].
  destruct (Re.plus_greedy p k s) as [y |].
  - intros E. destruct (IH E) as (s' & Hs' & Hk).
    exists s'. split; [now apply span_more | exact Hk].
  - intros E. exists s. split; [now apply span_one | exact E].
Qed.

Lemma plus_lazy_span {A : Type} (p : ascii -> bool) (k : string -> option A)
    (s : string) (x : A) :
  Re.plus_lazy p k s = Some x -> exists s', plus_span p s s' /\ k s' = Some x.
Proof.
  induction s as [| c s IH]; simpl; [discriminate |].
  destruct (p c) eqn:Pc; [| discriminate].
  destruct (k s) as [y |] eqn:E.
  - intros H. exists s. split; [now apply span_one | congruence].
  - intros H. destruct (IH H) as (s' & Hs' & Hk).
    exists s'. split; [now apply span_more | exact Hk].
Qed.

(** Whatever the backtracking matcher hands to its continuation is a match
    in the declarative reading. *)
Lemma run_matches (r : Re.regex) :
  forall (s : string) (g : Re.groups) (k : string -> Re.groups -> option Re.groups)
         (x : Re.groups),
    Re.run r s g k = Some x ->
    exists s' g', matches r s g s' g' /\ k s' g' = Some x.
Proof.
  induction r as [l | p | p | r1 IH1 r2 IH2 | r1 IH1 r2 IH2 | r1 IH1 | n r1 IH1];
    intros s g k x; simpl.
  - destruct (String.prefix l s) eqn:E; [| discriminate].
    intros H. exists (drop (String.length l) s), g.
    split; [now constructor | exact H].
  - intros H. apply plus_greedy_span in H. destruct H as (s' & Hs & H).
    exists s', g. split; [now constructor | exact H].
  - intros H. apply plus_lazy_span in H. destruct H as (s' & Hs & H).
    exists s', g. split; [now constructor | exact H].
  - intros H. apply IH1 in H. destruct H as (s1 & g1 & M1 & H).
    apply IH2 in H. destruct H as (s2 & g2 & M2 & H).
    exists s2, g2. split; [econstructor; eauto | exact H].
  - destruct (Re.run r1 s g k) as [y |] eqn:E.
    + intros H. inversion H; subst y. apply IH1 in E.
      destruct E as (s1 & g1 & M1 & H1).
      exists s1, g1. split; [now apply matches_alt_l | exact H1].
    + intros H. apply IH2 in H. destruct H as (s2 & g2 & M2 & H2).
      exists s2, g2. split; [now apply matches_alt_r | exact H2].
  - destruct (Re.run r1 s g k) as [y |] eqn:E.
    + intros H. inversion H; subst y. apply IH1 in E.
      destruct E as (s1 & g1 & M1 & H1).
      exists s1, g1. split; [now apply matches_opt_some | exact H1].
    + intros H. exists s, g. split; [apply matches_opt_none | exact H].
  - intros H. apply IH1 in H. destruct H as (s1 & g1 & M1 & H).
    exists s1, (Re.set_group n (Re.consumed s s1) g1).
    split; [now constructor | exact H].
Qed.

Lemma take_app (w s : string) : Re.take (String.length w) (w ++ s) = w.
Proof. induction w as [| c w IH]; simpl; [now destruct s | now rewrite IH]. Qed.

Lemma length_append (w s : string) :
  String.length (w ++ s) = (String.length w + String.length s)%nat.
Proof. induction w as [| c w IH]; simpl; [reflexivity | now rewrite IH]. Qed.

(** What is consumed in front of a suffix is the text in front of it. *)
Lemma consumed_app (w s : string) : Re.consumed (w ++ s) s = w.
Proof.
  unfold Re.consumed. rewrite length_append.
  replace (String.length w + String.length s - String.length s)%nat
    with (String.length w) by lia.
  apply take_app.
Qed.

Lemma plus_span_app (p : ascii -> bool) (s s' : string) :
  plus_span p s s' ->
  exists w, s = w ++ s' /\ w <> "" /\ all_chars p w = true.
Proof.
  induction 1 as [c s Pc | c s s' Pc Hs (w & -> & Hw & Hp)].
  - exists (String c ""). simpl. rewrite Pc.
    split; [reflexivity | split; [discriminate | reflexivity]].
  - exists (String c w). simpl. rewrite Pc, Hp.
    split; [reflexivity | split; [discriminate | reflexivity]].
Qed.

Lemma prefix_app (l s : string) :
  String.prefix l s = true -> s = l ++ drop (String.length l) s.
Proof.
  revert s. induction l as [| c l IH]; intros s.
  - now destruct s.
  - destruct s as [| c' s]; simpl; [intros H; discriminate H |].
    destruct (Ascii.ascii_dec c c') as [<- | N]; [| intros H; discriminate H].
    intros H. f_equal. now apply IH.
Qed.

Lemma app_prefix (l s : string) : String.prefix l (l ++ s) = true.
Proof.
  induction l as [| c l IH]; simpl; [now destruct s |].
  destruct (Ascii.ascii_dec c c); [exact IH | congruence].
Qed.

Lemma matches_seq_inv (r1 r2 : Re.regex) (s s2 : string) (g g2 : Re.groups) :
  matches (Re.Seq r1 r2) s g s2 g2 ->
  exists s1 g1, matches r1 s g s1 g1 /\ matches r2 s1 g1 s2 g2.
Proof. intros H. inversion H; subst. eauto. Qed.

Lemma matches_lit_inv (l s s' : string) (g g' : Re.groups) :
  matches (Re.Lit l) s g s' g' -> s = l ++ s' /\ g' = g.
Proof.
  intros H. inversion H; subst. split; [now apply prefix_app | reflexivity].
Qed.

Lemma matches_plus_inv (p : ascii -> bool) (s s' : string) (g g' : Re.groups) :
  matches (Re.Plus p) s g s' g' ->
  exists w, s = w ++ s' /\ w <> "" /\ all_chars p w = true /\ g' = g.
Proof.
  intros H. inversion H; subst.
  match goal with S : plus_span _ _ _ |- _ =>
    destruct (plus_span_app _ _ _ S) as (w & E & Hw & Hp) end.
  eauto.
Qed.

Lemma matches_plus_lazy_inv (p : ascii -> bool) (s s' : string) (g g' : Re.groups) :
  matches (Re.PlusLazy p) s g s' g' ->
  exists w, s = w ++ s' /\ w <> "" /\ all_chars p w = true /\ g' = g.
Proof.
  intros H. inversion H; subst.
  match goal with S : plus_span _ _ _ |- _ =>
    destruct (plus_span_app _ _ _ S) as (w & E & Hw & Hp) end.
  eauto.
Qed.

Lemma matches_group_plus_inv (i : nat) (p : ascii -> bool) (s s' : string)
    (g g' : Re.groups) :
  matches (Re.Group i (Re.Plus p)) s g s' g' ->
  exists w, s = w ++ s' /\ w <> "" /\ all_chars p w = true
            /\ g' = Re.set_group i w g.
Proof.
  intros H. inversion H; subst.
  match goal with M : matches (Re.Plus p) _ _ _ _ |- _ =>
    apply matches_plus_inv in M; destruct M as (w & -> & Hw & Hp & ->) end.
  exists w. rewrite consumed_app. auto.
Qed.

Lemma matches_group_plus_lazy_inv (i : nat) (p : ascii -> bool) (s s' : string)
    (g g' : Re.groups) :
  matches (Re.Group i (Re.PlusLazy p)) s g s' g' ->
  exists w, s = w ++ s' /\ w <> "" /\ all_chars p w = true
            /\ g' = Re.set_group i w g.
Proof.
  intros H. inversion H; subst.
  match goal with M : matches (Re.PlusLazy p) _ _ _ _ |- _ =>
    apply matches_plus_lazy_inv in M; destruct M as (w & -> & Hw & Hp & ->) end.
  exists w. rewrite consumed_app. auto.
Qed.

Lemma matches_group_alt_lit_inv (i : nat) (a b s s' : string) (g g' : Re.groups) :
  matches (Re.Group i (Re.Alt (Re.Lit a) (Re.Lit b))) s g s' g' ->
  exists w, (w = a \/ w = b) /\ s = w ++ s' /\ g' = Re.set_group i w g.
Proof.
  intros H. inversion H; subst.
  match goal with M : matches (Re.Alt _ _) _ _ _ _ |- _ => inversion M; subst end;
    match goal with M : matches (Re.Lit _) _ _ _ _ |- _ =>
      apply matches_lit_inv in M; destruct M as (E & ->) end;
    [exists a | exists b]; rewrite E at 2; rewrite consumed_app; auto.
Qed.

Lemma matches_opt_inv (r : Re.regex) (s s' : string) (g g' : Re.groups) :
  matches (Re.Opt r) s g s' g' ->
  matches r s g s' g' \/ (s' = s /\ g' = g).
Proof. intros H. inversion H; subst; auto. Qed.

(** The optional tail of the pattern, [(?:\s+(\d+)\s+unit)?]: the group is
    a run of digits when the tail takes part, and untouched when not. *)
Lemma matches_unit_inv (i : nat) (unit s s' : string) (g g' : Re.groups) :
  matches (Re.Opt (Re.cat [ Re.Plus Re.space; Re.Group i (Re.Plus Re.digit);
                            Re.Plus Re.space; Re.Lit unit ])) s g s' g' ->
  (exists w, w <> "" /\ all_chars Re.digit w = true /\ g' = Re.set_group i w g)
  \/ (s' = s /\ g' = g).
Proof.
  intros H. apply matches_opt_inv in H. destruct H as [H | H]; [left | now right].
  cbv [Re.cat fold_right] in H.
  apply matches_seq_inv in H. destruct H as (s1 & g1 & H1 & H).
  apply matches_plus_inv in H1. destruct H1 as (_ & _ & _ & _ & ->).
  apply matches_seq_inv in H. destruct H as (s2 & g2 & H2 & H).
  apply matches_group_plus_inv in H2. destruct H2 as (w & _ & Hw & Hp & ->).
  apply matches_seq_inv in H. destruct H as (s3 & g3 & H3 & H).
  apply matches_plus_inv in H3. destruct H3 as (_ & _ & _ & _ & ->).
  apply matches_seq_inv in H. destruct H as (s4 & g4 & H4 & H).
  apply matches_lit_inv in H4. destruct H4 as (_ & ->).
  apply matches_lit_inv in H. destruct H as (_ & ->).
  eauto.
Qed.

(** What a match of the text pattern holds: the line starts with
    [Benchmark<operation>/<impl>/<size>], the operation and the size are
    non-empty runs of word characters, the implementation is one of the two
    tags, the iteration count is a run of digits, the time a run of digits
    and points, and each optional group, when set, is non-empty. *)
Lemma pattern_match (line : string) (m : Re.groups) :
  Re.match_ 8 pattern line = Some m ->
  exists operation impl hive_size variant iterations ns_per_op bytes_per_op
         allocs_per_op rest,
    m = [ Some operation; Some impl; Some hive_size; variant;
          Some iterations; Some ns_per_op; bytes_per_op; allocs_per_op ]
    /\ line = "Benchmark" ++ operation ++ "/" ++ impl ++ "/" ++ hive_size ++ rest
    /\ (operation <> "" /\ all_chars Re.word operation = true)
    /\ (impl = "gohivex" \/ impl = "hivex")
    /\ (hive_size <> "" /\ all_chars Re.word hive_size = true)
    /\ (iterations <> "" /\ all_chars Re.digit iterations = true)
    /\ (ns_per_op <> "" /\ all_chars Re.digit_or_dot ns_per_op = true)
    /\ (forall v, variant = Some v -> v <> "" /\ all_chars Re.dot v = true)
    /\ (forall b, bytes_per_op = Some b -> b <> "" /\ all_chars Re.digit b = true)
    /\ (forall a, allocs_per_op = Some a -> a <> "" /\ all_chars Re.digit a = true).
Proof.
  unfold Re.match_. intros H. apply run_matches in H.
  destruct H as (s' & g' & H & E). inversion E; subst g'. clear E.
  cbv [pattern Re.cat fold_right] in H.
  apply matches_seq_inv in H. destruct H as (s1 & g1 & H1 & H).
  apply matches_lit_inv in H1. destruct H1 as (-> & ->).
  apply matches_seq_inv in H. destruct H as (s2 & g2 & H2 & H).
  apply matches_group_plus_inv in H2. destruct H2 as (op & -> & Hop & Pop & ->).
  apply matches_seq_inv in H. destruct H as (s3 & g3 & H3 & H).
  apply matches_lit_inv in H3. destruct H3 as (-> & ->).
  apply matches_seq_inv in H. destruct H as (s4 & g4 & H4 & H).
  apply matches_group_alt_lit_inv in H4. destruct H4 as (impl & Himpl & -> & ->).
  apply matches_seq_inv in H. destruct H as (s5 & g5 & H5 & H).
  apply matches_lit_inv in H5. destruct H5 as (-> & ->).
  apply matches_seq_inv in H. destruct H as (s6 & g6 & H6 & H).
  apply matches_group_plus_inv in H6. destruct H6 as (size & -> & Hsize & Psize & ->).
  apply matches_seq_inv in H. destruct H as (s7 & g7 & H7 & H).
  assert (Hvar : exists variant,
             g7 = [Some op; Some impl; Some size; variant; None; None; None; None]
             /\ forall v, variant = Some v -> v <> "" /\ all_chars Re.dot v = true).
  { apply matches_opt_inv in H7. destruct H7 as [H7 | [_ ->]].
    - apply matches_seq_inv in H7. destruct H7 as (t1 & h1 & L & G).
      apply matches_lit_inv in L. destruct L as (_ & ->).
      apply matches_group_plus_lazy_inv in G. destruct G as (v & _ & Hv & Pv & ->).
      exists (Some v). split; [reflexivity |].
      intros v' E. inversion E; subst. auto.
    - exists None. split; [reflexivity | discriminate]. }
  destruct Hvar as (variant & -> & Hvariant). clear H7.
  apply matches_seq_inv in H. destruct H as (s8 & g8 & H8 & H).
  apply matches_lit_inv in H8. destruct H8 as (_ & ->).
  apply matches_seq_inv in H. destruct H as (s9 & g9 & H9 & H).
  apply matches_plus_inv in H9. destruct H9 as (_ & _ & _ & _ & ->).
  apply matches_seq_inv in H. destruct H as (s10 & g10 & H10 & H).
  apply matches_plus_inv in H10. destruct H10 as (_ & _ & _ & _ & ->).
  apply matches_seq_inv in H. destruct H as (s11 & g11 & H11 & H).
  apply matches_group_plus_inv in H11.
  destruct H11 as (iters & _ & Hiters & Piters & ->).
  apply matches_seq_inv in H. destruct H as (s12 & g12 & H12 & H).
  apply matches_plus_inv in H12. destruct H12 as (_ & _ & _ & _ & ->).
  apply matches_seq_inv in H. destruct H as (s13 & g13 & H13 & H).
  apply matches_group_plus_inv in H13. destruct H13 as (ns & _ & Hns & Pns & ->).
  apply matches_seq_inv in H. destruct H as (s14 & g14 & H14 & H).
  apply matches_plus_inv in H14. destruct H14 as (_ & _ & _ & _ & ->).
  apply matches_seq_inv in H. destruct H as (s15 & g15 & H15 & H).
  apply matches_lit_inv in H15. destruct H15 as (_ & ->).
  apply matches_seq_inv in H. destruct H as (s16 & g16 & H16 & H).
  apply matches_seq_inv in H. destruct H as (s17 & g17 & H17 & H).
  apply matches_lit_inv in H. destruct H as (_ & ->).
  cbn [Re.set_group Re.set_nth] in *.
  apply matches_unit_inv in H16. apply matches_unit_inv in H17.
  exists op, impl, size, variant, iters, ns.
  destruct H16 as [(b & Hb & Pb & ->) | (_ & ->)];
    destruct H17 as [(a & Ha & Pa & ->) | (_ & ->)];
    cbn [Re.set_group Re.set_nth];
    [ exists (Some b), (Some a) | exists (Some b), None
    | exists None, (Some a) | exists None, None ];
    exists s6; (split; [reflexivity |]);
    (split; [reflexivity |]);
    repeat (split; [solve [auto] |]);
    split; intros x E; inversion E; subst; auto.
Qed.

(** ** Records of the text parser *)

Lemma digits_val_nonneg (s : string) (acc : Z) :
  0 <= acc -> all_chars Re.digit s = true -> 0 <= digits_val acc s.
Proof.
  revert acc. induction s as [| c s IH]; cbn [digits_val all_chars];
    intros acc Hacc H; [exact Hacc |].
  apply andb_true_iff in H. destruct H as [Hc Hs].
  apply IH; [| exact Hs].
  unfold Re.digit, isdecimal in Hc. cbv zeta in Hc. unfold digit_val.
  apply andb_true_iff in Hc. destruct Hc as [H1 H2].
  apply N.leb_le in H1.
  assert (48 <= Z.of_N (N_of_ascii c)) by (change 48 with (Z.of_N 48); lia).
  lia.
Qed.

Lemma all_chars_decimal (s : string) :
  all_chars Re.digit s = all_decimal s.
Proof. induction s as [| c s IH]; simpl; [reflexivity | now rewrite IH]. Qed.

(** [int] of a non-empty run of digits is a natural number. *)
Lemma int_of_str_digits (s : string) :
  s <> "" -> all_chars Re.digit s = true ->
  exists n, int_of_str s = Returns n /\ 0 <= n.
Proof.
  intros Hs Hd. unfold int_of_str. destruct s as [| c s]; [congruence |].
  rewrite <- all_chars_decimal, Hd. eexists. split; [reflexivity |].
  apply digits_val_nonneg; [lia | exact Hd].
Qed.

Lemma int_or_zero_digits (g : option string) :
  (forall b, g = Some b -> b <> "" /\ all_chars Re.digit b = true) ->
  exists n, int_or_zero g = Returns (VInt n) /\ 0 <= n.
Proof.
  intros H. destruct g as [[| c s] |]; cbn [int_or_zero].
  - exists 0. split; [reflexivity | lia].
  - destruct (H _ eq_refl) as [Hne Hd].
    destruct (int_of_str_digits _ Hne Hd) as (n & -> & Hn).
    exists n. split; [reflexivity | exact Hn].
  - exists 0. split; [reflexivity | lia].
Qed.

(** A record of the text parser, field by field. *)
Lemma parse_text_benchmark_some (line : string) (r : BenchmarkResult.t) :
  parse_text_benchmark line = Returns (Some r) ->
  exists operation variant rest n f b a,
    line = "Benchmark" ++ operation ++ "/" ++ BenchmarkResult.impl r ++ "/"
           ++ BenchmarkResult.hive_size r ++ rest
    /\ (operation <> "" /\ all_chars Re.word operation = true)
    /\ (BenchmarkResult.impl r = "gohivex" \/ BenchmarkResult.impl r = "hivex")
    /\ (BenchmarkResult.hive_size r <> ""
        /\ all_chars Re.word (BenchmarkResult.hive_size r) = true)
    /\ (variant = "" \/ all_chars Re.dot variant = true)
    /\ BenchmarkResult.name r
       = "Benchmark" ++ operation ++ "/" ++ BenchmarkResult.impl r ++ "/"
         ++ BenchmarkResult.hive_size r ++ "/" ++ variant
    /\ BenchmarkResult.operation r
       = (if truthy_str variant then operation ++ "/" ++ variant else operation)
    /\ (BenchmarkResult.iterations r = VInt n /\ 0 <= n)
    /\ BenchmarkResult.ns_per_op r = VFloat f
    /\ (BenchmarkResult.bytes_per_op r = VInt b /\ 0 <= b)
    /\ (BenchmarkResult.allocs_per_op r = VInt a /\ 0 <= a).
Proof.
  unfold parse_text_benchmark.
  destruct (Re.match_ 8 pattern line) as [m |] eqn:M; [| intros H; discriminate H].
  apply pattern_match in M.
  destruct M as (operation & impl & hive_size & variant & iterations & ns_per_op
                 & bytes_per_op & allocs_per_op & rest & -> & Hline & Hop & Himpl
                 & Hsize & Hit & Hns & Hvar & Hb & Ha).
  destruct (int_of_str_digits _ (proj1 Hit) (proj2 Hit)) as (n & -> & Hn).
  cbn [bind].
  destruct (float_of_str ns_per_op) as [f | e]; cbn [bind];
    [| intros H; discriminate H].
  destruct (int_or_zero_digits _ Hb) as (b & -> & Hb').
  destruct (int_or_zero_digits _ Ha) as (a & -> & Ha').
  cbn [bind]. intros H. inversion H; subst r; clear H. cbn.
  exists operation, (match variant with Some v => v | None => "" end), rest,
    n, f, b, a.
  repeat (split; [solve [auto] |]).
  split.
  { destruct variant as [v |]; [right; exact (proj2 (Hvar v eq_refl)) | now left]. }
  repeat (split; [solve [auto] |]). auto.
Qed.

(** ** The line loop *)

Lemma parse_benchmarks_body_app (results : list BenchmarkResult.t) (line : string) :
  parse_benchmarks_body results line =
  (rs <- parse_benchmarks_body [] line ;; Returns (results ++ rs)%list).
Proof.
  unfold parse_benchmarks_body. cbv zeta.
  destruct (negb (truthy_str (strip line))); cbn [bind];
    [now rewrite app_nil_r |].
  destruct (if startswith (strip line) "{"
            then parse_json_benchmark (strip line) else Returns None)
    as [[r |] | e]; cbn [bind]; try reflexivity.
  destruct (parse_text_benchmark (strip line)) as [[r |] | e]; cbn [bind];
    try reflexivity.
  now rewrite app_nil_r.
Qed.

Lemma parse_benchmarks_acc (lines : list string) (acc : list BenchmarkResult.t) :
  fold_left (fun acc line => results <- acc ;; parse_benchmarks_body results line)
    lines (Returns acc) =
  (rs <- parse_benchmarks lines ;; Returns (acc ++ rs)%list).
Proof.
  unfold parse_benchmarks. revert acc.
  induction lines as [| line lines IH]; intros acc; cbn [fold_left bind].
  - now rewrite app_nil_r.
  - rewrite (parse_benchmarks_body_app acc line).
    destruct (parse_benchmarks_body [] line) as [rs1 | e]; cbn [bind].
    + rewrite (IH (acc ++ rs1)%list), (IH rs1).
      destruct (fold_left _ lines (Returns [])) as [rs | e]; cbn [bind];
        [now rewrite app_assoc | reflexivity].
    + rewrite !fold_left_raises by reflexivity. reflexivity.
Qed.

Lemma parse_benchmarks_cons (line : string) (lines : list string) :
  parse_benchmarks (line :: lines) =
  (r1 <- parse_benchmarks_body [] line ;;
   r2 <- parse_benchmarks lines ;; Returns (r1 ++ r2)%list).
Proof.
  unfold parse_benchmarks at 1. cbn [fold_left bind].
  destruct (parse_benchmarks_body [] line) as [rs1 | e]; cbn [bind].
  - apply parse_benchmarks_acc.
  - now rewrite fold_left_raises by reflexivity.
Qed.

(** One line gives no record or one. *)
Lemma parse_benchmarks_body_one (line : string) (rs : list BenchmarkResult.t) :
  parse_benchmarks_body [] line = Returns rs ->
  rs = []
  \/ exists r, rs = [r]
       /\ ((startswith (strip line) "{" = true
            /\ parse_json_benchmark (strip line) = Returns (Some r))
           \/ parse_text_benchmark (strip line) = Returns (Some r)).
Proof.
  unfold parse_benchmarks_body. cbv zeta.
  destruct (negb (truthy_str (strip line))); [intros H; inversion H; now left |].
  destruct (startswith (strip line) "{") eqn:Hs.
  - destruct (parse_json_benchmark (strip line)) as [[r |] | e] eqn:Hj; cbn [bind].
    + intros H. inversion H; subst. right. exists r. split; [reflexivity |].
      left. auto.
    + destruct (parse_text_benchmark (strip line)) as [[r |] | e] eqn:Ht;
        cbn [bind]; intros H; inversion H; subst; [right | now left].
      exists r. auto.
    + intros H. discriminate H.
  - cbn [bind].
    destruct (parse_text_benchmark (strip line)) as [[r |] | e] eqn:Ht;
      cbn [bind]; intros H; inversion H; subst; [right | now left].
    exists r. auto.
Qed.

(** Every record of the output comes from a line of the input, and there
    are no more records than lines. *)
Lemma parse_benchmarks_from_lines (lines : list string)
    (results : list BenchmarkResult.t) :
  parse_benchmarks lines = Returns results ->
  (List.length results <= List.length lines)%nat
  /\ forall r, In r results ->
       exists line, In line lines /\ parse_benchmarks_body [] line = Returns [r].
Proof.
  revert results. induction lines as [| line lines IH]; intros results.
  - intros H. inversion H; subst. split; [simpl; lia | intros r []].
  - rewrite parse_benchmarks_cons. intros H.
    apply bind_returns in H. destruct H as (r1 & H1 & H).
    apply bind_returns in H. destruct H as (r2 & H2 & H).
    inversion H; subst results; clear H.
    destruct (IH _ H2) as [Hlen Hfrom].
    destruct (parse_benchmarks_body_one _ _ H1) as [-> | (r & -> & _)].
    + split; [simpl; lia |]. intros r Hr. simpl in Hr.
      destruct (Hfrom r Hr) as (l & Hl & Hp). exists l. split; [now right | exact Hp].
    + split; [simpl; lia |]. intros r' [<- | Hr].
      * exists line. split; [now left | exact H1].
      * destruct (Hfrom r' Hr) as (l & Hl & Hp).
        exists l. split; [now right | exact Hp].
Qed.

(** The text parser wants the line to start with [Benchmark]. *)
Lemma parse_text_benchmark_prefix (line : string) :
  String.prefix "Benchmark" line = false ->
  parse_text_benchmark line = Returns None.
Proof.
  intros H. unfold parse_text_benchmark, Re.match_, pattern, Re.cat.
  cbn [fold_right Re.run]. rewrite H. reflexivity.
Qed.

Lemma startswith_brace (line : string) :
  startswith line "{" = true -> String.prefix "Benchmark" line = false.
Proof.
  unfold startswith. intros H. apply prefix_app in H. rewrite H. reflexivity.
Qed.

(** ** int to float *)

Lemma shr_1_digits (s : shr_record) :
  0 <= shr_m s ->
  0 <= shr_m (shr_1 s)
  /\ Zdigits2 (shr_m (shr_1 s)) = Z.max 0 (Zdigits2 (shr_m s) - 1).
Proof.
  destruct s as [m r t]. cbn [shr_m]. intros Hm.
  destruct m as [| p | p]; [cbn; lia | | lia].
  destruct p; cbn [shr_1 shr_m Zdigits2 digits2_pos]; lia.
Qed.

Lemma iter_shr_1_digits (p : positive) :
  forall s : shr_record,
    0 <= shr_m s ->
    0 <= shr_m (iter_pos shr_1 p s)
    /\ Zdigits2 (shr_m (iter_pos shr_1 p s))
       = Z.max 0 (Zdigits2 (shr_m s) - Z.pos p).
Proof.
  induction p as [p IH | p IH |]; intros s Hs; cbn [iter_pos].
  - destruct (shr_1_digits s Hs) as [H1 D1].
    destruct (IH _ H1) as [H2 D2]. destruct (IH _ H2) as [H3 D3].
    split; [exact H3 |]. rewrite D3, D2, D1. lia.
  - destruct (IH _ Hs) as [H2 D2]. destruct (IH _ H2) as [H3 D3].
    split; [exact H3 |]. rewrite D3, D2. lia.
  - exact (shr_1_digits s Hs).
Qed.

Lemma Zdigits2_pos (m : Z) : 0 <= m -> (0 < Zdigits2 m <-> 0 < m).
Proof. destruct m; simpl; lia. Qed.

Lemma shr_record_of_loc_m (m : Z) (l : location) :
  shr_m (shr_record_of_loc m l) = m.
Proof. destruct l as [| []]; reflexivity. Qed.

(** Shifting a positive mantissa into the format leaves it positive, as long
    as the exponent is not below the least one. *)
Lemma shr_fexp_positive (m e : Z) (l : location) :
  0 < m -> emin prec emax <= e ->
  0 < shr_m (fst (shr_fexp prec emax m e l))
  /\ emin prec emax <= snd (shr_fexp prec emax m e l).
Proof.
  intros Hm He. unfold shr_fexp, shr.
  pose proof (proj2 (Zdigits2_pos m (Z.lt_le_incl _ _ Hm)) Hm) as Hd.
  destruct (fexp prec emax (Zdigits2 m + e) - e) as [| p | p] eqn:En; simpl;
    try (rewrite shr_record_of_loc_m; split; assumption).
  destruct (iter_shr_1_digits p (shr_record_of_loc m l)) as [H0 D].
  { rewrite shr_record_of_loc_m. lia. }
  rewrite shr_record_of_loc_m in D.
  unfold fexp, emin, prec, emax in *.
  split.
  - apply Zdigits2_pos; [exact H0 |]. rewrite D. lia.
  - lia.
Qed.

Lemma round_nearest_even_positive (m : Z) (l : location) :
  0 < m -> 0 < round_nearest_even m l.
Proof.
  intros Hm. destruct l as [| []]; simpl; try lia.
  destruct (Z.even m); lia.
Qed.

(** Rounding a positive mantissa gives a finite float or an infinity, not a
    zero. *)
Lemma binary_round_aux_not_zero (sx : bool) (mx ex : Z) (lx : location) :
  0 < mx -> emin prec emax <= ex ->
  is_fzero (binary_round_aux prec emax sx mx ex lx) = false.
Proof.
  intros Hm He. unfold binary_round_aux.
  destruct (shr_fexp_positive mx ex lx Hm He) as [H1 E1].
  destruct (shr_fexp prec emax mx ex lx) as [mrs' e']. simpl in H1, E1.
  pose proof (round_nearest_even_positive (shr_m mrs') (loc_of_shr_record mrs') H1)
    as H2.
  destruct (shr_fexp_positive _ e' loc_Exact H2 E1) as [H3 E3].
  destruct (shr_fexp prec emax _ e' loc_Exact) as [mrs'' e'']. simpl in H3.
  destruct (shr_m mrs''); try lia.
  destruct (e'' <=? emax - prec); reflexivity.
Qed.

(** A positive int converts to a float that is not zero. *)
Lemma float_of_int_positive (n : Z) (f : float) :
  0 < n -> float_of_int n = Returns f -> is_fzero f = false.
Proof.
  intros Hn. unfold float_of_int.
  assert (Hz : is_fzero (binary_normalize prec emax n 0 false) = false).
  { destruct n as [| p |]; try lia. unfold binary_normalize, binary_round.
    assert (He : emin prec emax
                 <= snd (shl_align p 0 (fexp prec emax (Z.pos (digits2_pos p) + 0)))).
    { unfold shl_align.
      destruct (fexp prec emax (Z.pos (digits2_pos p) + 0) - 0) eqn:E; simpl;
        unfold fexp, emin, prec, emax in *; lia. }
    destruct (shl_align p 0 _) as [mz ez]. simpl in He.
    apply binary_round_aux_not_zero; [lia | exact He]. }
  destruct (binary_normalize prec emax n 0 false); intros H; inversion H; subst;
    exact Hz.
Qed.

(** ** Segments *)

Lemma split_nonempty (sep : ascii) (s : string) : split sep s <> [].
Proof.
  destruct s as [| c s]; simpl; [discriminate |].
  destruct (Ascii.eqb c sep); [discriminate |].
  destruct (split sep s); discriminate.
Qed.

(** A text without separator is its own single segment. *)
Lemma split_free (sep : ascii) (a : string) :
  free_of sep a = true -> split sep a = [a].
Proof.
  unfold free_of. induction a as [| c a IH]; simpl; [reflexivity |].
  intros H. apply andb_true_iff in H. destruct H as [Hc Ha].
  apply negb_true_iff in Hc. rewrite Hc, (IH Ha). reflexivity.
Qed.

(** The first separator ends the first segment. *)
Lemma split_app (sep : ascii) (a b : string) :
  free_of sep a = true ->
  split sep (a ++ String sep b) = a :: split sep b.
Proof.
  unfold free_of. induction a as [| c a IH]; simpl.
  - intros _. now rewrite Ascii.eqb_refl.
  - intros H. apply andb_true_iff in H. destruct H as [Hc Ha].
    apply negb_true_iff in Hc. rewrite Hc, (IH Ha). reflexivity.
Qed.

(** No segment holds the separator. *)
Lemma split_segments_free (sep : ascii) (s : string) :
  Forall (fun p => free_of sep p = true) (split sep s).
Proof.
  unfold free_of. induction s as [| c s IH]; simpl.
  - repeat constructor.
  - destruct (Ascii.eqb c sep) eqn:E.
    + constructor; [reflexivity | exact IH].
    + destruct (split sep s) as [| p ps]; [repeat constructor; simpl; now rewrite E |].
      inversion IH; subst. constructor; [simpl; rewrite E; simpl; assumption | assumption].
Qed.

(** The number of segments is one more than the number of separators. *)
Lemma split_length_free (sep : ascii) (s : string) :
  (2 <= List.length (split sep s))%nat <-> free_of sep s = false.
Proof.
  unfold free_of. induction s as [| c s IH]; simpl.
  - split; [lia | discriminate].
  - destruct (Ascii.eqb c sep) eqn:E; simpl.
    + pose proof (split_nonempty sep s).
      destruct (split sep s); [congruence | split; [reflexivity | simpl; lia]].
    + destruct (split sep s) as [| p ps] eqn:Es; simpl in *; [| exact IH].
      exfalso. exact (split_nonempty sep s Es).
Qed.

Lemma free_of_drop (c : ascii) (n : nat) (s : string) :
  free_of c s = true -> free_of c (drop n s) = true.
Proof.
  unfold free_of. revert s. induction n as [| n IH]; intros [| x s]; simpl; auto.
  intros H. apply andb_true_iff in H. now apply IH.
Qed.

(** Removing a text adds no character. *)
Lemma free_of_replace1 (c : ascii) (old s : string) :
  free_of c s = true -> free_of c (replace1 old "" s) = true.
Proof.
  induction s as [| x s IH]; intros H; cbn [replace1].
  - destruct (String.prefix old ""); [| exact H].
    cbn [append]. now apply free_of_drop.
  - destruct (String.prefix old (String x s)).
    + cbn [append]. now apply free_of_drop.
    + unfold free_of in *. simpl in *.
      apply andb_true_iff in H. destruct H as [Hx Hs].
      rewrite Hx. simpl. now apply IH.
Qed.

(** The operation cut at its first slash: the name in front of a variant. *)
Lemma operation_base_variant (operation variant : string) :
  free_of "/" operation = true ->
  nth 0 (split "/" (if truthy_str variant then operation ++ "/" ++ variant
                    else operation)) "" = operation.
Proof.
  intros H. destruct (truthy_str variant).
  - change (operation ++ "/" ++ variant) with (operation ++ String "/" variant).
    now rewrite split_app.
  - now rewrite split_free.
Qed.

Lemma word_free_of_slash (s : string) :
  all_chars Re.word s = true -> free_of "/" s = true.
Proof.
  unfold free_of. induction s as [| c s IH]; simpl; [reflexivity |].
  intros H. apply andb_true_iff in H. destruct H as [Hc Hs].
  rewrite (IH Hs), andb_true_r.
  destruct (Ascii.eqb_spec c "/") as [-> | N]; [discriminate Hc | reflexivity].
Qed.

(** ** The structured parser, read backwards *)

Lemma try_except_returns {A : Type} (m : outcome A) (caught : list exn)
    (a b : A) :
  try_except m caught (Returns b) = Returns a ->
  m = Returns a \/ (exists e, m = Raises e /\ a = b).
Proof.
  unfold try_except. destruct m as [x | e]; [intros H; now left |].
  destruct (existsb (exn_eqb e) caught); intros H; [| discriminate H].
  inversion H; subst. right. eauto.
Qed.

(** A record of the structured parser comes from an object whose [Name] is
    a str with a slash in it. *)
Lemma parse_json_benchmark_some (line : string) (r : BenchmarkResult.t) :
  parse_json_benchmark line = Returns (Some r) ->
  exists d name,
    Json.loads line = Returns (VDict d)
    /\ lookup_default d "Name" (VStr "") = VStr name
    /\ (2 <= List.length (split "/" name))%nat
    /\ let parts := split "/" name in
       let operation := replace1 "Benchmark" "" (nth 0 parts "") in
       let variant := if (4 <=? List.length parts)%nat then nth 3 parts "" else "" in
       r = {|
         BenchmarkResult.name := name;
         BenchmarkResult.operation :=
           if truthy_str variant then operation ++ "/" ++ variant else operation;
         BenchmarkResult.hive_size :=
           if (3 <=? List.length parts)%nat then nth 2 parts "" else "";
         BenchmarkResult.impl := nth 1 parts "";
         BenchmarkResult.iterations := lookup_default d "N" (VInt 0);
         BenchmarkResult.ns_per_op := lookup_default d "T" (VFloat fzero);
         BenchmarkResult.bytes_per_op := lookup_default d "B" (VInt 0);
         BenchmarkResult.allocs_per_op := lookup_default d "A" (VInt 0) |}.
Proof.
  unfold parse_json_benchmark. intros H.
  apply try_except_returns in H. destruct H as [H | (e & _ & H)]; [| discriminate H].
  unfold parse_json_benchmark_try in H.
  destruct (Json.loads line) as [data |] eqn:Hloads; [| discriminate H].
  cbn [bind] in H.
  destruct data as [| | | | | | d]; try discriminate H.
  exists d. unfold get in H at 1. unfold lookup_default.
  destruct (match dict_lookup d "Name" with Some v => v | None => VStr "" end)
    as [| | | | name | |] eqn:Hname;
    destruct (dict_lookup d "Name") as [v |]; subst; cbn [bind] in H;
    try discriminate H; try discriminate Hname.
  exists name. split; [reflexivity |]. split; [reflexivity |].
  destruct (Nat.ltb_spec (List.length (split "/" name)) 2) as [Hlt | Hge];
    [discriminate H |].
  split; [exact Hge |]. cbv zeta. unfold get in H.
  destruct (dict_lookup d "N"), (dict_lookup d "T"), (dict_lookup d "B"),
      (dict_lookup d "A"); cbn [bind] in H; inversion H; reflexivity.
Qed.

Lemma free_of_app (c : ascii) (a b : string) :
  free_of c (a ++ b) = free_of c a && free_of c b.
Proof.
  unfold free_of. induction a as [| x a IH]; simpl; [reflexivity |].
  rewrite IH. now rewrite andb_assoc.
Qed.

(** A name of slash-free parts splits into them. *)
Lemma split_benchmark_name (operation impl hive_size variant : string) :
  free_of "/" operation = true -> free_of "/" impl = true ->
  free_of "/" hive_size = true -> free_of "/" variant = true ->
  split "/" ("Benchmark" ++ operation ++ "/" ++ impl ++ "/" ++ hive_size ++ "/"
             ++ variant)
  = ["Benchmark" ++ operation; impl; hive_size; variant]
  /\ split "/" ("Benchmark" ++ operation ++ "/" ++ impl ++ "/" ++ hive_size)
     = ["Benchmark" ++ operation; impl; hive_size].
Proof.
  intros Ho Hi Hs Hv.
  assert (Hb : free_of "/" ("Benchmark" ++ operation) = true).
  { rewrite free_of_app, Ho. reflexivity. }
  split.
  - change ("Benchmark" ++ operation ++ "/" ++ impl ++ "/" ++ hive_size ++ "/"
            ++ variant)
      with (("Benchmark" ++ operation)
            ++ String "/" (impl ++ String "/" (hive_size ++ String "/" variant))).
    rewrite (split_app _ _ _ Hb), (split_app _ _ _ Hi), (split_app _ _ _ Hs),
      (split_free _ _ Hv).
    reflexivity.
  - change ("Benchmark" ++ operation ++ "/" ++ impl ++ "/" ++ hive_size)
      with (("Benchmark" ++ operation) ++ String "/" (impl ++ String "/" hive_size)).
    rewrite (split_app _ _ _ Hb), (split_app _ _ _ Hi), (split_free _ _ Hs).
    reflexivity.
Qed.

Lemma replace1_Benchmark (operation : string) :
  replace1 "Benchmark" "" ("Benchmark" ++ operation) = operation.
Proof. rewrite replace1_prefix; [reflexivity | apply app_prefix]. Qed.

(** What the structured parser makes of a name of slash-free parts, with its
    variant segment there (empty or not) or missing. *)
Lemma parse_json_benchmark_name (line : string) (d : list (string * val))
    (name operation impl hive_size variant : string) :
  Json.loads line = Returns (VDict d) ->
  dict_lookup d "Name" = Some (VStr name) ->
  free_of "/" operation = true -> free_of "/" impl = true ->
  free_of "/" hive_size = true -> free_of "/" variant = true ->
  name = "Benchmark" ++ operation ++ "/" ++ impl ++ "/" ++ hive_size ++ "/" ++ variant
  \/ (name = "Benchmark" ++ operation ++ "/" ++ impl ++ "/" ++ hive_size
      /\ variant = "") ->
  parse_json_benchmark line =
  Returns (Some {|
    BenchmarkResult.name := name;
    BenchmarkResult.operation :=
      if truthy_str variant then operation ++ "/" ++ variant else operation;
    BenchmarkResult.hive_size := hive_size;
    BenchmarkResult.impl := impl;
    BenchmarkResult.iterations := lookup_default d "N" (VInt 0);
    BenchmarkResult.ns_per_op := lookup_default d "T" (VFloat fzero);
    BenchmarkResult.bytes_per_op := lookup_default d "B" (VInt 0);
    BenchmarkResult.allocs_per_op := lookup_default d "A" (VInt 0) |}).
Proof.
  intros Hloads Hname Ho Hi Hs Hv Hshape.
  destruct (split_benchmark_name operation impl hive_size variant Ho Hi Hs Hv)
    as [H4 H3].
  destruct Hshape as [-> | [-> ->]].
  - rewrite (parse_json_benchmark_dict line d _ Hloads Hname);
      rewrite H4; [| simpl; lia].
    cbn [List.length Nat.leb nth]. rewrite replace1_Benchmark. reflexivity.
  - rewrite (parse_json_benchmark_dict line d _ Hloads Hname);
      rewrite H3; [| simpl; lia].
    cbn [List.length Nat.leb nth truthy_str]. rewrite replace1_Benchmark.
    reflexivity.
Qed.

Lemma append_nil_r (s : string) : s ++ "" = s.
Proof. induction s as [| c s IH]; simpl; [reflexivity | now rewrite IH]. Qed.

(** The base name of a record of either parser is the first segment of its
    name without the leftmost [Benchmark]. *)
Lemma operation_base_json (line : string) (r : BenchmarkResult.t) :
  parse_json_benchmark line = Returns (Some r) ->
  operation_base r
  = replace1 "Benchmark" "" (nth 0 (split "/" (BenchmarkResult.name r)) "").
Proof.
  intros H. destruct (parse_json_benchmark_some _ _ H)
    as (d & name & _ & _ & Hlen & Hr).
  cbv zeta in Hr. subst r. unfold operation_base.
  cbn [BenchmarkResult.operation BenchmarkResult.name].
  apply operation_base_variant. apply free_of_replace1.
  pose proof (split_segments_free "/" name) as Hfree.
  destruct (split "/" name) as [| p ps]; [simpl in Hlen; lia |].
  inversion Hfree; subst. assumption.
Qed.

Lemma operation_base_text (line : string) (r : BenchmarkResult.t) :
  parse_text_benchmark line = Returns (Some r) ->
  operation_base r
  = replace1 "Benchmark" "" (nth 0 (split "/" (BenchmarkResult.name r)) "").
Proof.
  intros H.
  destruct (parse_text_benchmark_some _ _ H)
    as (operation & variant & rest & n & f & b & a & _ & [_ Hop] & _ & _
        & _ & Hname & Hoperation & _).
  apply word_free_of_slash in Hop.
  assert (Hb : free_of "/" ("Benchmark" ++ operation) = true).
  { rewrite free_of_app, Hop. reflexivity. }
  rewrite Hname.
  change ("Benchmark" ++ operation ++ "/" ++ BenchmarkResult.impl r ++ "/"
          ++ BenchmarkResult.hive_size r ++ "/" ++ variant)
    with (("Benchmark" ++ operation)
          ++ String "/" (BenchmarkResult.impl r ++ "/"
                         ++ BenchmarkResult.hive_size r ++ "/" ++ variant)).
  rewrite (split_app _ _ _ Hb). cbn [nth]. rewrite replace1_Benchmark.
  unfold operation_base. rewrite Hoperation.
  exact (operation_base_variant _ _ Hop).
Qed.

(** ** More on the aggregator *)

Lemma compare_groups_keys (g : groups) (cs : list ComparisonResult.t) :
  Forall2 (fun kg c => compare_group (fst kg) (snd kg) = Returns c) g cs ->
  map sort_key cs = map fst g.
Proof.
  induction 1 as [| [k group] c g cs Hc H IH]; [reflexivity |].
  simpl in *. rewrite IH. f_equal.
  destruct (compare_group_fields _ _ _ Hc) as (Ho & Hh & _).
  unfold sort_key. rewrite Ho, Hh. now destruct k.
Qed.

Lemma groups_append_length (g : groups) (k : key) (r : BenchmarkResult.t) :
  (List.length (groups_append g k r) <= S (List.length g))%nat.
Proof.
  induction g as [| [k' grp] g IH]; simpl; [lia |].
  destruct (key_eqb k k'); simpl; lia.
Qed.

Lemma group_results_length (results : list BenchmarkResult.t) (filter_type : string) :
  (List.length (group_results results filter_type) <= List.length results)%nat.
Proof.
  induction results as [| r results IH] using rev_ind; [simpl; lia |].
  rewrite group_results_snoc, length_app. simpl.
  destruct (skipped filter_type r); [lia |].
  pose proof (groups_append_length (group_results results filter_type)
                (result_key r) r). lia.
Qed.

(** [x / y] gives a float when it gives anything. *)
Lemma truediv_float (x y v : val) :
  truediv x y = Returns v -> exists f, v = VFloat f.
Proof.
  unfold truediv. intros H.
  apply bind_returns in H. destruct H as (a & _ & H).
  apply bind_returns in H. destruct H as (b & _ & H).
  destruct a, b;
    repeat (apply bind_returns in H; destruct H as (? & _ & H));
    inversion H; eauto.
Qed.

Lemma compare_group_speedup_float (k : key) (group : list BenchmarkResult.t)
    (c : ComparisonResult.t) :
  compare_group k group = Returns c ->
  exists f, ComparisonResult.speedup c = VFloat f.
Proof.
  unfold compare_group. rewrite find_impls_last.
  set (comp := if _ : bool then _ else _).
  assert (Hs : ComparisonResult.speedup comp = VFloat fzero).
  { subst comp.
    destruct (last_of "gohivex" group), (last_of "hivex" group); reflexivity. }
  intros H.
  apply bind_returns in H. destruct H as (gpos & _ & H).
  apply bind_returns in H. destruct H as (both & _ & H).
  destruct both.
  - apply bind_returns in H. destruct H as (ratio & Hr & H).
    inversion H; subst c. simpl. eapply truediv_float; eauto.
  - inversion H; subst c. eauto.
Qed.

Lemma gt_zero_raises (x : val) (e : exn) : gt_zero x = Raises e -> e = TypeError.
Proof. destruct x; simpl; congruence. Qed.

Lemma float_of_int_raises (n : Z) (e : exn) :
  float_of_int n = Raises e -> e = OverflowError.
Proof.
  unfold float_of_int. destruct (binary_normalize prec emax n 0 false); congruence.
Qed.

Lemma as_number_positive (x : val) :
  gt_zero x = Returns true ->
  (exists n, as_number x = Returns (NInt n) /\ 0 < n)
  \/ (exists f, as_number x = Returns (NFloat f) /\ is_fzero f = false).
Proof.
  destruct x as [| b | n | f | | |]; simpl; intros H; try discriminate H.
  - inversion H; subst b. left. exists 1. split; [reflexivity | lia].
  - inversion H as [P]. apply Z.ltb_lt in P. left. eauto.
  - inversion H as [P]. right. exists f.
    split; [reflexivity | now apply fltb_fzero_not_zero].
Qed.

Lemma as_number_of_gt_zero (x : val) (b : bool) :
  gt_zero x = Returns b -> exists a, as_number x = Returns a.
Proof. destruct x; simpl; intros H; try discriminate H; eauto. Qed.

Lemma int_truediv_raises (m n : Z) (e : exn) :
  0 < n -> int_truediv m n = Raises e -> e = OverflowError.
Proof.
  intros Hn. unfold int_truediv. destruct n; try lia.
  destruct m; [intros H; discriminate H | |];
    destruct (SFdiv _ _ _ _); congruence.
Qed.

(** Dividing by a value that compared greater than zero raises nothing but
    [OverflowError]: the divisor is a number and it is not zero. *)
Lemma truediv_raises (x y : val) (b : bool) (e : exn) :
  gt_zero x = Returns true -> gt_zero y = Returns b ->
  truediv y x = Raises e -> e = OverflowError.
Proof.
  intros Hx Hy. unfold truediv.
  destruct (as_number_of_gt_zero _ _ Hy) as (a & ->). cbn [bind].
  destruct (as_number_positive _ Hx) as [(n & -> & Hn) | (f & -> & Hf)];
    cbn [bind]; destruct a as [m | g].
  - destruct (int_truediv m n) as [q | e'] eqn:E; cbn [bind];
      [intros H; discriminate H |].
    intros H. inversion H; subst. eapply int_truediv_raises; eauto.
  - destruct (float_of_int n) as [fn | e'] eqn:E; cbn [bind].
    + unfold float_truediv. rewrite (float_of_int_positive _ _ Hn E). cbn [bind].
      intros H; discriminate H.
    + intros H. inversion H; subst. eapply float_of_int_raises; eauto.
  - destruct (float_of_int m) as [fm | e'] eqn:E; cbn [bind].
    + unfold float_truediv. rewrite Hf. cbn [bind]. intros H; discriminate H.
    + intros H. inversion H; subst. eapply float_of_int_raises; eauto.
  - unfold float_truediv. rewrite Hf. cbn [bind]. intros H; discriminate H.
Qed.

(** The loop body raises nothing but [TypeError], from a time that is not a
    number, and [OverflowError], from an int or a quotient beyond the
    floats. *)
Lemma compare_group_raises (k : key) (group : list BenchmarkResult.t) (e : exn) :
  compare_group k group = Raises e -> e = TypeError \/ e = OverflowError.
Proof.
  unfold compare_group. rewrite find_impls_last.
  set (comp := if _ : bool then _ else _).
  destruct (gt_zero (ComparisonResult.gohivex_ns comp)) as [gpos | e1] eqn:Eg;
    cbn [bind].
  2:{ intros H. inversion H; subst. left. eapply gt_zero_raises; eauto. }
  destruct gpos; cbn [bind].
  - destruct (gt_zero (ComparisonResult.hivex_ns comp)) as [hpos | e2] eqn:Eh;
      cbn [bind].
    2:{ intros H. inversion H; subst. left. eapply gt_zero_raises; eauto. }
    destruct hpos; [| intros H; discriminate H].
    destruct (truediv _ _) as [ratio | e3] eqn:Et; cbn [bind];
      [intros H; discriminate H |].
    intros H. inversion H; subst e3. right.
    exact (truediv_raises _ _ _ _ Eg Eh Et).
  - intros H; discriminate H.
Qed.

Lemma compare_groups_raises (g : groups) (acc : list ComparisonResult.t) (e : exn) :
  fold_left
    (fun acc '(k, group) =>
       comparisons <- acc ;;
       comp <- compare_group k group ;;
       Returns (comparisons ++ [comp])%list)
    g (Returns acc) = Raises e ->
  exists k group, In (k, group) g /\ compare_group k group = Raises e.
Proof.
  revert acc. induction g as [| [k group] g IH]; intros acc; cbn [fold_left bind].
  - intros H; discriminate H.
  - destruct (compare_group k group) as [c | e'] eqn:E; cbn [bind].
    + intros H. destruct (IH _ H) as (k' & group' & HIn & Hc).
      exists k', group'. split; [now right | exact Hc].
    + rewrite fold_left_raises by (intros [? ?]; reflexivity).
      intros H. inversion H; subst. exists k, group. split; [now left | exact E].
Qed.

Lemma generate_comparisons_raises_group (results : list BenchmarkResult.t)
    (filter_type : string) (e : exn) :
  generate_comparisons results filter_type = Raises e ->
  exists k group,
    In (k, group) (group_results results filter_type)
    /\ compare_group k group = Raises e.
Proof.
  unfold generate_comparisons, compare_groups.
  destruct (fold_left _ (group_results results filter_type) (Returns []))
    as [cs | e'] eqn:E; cbn [bind]; [intros H; discriminate H |].
  intros H. inversion H; subst. exact (compare_groups_raises _ _ _ E).
Qed.

(** A comparison marked [gohivex_only] has the hivex fields [__init__]
    gave it. *)
Lemma gohivex_only_fields (k : key) (group : list BenchmarkResult.t)
    (c : ComparisonResult.t) :
  compare_group k group = Returns c ->
  ComparisonResult.gohivex_only c = true ->
  ComparisonResult.hivex_ns c = VFloat fzero
  /\ ComparisonResult.hivex_mem c = VInt 0
  /\ ComparisonResult.hivex_allocs c = VInt 0.
Proof.
  intros Hcmp Honly.
  destruct (compare_group_fields _ _ _ Hcmp) as (_ & _ & Ho & _ & Hh).
  rewrite Honly in Ho.
  destruct (last_of "hivex" group) as [h |]; [| exact Hh].
  destruct (is_some (last_of "gohivex" group)); discriminate Ho.
Qed.

Lemma generate_comparisons_length (results : list BenchmarkResult.t)
    (filter_type : string) (comps : list ComparisonResult.t) :
  generate_comparisons results filter_type = Returns comps ->
  (List.length comps <= List.length results)%nat.
Proof.
  intros H. apply generate_comparisons_returns in H.
  destruct H as (cs & Hcs & ->).
  rewrite (Permutation_length (sort_perm cs)).
  rewrite <- (Forall2_length Hcs). apply group_results_length.
Qed.

(** ** int to float: no overflow below 2^1023 *)

Lemma digits2_pos_succ (p : positive) :
  (digits2_pos (Pos.succ p) <= digits2_pos p + 1)%positive.
Proof. induction p as [p IH | p IH |]; cbn [Pos.succ digits2_pos]; lia. Qed.

Lemma Zdigits2_succ (m : Z) : 0 <= m -> Zdigits2 (m + 1) <= Zdigits2 m + 1.
Proof.
  intros Hm. destruct m as [| p | p]; [cbn; lia | | lia].
  replace (Z.pos p + 1) with (Z.pos (Pos.succ p)) by lia.
  cbn [Zdigits2]. pose proof (digits2_pos_succ p). lia.
Qed.

Lemma round_nearest_even_digits (m : Z) (l : location) :
  0 <= m -> Zdigits2 (round_nearest_even m l) <= Zdigits2 m + 1.
Proof.
  intros Hm. pose proof (Zdigits2_succ m Hm).
  destruct l as [| []]; simpl; try lia.
  destruct (Z.even m); lia.
Qed.

Lemma digits2_pos_shift (d p : positive) :
  Z.pos (digits2_pos (shift_pos d p)) = Z.pos (digits2_pos p) + Z.pos d.
Proof.
  unfold shift_pos. revert p.
  induction d as [d IH | d IH |]; intros p; cbn [Pos.iter digits2_pos].
  - rewrite Pos2Z.inj_succ, !IH. lia.
  - rewrite !IH. lia.
  - lia.
Qed.

Lemma digits2_pos_size (p : positive) : digits2_pos p = Pos.size p.
Proof. induction p as [p IH | p IH |]; simpl; congruence. Qed.

Lemma Zdigits2_bound (n k : Z) : 0 <= n < 2 ^ k -> 0 <= k -> Zdigits2 n <= k.
Proof.
  intros [Hn Hlt] Hk. destruct n as [| p | p]; [exact Hk | | lia].
  cbn [Zdigits2]. rewrite digits2_pos_size.
  pose proof (Pos.size_le p) as Hle.
  apply Pos2Z.pos_le_pos in Hle. rewrite Pos2Z.inj_pow in Hle.
  change (Z.pos p~0) with (2 * Z.pos p) in Hle.
  assert (Hp : 2 ^ Z.pos (Pos.size p) < 2 ^ (k + 1)).
  { replace (k + 1) with (Z.succ k) by lia.
    rewrite Z.pow_succ_r by exact Hk. lia. }
  apply Z.pow_lt_mono_r_iff in Hp; lia.
Qed.

(** Shifting into the format: where the exponent and the magnitude (digits
    plus exponent) end up. *)
Lemma shr_fexp_bounds (m e : Z) (l : location) (B : Z) :
  0 <= m -> Zdigits2 m + e <= B -> 0 <= B ->
  0 <= shr_m (fst (shr_fexp prec emax m e l))
  /\ snd (shr_fexp prec emax m e l) <= Z.max e (B - prec)
  /\ Zdigits2 (shr_m (fst (shr_fexp prec emax m e l)))
     + snd (shr_fexp prec emax m e l) <= B.
Proof.
  intros Hm HB H0. unfold shr_fexp, shr.
  destruct (fexp prec emax (Zdigits2 m + e) - e) as [| p | p] eqn:En; simpl;
    try (rewrite shr_record_of_loc_m; split; [exact Hm | split; lia]).
  destruct (iter_shr_1_digits p (shr_record_of_loc m l)) as [Hpos D].
  { rewrite shr_record_of_loc_m. exact Hm. }
  rewrite shr_record_of_loc_m in D.
  unfold fexp, emin, prec, emax in *.
  split; [exact Hpos |]. rewrite D. split; lia.
Qed.

Lemma round_nearest_even_nonneg (m : Z) (l : location) :
  0 <= m -> 0 <= round_nearest_even m l.
Proof.
  intros Hm. destruct l as [| []]; simpl; try lia.
  destruct (Z.even m); lia.
Qed.

(** Rounding does not overflow while the magnitude stays below [emax]. *)
Lemma binary_round_aux_finite (sx : bool) (mx ex : Z) (lx : location) :
  0 <= mx -> ex <= 0 -> Zdigits2 mx + ex <= emax - 1 ->
  forall s, binary_round_aux prec emax sx mx ex lx <> S754_infinity s.
Proof.
  intros Hm He HB s. unfold binary_round_aux.
  destruct (shr_fexp_bounds mx ex lx (emax - 1) Hm HB) as (H1 & E1 & D1);
    [unfold emax; lia |].
  destruct (shr_fexp prec emax mx ex lx) as [mrs' e']. cbn [fst snd] in H1, E1, D1.
  pose proof (round_nearest_even_nonneg _ (loc_of_shr_record mrs') H1) as H2.
  pose proof (round_nearest_even_digits _ (loc_of_shr_record mrs') H1) as D2.
  destruct (shr_fexp_bounds (round_nearest_even (shr_m mrs') (loc_of_shr_record mrs'))
              e' loc_Exact emax H2) as (H3 & E3 & _);
    [lia | unfold emax; lia |].
  destruct (shr_fexp prec emax _ e' loc_Exact) as [mrs'' e'']. cbn [fst snd] in H3, E3.
  destruct (shr_m mrs''); try discriminate.
  destruct (Z.leb_spec e'' (emax - prec)); [discriminate |].
  unfold emax, prec in *. lia.
Qed.

(** [float(n)] returns for an int below 2^1023 that is not negative. *)
Lemma float_of_int_returns (n : Z) :
  0 <= n < 2 ^ 1023 -> exists f, float_of_int n = Returns f.
Proof.
  intros Hn. unfold float_of_int.
  assert (Hfin : forall s, binary_normalize prec emax n 0 false <> S754_infinity s).
  { intros s. destruct n as [| p | p]; [discriminate | | lia].
    unfold binary_normalize, binary_round.
    pose proof (Zdigits2_bound (Z.pos p) 1023 Hn ltac:(lia)) as Hd.
    cbn [Zdigits2] in Hd.
    unfold shl_align.
    destruct (fexp prec emax (Z.pos (digits2_pos p) + 0) - 0) as [| d | d] eqn:E.
    - apply binary_round_aux_finite; [lia | lia |].
      cbn [Zdigits2]. unfold emax. lia.
    - apply binary_round_aux_finite; [lia | lia |].
      cbn [Zdigits2]. unfold emax. lia.
    - apply binary_round_aux_finite; [lia | |].
      + unfold fexp, emin, prec, emax in *. lia.
      + cbn [Zdigits2]. change (PosDef.Pos.iter xO p d) with (shift_pos d p).
        rewrite digits2_pos_shift.
        unfold fexp, emin, prec, emax in *. lia. }
  destruct (binary_normalize prec emax n 0 false); eauto.
  exfalso. exact (Hfin _ eq_refl).
Qed.

(** ** The chart *)

Lemma for_each_length {A B : Type} (f : A -> outcome B) (ys : list A)
    (bs : list B) :
  for_each f ys = Returns bs -> List.length bs = List.length ys.
Proof.
  revert bs. induction ys as [| y ys IH]; intros bs H.
  - inversion H. reflexivity.
  - cbn [for_each] in H. apply bind_returns in H. destruct H as (b & _ & H).
    apply bind_returns in H. destruct H as (bs' & Hbs & H).
    inversion H; subst. simpl. now rewrite (IH _ Hbs).
Qed.

Lemma for_each_returns {A B : Type} (f : A -> outcome B) (ys : list A) :
  Forall (fun y => exists b, f y = Returns b) ys ->
  exists bs, for_each f ys = Returns bs.
Proof.
  induction 1 as [| y ys [b Hb] _ [bs Hbs]]; [now exists [] |].
  exists (b :: bs). cbn [for_each]. rewrite Hb. cbn [bind]. rewrite Hbs.
  reflexivity.
Qed.

Lemma range_length (n : nat) : List.length (range n) = n.
Proof. unfold range. now rewrite length_map, length_seq. Qed.

Lemma range_bounds (n : nat) (y : Z) : In y (range n) -> 0 <= y < Z.of_nat n.
Proof.
  unfold range. rewrite in_map_iff. intros (i & <- & Hi).
  apply in_seq in Hi. lia.
Qed.

(** What a chart holds, when [bar_chart] returns one. *)
Lemma bar_chart_fields (comparisons : list ComparisonResult.t)
    (title subtitle : string) (gohivex_values hivex_values : list val)
    (output_path : path) (chart : BarChart.t) :
  bar_chart comparisons title subtitle gohivex_values hivex_values output_path
  = Returns chart ->
  BarChart.gohivex_values chart = gohivex_values
  /\ BarChart.hivex_values chart = hivex_values
  /\ BarChart.yticklabels chart = map ComparisonResult.label comparisons
  /\ BarChart.yticks chart = range (List.length comparisons)
  /\ List.length (BarChart.gohivex_y chart) = List.length comparisons
  /\ List.length (BarChart.hivex_y chart) = List.length comparisons
  /\ BarChart.title chart = title ++ String "010" subtitle
  /\ BarChart.output_path chart = output_path.
Proof.
  unfold bar_chart. intros H.
  apply bind_returns in H. destruct H as (scaled & _ & H).
  apply bind_returns in H. destruct H as (upper & Hu & H).
  apply bind_returns in H. destruct H as (lower & Hl & H).
  inversion H; subst chart; clear H. cbn.
  apply for_each_length in Hu. apply for_each_length in Hl.
  rewrite range_length, length_map in Hu, Hl.
  rewrite length_map. repeat split; assumption.
Qed.

(** [bar_chart] returns for every list Python can hold: [len] stays below
    2^63. *)
Lemma bar_chart_returns (comparisons : list ComparisonResult.t)
    (title subtitle : string) (gohivex_values hivex_values : list val)
    (output_path : path) :
  Z.of_nat (List.length comparisons) < 2 ^ 63 ->
  exists chart,
    bar_chart comparisons title subtitle gohivex_values hivex_values output_path
    = Returns chart.
Proof.
  intros Hlen. unfold bar_chart, int_mul_float.
  assert (Hbig : 2 ^ 63 < 2 ^ 1023) by (apply Z.pow_lt_mono_r; lia).
  destruct (float_of_int_returns (Z.of_nat (List.length comparisons)))
    as [f Hf]; [lia |].
  rewrite Hf. cbn [bind].
  assert (Hhalf : exists half, float_div_int float_0_35 2 = Returns half)
    by (eexists; vm_compute; reflexivity).
  destruct Hhalf as [half Hhalf].
  assert (Hy : forall y, In y (range (List.length (map ComparisonResult.label comparisons))) ->
                 exists g, float_of_int y = Returns g).
  { intros y Hin. apply range_bounds in Hin. rewrite length_map in Hin.
    apply float_of_int_returns. lia. }
  destruct (for_each_returns
              (fun y => half <- float_div_int float_0_35 2 ;; int_sub_float y half)
              (range (List.length (map ComparisonResult.label comparisons))))
    as [upper Hu].
  { apply Forall_forall. intros y Hin. destruct (Hy y Hin) as [g Hg].
    rewrite Hhalf. unfold int_sub_float. cbn [bind]. rewrite Hg. cbn [bind]. eauto. }
  destruct (for_each_returns
              (fun y => half <- float_div_int float_0_35 2 ;; int_add_float y half)
              (range (List.length (map ComparisonResult.label comparisons))))
    as [lower Hl].
  { apply Forall_forall. intros y Hin. destruct (Hy y Hin) as [g Hg].
    rewrite Hhalf. unfold int_add_float. cbn [bind]. rewrite Hg. cbn [bind]. eauto. }
  rewrite Hu. cbn [bind]. rewrite Hl. cbn [bind]. eauto.
Qed.

(** Up to 32 rows the figure keeps its least height, the int 8. *)
Lemma max_8_small (n : nat) (scaled : float) :
  (n <= 32)%nat ->
  int_mul_float (Z.of_nat n) float_0_25 = Returns scaled ->
  max_8 scaled = VInt 8.
Proof.
  intros Hn.
  assert (Hall : forallb (fun i =>
                   match int_mul_float (Z.of_nat i) float_0_25 with
                   | Returns s => match max_8 s with VInt 8 => true | _ => false end
                   | Raises _ => false
                   end) (seq 0 33) = true)
    by (vm_compute; reflexivity).
  rewrite forallb_forall in Hall. specialize (Hall n).
  intros H. rewrite H in Hall.
  assert (Hin : In n (seq 0 33)) by (apply in_seq; lia).
  specialize (Hall Hin).
  destruct (max_8 scaled) as [| | z | | | |]; try discriminate Hall.
  destruct z as [| p |]; try discriminate Hall.
  repeat (destruct p as [p | p |]; try discriminate Hall). reflexivity.
Qed.

Lemma bar_chart_figsize (comparisons : list ComparisonResult.t)
    (title subtitle : string) (gohivex_values hivex_values : list val)
    (output_path : path) (chart : BarChart.t) :
  bar_chart comparisons title subtitle gohivex_values hivex_values output_path
  = Returns chart ->
  exists scaled,
    int_mul_float (Z.of_nat (List.length comparisons)) float_0_25 = Returns scaled
    /\ BarChart.figsize chart = (VInt 16, max_8 scaled)
    /\ BarChart.bar_height chart = float_0_35.
Proof.
  unfold bar_chart. intros H.
  apply bind_returns in H. destruct H as (scaled & Hs & H).
  apply bind_returns in H. destruct H as (upper & Hu & H).
  apply bind_returns in H. destruct H as (lower & Hl & H).
  inversion H; subst chart; clear H. exists scaled. repeat split. exact Hs.
Qed.

(** ** Runs of the driver *)

Lemma io_bind_ok {A B : Type} (m : io A) (f : A -> io B) (w : world)
    (t t1 : trace) (a : A) :
  m w t = (t1, Ok a) -> io_bind m f w t = f a w t1.
Proof. intros H. unfold io_bind. rewrite H. reflexivity. Qed.

Lemma io_bind_fail {A B : Type} (m : io A) (f : A -> io B) (w : world)
    (t t1 : trace) (x : failure) :
  m w t = (t1, Fail x) -> io_bind m f w t = (t1, Fail x).
Proof. intros H. unfold io_bind. rewrite H. reflexivity. Qed.

Lemma printed_app (d1 d2 : trace) :
  printed (d1 ++ d2)%list = (printed d1 ++ printed d2)%list.
Proof. apply flat_map_app. Qed.

Lemma saved_paths_app (d1 d2 : trace) :
  saved_paths (d1 ++ d2)%list = (saved_paths d1 ++ saved_paths d2)%list.
Proof. apply flat_map_app. Qed.

Lemma made_dirs_app (d1 d2 : trace) :
  made_dirs (d1 ++ d2)%list = (made_dirs d1 ++ made_dirs d2)%list.
Proof. apply flat_map_app. Qed.

(** *** Properties of all runs *)

(** Sequencing, in general: the property of the whole from those of the
    parts. *)
Lemma always_bind_gen {A B : Type}
    (P1 P2 P : list event -> option failure -> Prop)
    (m : io A) (f : A -> io B) :
  always P1 m -> (forall a, always P2 (f a)) ->
  (forall d1 d2 s, P1 d1 None -> P2 d2 s -> P (d1 ++ d2)%list s) ->
  (forall d x, P1 d (Some x) -> P d (Some x)) ->
  always P (io_bind m f).
Proof.
  intros Hm Hf Hseq Hfail w t. unfold io_bind.
  destruct (Hm w t) as (d1 & E1 & H1).
  destruct (m w t) as [t1 [a | x]]; cbn [fst snd status] in *; subst t1.
  - destruct (Hf a w (t ++ d1)%list) as (d2 & E2 & H2).
    exists (d1 ++ d2)%list. rewrite E2, app_assoc. split; [reflexivity |].
    exact (Hseq _ _ _ H1 H2).
  - exists d1. split; [reflexivity |]. exact (Hfail _ _ H1).
Qed.

Lemma always_weaken {A : Type} (P Q : list event -> option failure -> Prop)
    (m : io A) :
  (forall d s, P d s -> Q d s) -> always P m -> always Q m.
Proof.
  intros HPQ Hm w t. destruct (Hm w t) as (d & E & H).
  exists d. split; [exact E | exact (HPQ _ _ H)].
Qed.

Section Always.

Variable P : list event -> option failure -> Prop.

(** What makes [P] a property of runs: it holds of the run that does
    nothing, of the runs that fail before they do anything, and of a run
    followed by another. *)
Hypothesis P_nil : P [] None.
Hypothesis P_fail : forall x, is_exit x = false -> P [] (Some x).
Hypothesis P_seq :
  forall d1 d2 s, P d1 None -> P d2 s -> P (d1 ++ d2)%list s.

Lemma always_ret {A : Type} (a : A) : always P (io_ret a).
Proof. intros w t. exists []. rewrite app_nil_r. split; [reflexivity | exact P_nil]. Qed.

Lemma always_bind {A B : Type} (m : io A) (f : A -> io B) :
  always P m -> (forall a, always P (f a)) -> always P (io_bind m f).
Proof.
  intros Hm Hf. apply (always_bind_gen P P P); auto.
Qed.

Lemma always_lift {A : Type} (m : outcome A) : always P (lift m).
Proof.
  intros w t. exists []. rewrite app_nil_r. unfold lift.
  destruct m as [a | e]; (split; [reflexivity |]); [exact P_nil |].
  apply P_fail. reflexivity.
Qed.

Lemma always_path_str (p : path) : always P (path_str p).
Proof. intros w t. exists []. rewrite app_nil_r. split; [reflexivity | exact P_nil]. Qed.

Lemma always_strftime_now : always P strftime_now.
Proof. intros w t. exists []. rewrite app_nil_r. split; [reflexivity | exact P_nil]. Qed.

Lemma always_print_stderr (text : string) :
  P [Stderr text] None -> always P (print_stderr text).
Proof. intros H w t. exists [Stderr text]. split; [reflexivity | exact H]. Qed.

Lemma always_progress (quiet : bool) (text : string) :
  (quiet = false -> P [Stderr text] None) -> always P (progress quiet text).
Proof.
  intros H. unfold progress. destruct quiet; [apply always_ret |].
  apply always_print_stderr. now apply H.
Qed.

Lemma always_mkdir (p : path) : P [Mkdir p] None -> always P (mkdir p).
Proof.
  intros H w t. unfold mkdir. destruct (mkdir_error w t p) as [message |].
  - exists []. rewrite app_nil_r. split; [reflexivity |]. now apply P_fail.
  - exists [Mkdir p]. split; [reflexivity | exact H].
Qed.

(** A chart: [P] is asked of the event of its saving, followed or not by a
    failure of [plt.close]. *)
Lemma always_chart (comparisons : list ComparisonResult.t)
    (title subtitle : string) (gohivex_values hivex_values : list val)
    (output_path : path) :
  (forall chart,
     bar_chart comparisons title subtitle gohivex_values hivex_values output_path
     = Returns chart ->
     P [Savefig chart] None
     /\ forall message, P [Savefig chart] (Some (LibExn message))) ->
  always P (create_horizontal_bar_chart comparisons title subtitle
              gohivex_values hivex_values output_path).
Proof.
  intros H w t. unfold create_horizontal_bar_chart, io_bind, lift.
  destruct (bar_chart comparisons title subtitle gohivex_values hivex_values
              output_path) as [chart | e].
  - destruct (H chart eq_refl) as [Hok Hclose].
    destruct (draw w t chart) as [| message | message].
    + exists [Savefig chart]. split; [reflexivity | exact Hok].
    + exists []. rewrite app_nil_r. split; [reflexivity |]. now apply P_fail.
    + exists [Savefig chart]. split; [reflexivity | exact (Hclose message)].
  - exists []. rewrite app_nil_r. split; [reflexivity |]. now apply P_fail.
Qed.

(** What [P] has to allow for the two [except Exception] clauses and the
    [except IOError] clause: after a failure that is no exit, an error line
    and the exit with status 1. *)
Hypothesis P_handler :
  forall d x text,
    P d (Some x) -> is_exit x = false -> error_line text = true ->
    P (d ++ [Stderr text])%list (Some (SystemExit 1)).

Lemma always_try_except_Exception (m : io unit) (what : string) :
  (forall message, error_line (what ++ message) = true) ->
  always P m ->
  always P (try_except_Exception m
              (fun message =>
                 io_bind (print_stderr (what ++ message))
                   (fun _ => io_fail (SystemExit 1)))).
Proof.
  intros Hwhat Hm w t. unfold try_except_Exception.
  destruct (Hm w t) as (d & E & H).
  destruct (m w t) as [t1 [a | x]]; cbn [fst snd status] in *; subst t1.
  - exists d. split; [reflexivity | exact H].
  - destruct x as [e | message | code].
    + exists (d ++ [Stderr (what ++ describe w e)])%list.
      split; [cbn; now rewrite app_assoc |]. cbn. apply (P_handler _ _ _ H); auto.
    + exists (d ++ [Stderr (what ++ message)])%list.
      split; [cbn; now rewrite app_assoc |]. cbn. apply (P_handler _ _ _ H); auto.
    + exists d. split; [reflexivity | exact H].
Qed.

Lemma always_read_lines (input : string) : always P (read_lines input).
Proof.
  intros w t. unfold read_lines.
  destruct (truthy_str input).
  - destruct (read_input w input) as [lines | message | message].
    + exists []. rewrite app_nil_r. split; [reflexivity | exact P_nil].
    + exists [Stderr ("Error opening input file: " ++ message)].
      split; [reflexivity |]. cbn.
      apply (P_handler [] (LibExn message)); auto.
    + exists []. rewrite app_nil_r. split; [reflexivity |]. now apply P_fail.
  - exists []. rewrite app_nil_r. split; [reflexivity | exact P_nil].
Qed.

(** [P] holds of every chart that is well shaped, and of the lines [main]
    prints when it is not quiet. *)
Hypothesis P_savefig :
  forall chart, well_shaped chart ->
    P [Savefig chart] None
    /\ forall message, P [Savefig chart] (Some (LibExn message)).
Hypothesis P_mkdir : forall p, P [Mkdir p] None.

Lemma bar_chart_well_shaped (comparisons : list ComparisonResult.t)
    (title subtitle : string) (gohivex_values hivex_values : list val)
    (output_path : path) (chart : BarChart.t) :
  List.length gohivex_values = List.length comparisons ->
  List.length hivex_values = List.length comparisons ->
  bar_chart comparisons title subtitle gohivex_values hivex_values output_path
  = Returns chart ->
  well_shaped chart.
Proof.
  intros Hg Hh H.
  destruct (bar_chart_fields _ _ _ _ _ _ _ H)
    as (Eg & Eh & El & Et & Hu & Hl & _ & _).
  unfold well_shaped. cbv zeta.
  rewrite Eg, Eh, El, Et, Hu, Hl, range_length, length_map. repeat split; assumption.
Qed.

Lemma always_chart_of_columns (comparisons : list ComparisonResult.t)
    (title subtitle : string) (f g : ComparisonResult.t -> val)
    (output_path : path) :
  always P (create_horizontal_bar_chart comparisons title subtitle
              (map f comparisons) (map g comparisons) output_path).
Proof.
  apply always_chart. intros chart H. apply P_savefig.
  apply (bar_chart_well_shaped _ _ _ _ _ _ _ (length_map _ _) (length_map _ _) H).
Qed.

Lemma always_generate_time_graph (comparisons : list ComparisonResult.t)
    (output_dir : path) (timestamp prefix : string) (docs_dir : option path) :
  always P (generate_time_graph comparisons output_dir timestamp prefix docs_dir).
Proof.
  unfold generate_time_graph. cbv zeta.
  apply always_bind; [apply always_chart_of_columns |]. intros _.
  destruct docs_dir; [apply always_chart_of_columns | apply always_ret].
Qed.

Lemma always_generate_memory_graph (comparisons : list ComparisonResult.t)
    (output_dir : path) (timestamp prefix : string) (docs_dir : option path) :
  always P (generate_memory_graph comparisons output_dir timestamp prefix docs_dir).
Proof.
  unfold generate_memory_graph. cbv zeta.
  apply always_bind; [apply always_chart_of_columns |]. intros _.
  destruct docs_dir; [apply always_chart_of_columns | apply always_ret].
Qed.

Lemma always_generate_allocations_graph (comparisons : list ComparisonResult.t)
    (output_dir : path) (timestamp prefix : string) (docs_dir : option path) :
  always P (generate_allocations_graph comparisons output_dir timestamp prefix
              docs_dir).
Proof.
  unfold generate_allocations_graph. cbv zeta.
  apply always_bind; [apply always_chart_of_columns |]. intros _.
  destruct docs_dir; [apply always_chart_of_columns | apply always_ret].
Qed.

Variable quiet : bool.
Hypothesis P_progress :
  quiet = false -> forall text, error_line text = false -> P [Stderr text] None.

Lemma always_generate_graphs (category_name : string)
    (comparisons : list ComparisonResult.t) (output_dir : path)
    (timestamp prefix : string) (docs_dir : path) :
  always P (generate_graphs quiet category_name comparisons output_dir
              timestamp prefix docs_dir).
Proof.
  unfold generate_graphs. destruct comparisons as [| c cs];
    [apply always_ret |].
  apply always_bind; [apply always_generate_time_graph |]; intros _.
  apply always_bind; [apply always_generate_memory_graph |]; intros _.
  apply always_bind; [apply always_generate_allocations_graph |]; intros _.
  apply always_progress. intros Hq. apply (P_progress Hq). reflexivity.
Qed.

(** Every run of [main] has the property. *)
Lemma always_main (args : Args.t) :
  Args.quiet args = quiet -> always P (main args).
Proof.
  intros Hquiet. unfold main. rewrite Hquiet.
  apply always_bind; [apply always_read_lines |]. intros lines.
  apply always_bind; [apply always_lift |]. intros results.
  apply always_bind;
    [apply always_progress; intros Hq; apply (P_progress Hq); reflexivity |].
  intros _.
  apply always_bind; [apply always_lift |]. intros standard_comparisons.
  apply always_bind;
    [apply always_progress; intros Hq; apply (P_progress Hq); reflexivity |].
  intros _.
  apply always_bind; [apply always_lift |]. intros mutation_comparisons.
  apply always_bind;
    [apply always_progress; intros Hq; apply (P_progress Hq); reflexivity |].
  intros _.
  apply always_bind.
  { destruct (truthy_str (Args.timestamp args));
      [apply always_ret | apply always_strftime_now]. }
  intros timestamp. cbv zeta.
  apply always_bind; [apply always_mkdir, P_mkdir |]. intros _.
  apply always_bind; [apply always_mkdir, P_mkdir |]. intros _.
  apply always_bind.
  { apply always_try_except_Exception; [reflexivity |].
    apply always_generate_graphs. }
  intros _.
  apply always_bind.
  { apply always_try_except_Exception; [reflexivity |].
    apply always_generate_graphs. }
  intros _.
  destruct quiet eqn:Hq; [apply always_ret |].
  apply always_bind; [apply always_path_str |]. intros shown.
  apply always_bind;
    [apply always_print_stderr, (P_progress eq_refl); reflexivity |].
  intros _.
  apply always_bind; [apply always_path_str |]. intros shown'.
  apply always_print_stderr, (P_progress eq_refl). reflexivity.
Qed.

End Always.

(** *** The files a run saves *)

Lemma list_prefix_refl {A : Type} (l : list A) : list_prefix l l.
Proof. exists []. now rewrite app_nil_r. Qed.

Lemma list_prefix_nil {A : Type} (l : list A) : list_prefix [] l.
Proof. now exists l. Qed.

Lemma list_prefix_app {A : Type} (l p1 p2 : list A) :
  list_prefix l p2 -> list_prefix (p1 ++ l) (p1 ++ p2).
Proof. intros [rest ->]. exists rest. now rewrite app_assoc. Qed.

Lemma list_prefix_app_r {A : Type} (l p1 p2 : list A) :
  list_prefix l p1 -> list_prefix l (p1 ++ p2).
Proof. intros [rest ->]. exists (rest ++ p2)%list. now rewrite app_assoc. Qed.

(** A computation that saves nothing. *)
Lemma saves_nothing {A : Type} (m : io A) :
  always (fun d _ => saved_paths d = []) m -> saves [] m.
Proof.
  apply always_weaken. intros d s H. rewrite H.
  split; [apply list_prefix_nil | reflexivity].
Qed.

Lemma saves_ret {A : Type} (a : A) : saves [] (io_ret a).
Proof. apply saves_nothing, always_ret. reflexivity. Qed.

Lemma saves_path_str (p : path) : saves [] (path_str p).
Proof. apply saves_nothing, always_path_str. reflexivity. Qed.

Lemma saves_print_stderr (text : string) : saves [] (print_stderr text).
Proof. apply saves_nothing, always_print_stderr. reflexivity. Qed.

Lemma saves_progress (quiet : bool) (text : string) :
  saves [] (progress quiet text).
Proof.
  apply saves_nothing, always_progress; [reflexivity | reflexivity].
Qed.

Lemma saves_mkdir (p : path) : saves [] (mkdir p).
Proof. apply saves_nothing, always_mkdir; [reflexivity | reflexivity]. Qed.

Lemma saves_bind {A B : Type} (plan1 plan2 : list path) (m : io A)
    (f : A -> io B) :
  saves plan1 m -> (forall a, saves plan2 (f a)) ->
  saves (plan1 ++ plan2) (io_bind m f).
Proof.
  intros Hm Hf. unfold saves in *.
  eapply always_bind_gen; [exact Hm | exact Hf | |].
  - intros d1 d2 s [_ H1] [H2 H2']. rewrite saved_paths_app, (H1 eq_refl).
    split; [now apply list_prefix_app |]. intros Hs. now rewrite (H2' Hs).
  - intros d x [H1 _]. split; [now apply list_prefix_app_r | discriminate].
Qed.

Lemma saves_chart (comparisons : list ComparisonResult.t)
    (title subtitle : string) (gohivex_values hivex_values : list val)
    (output_path : path) :
  saves [output_path]
    (create_horizontal_bar_chart comparisons title subtitle gohivex_values
       hivex_values output_path).
Proof.
  unfold saves. apply always_chart.
  - intros x _. split; [apply list_prefix_nil | discriminate].
  - intros chart H.
    destruct (bar_chart_fields _ _ _ _ _ _ _ H) as (_ & _ & _ & _ & _ & _ & _ & Hp).
    cbn [saved_paths flat_map app]. rewrite Hp.
    split; [| intros message]; (split; [apply list_prefix_refl | reflexivity]).
Qed.

Lemma saves_try_except_Exception (plan : list path) (m : io unit)
    (what : string) :
  saves plan m ->
  saves plan (try_except_Exception m
                (fun message =>
                   io_bind (print_stderr (what ++ message))
                     (fun _ => io_fail (SystemExit 1)))).
Proof.
  intros Hm w t. unfold try_except_Exception.
  destruct (Hm w t) as (d & E & Hpre & Hall).
  destruct (m w t) as [t1 [a | x]]; cbn [fst snd status] in *; subst t1.
  - exists d. split; [reflexivity |]. split; assumption.
  - assert (Hd : forall text,
               list_prefix (saved_paths (d ++ [Stderr text])%list) plan).
    { intros text. rewrite saved_paths_app. cbn. now rewrite app_nil_r. }
    destruct x as [e | message | code].
    + exists (d ++ [Stderr (what ++ describe w e)])%list.
      split; [cbn; now rewrite app_assoc |]. split; [apply Hd | discriminate].
    + exists (d ++ [Stderr (what ++ message)])%list.
      split; [cbn; now rewrite app_assoc |]. split; [apply Hd | discriminate].
    + exists d. split; [reflexivity |]. split; [exact Hpre | discriminate].
Qed.

Lemma saves_generate_time_graph (comparisons : list ComparisonResult.t)
    (output_dir : path) (timestamp prefix : string) (docs_dir : option path) :
  saves (Join output_dir (timestamp ++ "_" ++ prefix ++ "time.png")
         :: match docs_dir with
            | Some docs => [Join docs (prefix ++ "time.png")]
            | None => []
            end)
    (generate_time_graph comparisons output_dir timestamp prefix docs_dir).
Proof.
  unfold generate_time_graph. cbv zeta.
  destruct prefix as [| c prefix]; cbn [truthy_str];
    (apply (saves_bind [_]); [apply saves_chart |]; intros _;
     destruct docs_dir; [apply saves_chart | apply saves_ret]).
Qed.

Lemma saves_generate_memory_graph (comparisons : list ComparisonResult.t)
    (output_dir : path) (timestamp prefix : string) (docs_dir : option path) :
  saves (Join output_dir (timestamp ++ "_" ++ prefix ++ "memory.png")
         :: match docs_dir with
            | Some docs => [Join docs (prefix ++ "memory.png")]
            | None => []
            end)
    (generate_memory_graph comparisons output_dir timestamp prefix docs_dir).
Proof.
  unfold generate_memory_graph. cbv zeta.
  destruct prefix as [| c prefix]; cbn [truthy_str];
    (apply (saves_bind [_]); [apply saves_chart |]; intros _;
     destruct docs_dir; [apply saves_chart | apply saves_ret]).
Qed.

Lemma saves_generate_allocations_graph (comparisons : list ComparisonResult.t)
    (output_dir : path) (timestamp prefix : string) (docs_dir : option path) :
  saves (Join output_dir (timestamp ++ "_" ++ prefix ++ "allocations.png")
         :: match docs_dir with
            | Some docs => [Join docs (prefix ++ "allocations.png")]
            | None => []
            end)
    (generate_allocations_graph comparisons output_dir timestamp prefix docs_dir).
Proof.
  unfold generate_allocations_graph. cbv zeta.
  destruct prefix as [| c prefix]; cbn [truthy_str];
    (apply (saves_bind [_]); [apply saves_chart |]; intros _;
     destruct docs_dir; [apply saves_chart | apply saves_ret]).
Qed.

Lemma saves_generate_graphs (quiet : bool) (category_name : string)
    (comparisons : list ComparisonResult.t) (output_dir : path)
    (timestamp prefix : string) (docs_dir : path) :
  saves (category_paths comparisons output_dir docs_dir timestamp prefix)
    (generate_graphs quiet category_name comparisons output_dir timestamp
       prefix docs_dir).
Proof.
  unfold generate_graphs, category_paths.
  destruct comparisons as [| c cs]; [apply saves_ret |].
  unfold graph_paths.
  apply (saves_bind [_; _] [_; _; _; _]);
    [apply (saves_generate_time_graph _ _ _ _ (Some docs_dir)) |]. intros _.
  apply (saves_bind [_; _] [_; _]);
    [apply (saves_generate_memory_graph _ _ _ _ (Some docs_dir)) |]. intros _.
  apply (saves_bind [_; _] []);
    [apply (saves_generate_allocations_graph _ _ _ _ (Some docs_dir)) |]. intros _.
  apply saves_progress.
Qed.

(** *** The first steps of [main], one by one *)

Lemma read_lines_ok (args : Args.t) (w : world) (t : trace)
    (lines : list string) :
  input_lines args w = Some lines ->
  read_lines (Args.input args) w t = (t, Ok lines).
Proof.
  unfold input_lines, read_lines.
  destruct (truthy_str (Args.input args)).
  - destruct (read_input w (Args.input args)); intros H; inversion H; reflexivity.
  - intros H. inversion H. reflexivity.
Qed.

Lemma lift_returns {A : Type} (m : outcome A) (a : A) (w : world) (t : trace) :
  m = Returns a -> lift m w t = (t, Ok a).
Proof. intros ->. reflexivity. Qed.

Lemma lift_raises {A : Type} (m : outcome A) (e : exn) (w : world) (t : trace) :
  m = Raises e -> lift m w t = (t, Fail (PyExn e)).
Proof. intros ->. reflexivity. Qed.

Lemma progress_run (quiet : bool) (text : string) (w : world) (t : trace) :
  progress quiet text w t
  = ((t ++ if quiet then [] else [Stderr text])%list, Ok tt).
Proof. destruct quiet; cbn; [now rewrite app_nil_r | reflexivity]. Qed.

Lemma timestamp_run (args : Args.t) (w : world) (t : trace) :
  (if truthy_str (Args.timestamp args) then io_ret (Args.timestamp args)
   else strftime_now) w t = (t, Ok (timestamp_of args w)).
Proof. unfold timestamp_of. destruct (truthy_str (Args.timestamp args)); reflexivity. Qed.

Lemma front_end_returns (lines : list string)
    (results : list BenchmarkResult.t)
    (standard_comparisons mutation_comparisons : list ComparisonResult.t) :
  front_end lines
  = Returns (results, standard_comparisons, mutation_comparisons) ->
  parse_benchmarks lines = Returns results
  /\ generate_comparisons results "standard" = Returns standard_comparisons
  /\ generate_comparisons results "mutation" = Returns mutation_comparisons.
Proof.
  unfold front_end. intros H.
  apply bind_returns in H. destruct H as (rs & Hp & H).
  apply bind_returns in H. destruct H as (std & Hs & H).
  apply bind_returns in H. destruct H as (mut & Hm & H).
  inversion H; subst. auto.
Qed.

(** *** The steps of [main] from the directories on *)

Lemma saves_final_lines (quiet : bool) (output_dir docs_dir : path) :
  saves []
    (if quiet then io_ret tt
     else
       io_bind (path_str output_dir) (fun shown =>
       io_bind (print_stderr ("All graphs generated in " ++ shown)) (fun _ =>
       io_bind (path_str docs_dir) (fun shown =>
       print_stderr ("Static documentation images in " ++ shown))))).
Proof.
  destruct quiet; [apply saves_ret |].
  apply (saves_bind [] []); [apply saves_path_str |]. intros shown.
  apply (saves_bind [] []); [apply saves_print_stderr |]. intros _.
  apply (saves_bind [] []); [apply saves_path_str |]. intros shown'.
  apply saves_print_stderr.
Qed.

(** After the first steps, [main] is at its directories: what is left to
    run, and the lines printed so far. *)
Lemma main_front_end (args : Args.t) (w : world) (lines : list string)
    (results : list BenchmarkResult.t)
    (standard_comparisons mutation_comparisons : list ComparisonResult.t) :
  input_lines args w = Some lines ->
  front_end lines
  = Returns (results, standard_comparisons, mutation_comparisons) ->
  exists t0,
    (Args.quiet args = true -> t0 = [])
    /\ made_dirs t0 = [] /\ saved_paths t0 = []
    /\ main args w []
       = io_bind (mkdir (Path (Args.output args))) (fun _ =>
         io_bind (mkdir (Path (Args.docs_dir args))) (fun _ =>
         io_bind
           (try_except_Exception
              (generate_graphs (Args.quiet args) "standard" standard_comparisons
                 (Path (Args.output args)) (timestamp_of args w) ""
                 (Path (Args.docs_dir args)))
              (fun message =>
                 io_bind
                   (print_stderr ("Error generating standard graphs: " ++ message))
                   (fun _ => io_fail (SystemExit 1)))) (fun _ =>
         io_bind
           (try_except_Exception
              (generate_graphs (Args.quiet args) "mutation" mutation_comparisons
                 (Path (Args.output args)) (timestamp_of args w) "mutation_"
                 (Path (Args.docs_dir args)))
              (fun message =>
                 io_bind
                   (print_stderr ("Error generating mutation graphs: " ++ message))
                   (fun _ => io_fail (SystemExit 1)))) (fun _ =>
         if Args.quiet args then io_ret tt
         else
           io_bind (path_str (Path (Args.output args))) (fun shown =>
           io_bind (print_stderr ("All graphs generated in " ++ shown)) (fun _ =>
           io_bind (path_str (Path (Args.docs_dir args))) (fun shown =>
           print_stderr ("Static documentation images in " ++ shown))))))))
         w t0.
Proof.
  intros Hin Hfront.
  destruct (front_end_returns _ _ _ _ Hfront) as (Hp & Hs & Hm).
  eexists. split; [| split; [| split]]; cycle 3.
  - unfold main.
    rewrite (io_bind_ok _ _ _ _ _ _ (read_lines_ok _ _ _ _ Hin)).
    rewrite (io_bind_ok _ _ _ _ _ _ (lift_returns _ _ _ _ Hp)).
    rewrite (io_bind_ok _ _ _ _ _ _ (progress_run _ _ _ _)).
    rewrite (io_bind_ok _ _ _ _ _ _ (lift_returns _ _ _ _ Hs)).
    rewrite (io_bind_ok _ _ _ _ _ _ (progress_run _ _ _ _)).
    rewrite (io_bind_ok _ _ _ _ _ _ (lift_returns _ _ _ _ Hm)).
    rewrite (io_bind_ok _ _ _ _ _ _ (progress_run _ _ _ _)).
    rewrite (io_bind_ok _ _ _ _ _ _ (timestamp_run _ _ _)).
    reflexivity.
  - intros ->. reflexivity.
  - destruct (Args.quiet args); reflexivity.
  - destruct (Args.quiet args); reflexivity.
Qed.

Lemma saves_eq {A : Type} (plan plan' : list path) (m : io A) :
  plan = plan' -> saves plan m -> saves plan' m.
Proof. intros ->. exact (fun H => H). Qed.

(** From the directories on, [main] saves the files of the standard
    category, then those of the mutation category. *)
Lemma saves_back_end (quiet : bool)
    (standard_comparisons mutation_comparisons : list ComparisonResult.t)
    (output_dir docs_dir : path) (timestamp : string) (final : io unit) :
  saves [] final ->
  saves (category_paths standard_comparisons output_dir docs_dir timestamp ""
         ++ category_paths mutation_comparisons output_dir docs_dir timestamp
              "mutation_")
    (io_bind (mkdir output_dir) (fun _ =>
     io_bind (mkdir docs_dir) (fun _ =>
     io_bind
       (try_except_Exception
          (generate_graphs quiet "standard" standard_comparisons
             output_dir timestamp "" docs_dir)
          (fun message =>
             io_bind
               (print_stderr ("Error generating standard graphs: " ++ message))
               (fun _ => io_fail (SystemExit 1)))) (fun _ =>
     io_bind
       (try_except_Exception
          (generate_graphs quiet "mutation" mutation_comparisons
             output_dir timestamp "mutation_" docs_dir)
          (fun message =>
             io_bind
               (print_stderr ("Error generating mutation graphs: " ++ message))
               (fun _ => io_fail (SystemExit 1)))) (fun _ => final))))).
Proof.
  intros Hfinal.
  apply (saves_bind [] _); [apply saves_mkdir |]. intros _.
  apply (saves_bind [] _); [apply saves_mkdir |]. intros _.
  apply saves_bind;
    [apply saves_try_except_Exception, saves_generate_graphs |]. intros _.
  eapply saves_eq; [apply app_nil_r |].
  apply saves_bind;
    [apply saves_try_except_Exception, saves_generate_graphs |]. intros _.
  exact Hfinal.
Qed.

(** *** Runs in a benign world *)

Lemma succeeds_ret {A : Type} (a : A) : succeeds (io_ret a).
Proof. intros w t _. now exists a. Qed.

Lemma succeeds_bind {A B : Type} (m : io A) (f : A -> io B) :
  succeeds m -> (forall a, succeeds (f a)) -> succeeds (io_bind m f).
Proof.
  intros Hm Hf w t Hw. unfold io_bind. destruct (Hm w t Hw) as [a Ha].
  destruct (m w t) as [t1 r]. cbn [snd] in Ha. subst r. exact (Hf a w t1 Hw).
Qed.

Lemma succeeds_print_stderr (text : string) : succeeds (print_stderr text).
Proof. intros w t _. now exists tt. Qed.

Lemma succeeds_progress (quiet : bool) (text : string) :
  succeeds (progress quiet text).
Proof. destruct quiet; [apply succeeds_ret | apply succeeds_print_stderr]. Qed.

Lemma succeeds_path_str (p : path) : succeeds (path_str p).
Proof. intros w t _. eexists. reflexivity. Qed.

Lemma succeeds_mkdir (p : path) : succeeds (mkdir p).
Proof.
  intros w t [Hmk _]. unfold mkdir. rewrite Hmk. now exists tt.
Qed.

Lemma succeeds_chart (comparisons : list ComparisonResult.t)
    (title subtitle : string) (gohivex_values hivex_values : list val)
    (output_path : path) :
  Z.of_nat (List.length comparisons) < 2 ^ 63 ->
  succeeds (create_horizontal_bar_chart comparisons title subtitle
              gohivex_values hivex_values output_path).
Proof.
  intros Hlen w t [_ Hdraw]. unfold create_horizontal_bar_chart, io_bind, lift.
  destruct (bar_chart_returns comparisons title subtitle gohivex_values
              hivex_values output_path Hlen) as [chart ->].
  rewrite Hdraw. now exists tt.
Qed.

Lemma succeeds_try_except_Exception (m : io unit) (h : string -> io unit) :
  succeeds m -> succeeds (try_except_Exception m h).
Proof.
  intros Hm w t Hw. unfold try_except_Exception. destruct (Hm w t Hw) as [a Ha].
  destruct (m w t) as [t1 r]. cbn [snd] in Ha. subst r. now exists a.
Qed.

Lemma succeeds_generate_graphs (quiet : bool) (category_name : string)
    (comparisons : list ComparisonResult.t) (output_dir : path)
    (timestamp prefix : string) (docs_dir : path) :
  Z.of_nat (List.length comparisons) < 2 ^ 63 ->
  succeeds (generate_graphs quiet category_name comparisons output_dir
              timestamp prefix docs_dir).
Proof.
  intros Hlen. unfold generate_graphs.
  destruct comparisons as [| c cs] eqn:E; [apply succeeds_ret |]. rewrite <- E in *.
  unfold generate_time_graph, generate_memory_graph, generate_allocations_graph.
  cbv zeta.
  repeat (apply succeeds_bind; [| intros _]);
    try apply succeeds_chart; try apply succeeds_progress; exact Hlen.
Qed.

Lemma succeeds_back_end (quiet : bool)
    (standard_comparisons mutation_comparisons : list ComparisonResult.t)
    (output_dir docs_dir : path) (timestamp : string)
    (h1 h2 : string -> io unit) :
  Z.of_nat (List.length standard_comparisons) < 2 ^ 63 ->
  Z.of_nat (List.length mutation_comparisons) < 2 ^ 63 ->
  succeeds
    (io_bind (mkdir output_dir) (fun _ =>
     io_bind (mkdir docs_dir) (fun _ =>
     io_bind
       (try_except_Exception
          (generate_graphs quiet "standard" standard_comparisons
             output_dir timestamp "" docs_dir) h1) (fun _ =>
     io_bind
       (try_except_Exception
          (generate_graphs quiet "mutation" mutation_comparisons
             output_dir timestamp "mutation_" docs_dir) h2) (fun _ =>
     if quiet then io_ret tt
     else
       io_bind (path_str output_dir) (fun shown =>
       io_bind (print_stderr ("All graphs generated in " ++ shown)) (fun _ =>
       io_bind (path_str docs_dir) (fun shown =>
       print_stderr ("Static documentation images in " ++ shown))))))))).
Proof.
  intros Hs Hm.
  apply succeeds_bind; [apply succeeds_mkdir |]. intros _.
  apply succeeds_bind; [apply succeeds_mkdir |]. intros _.
  apply succeeds_bind;
    [apply succeeds_try_except_Exception, succeeds_generate_graphs, Hs |].
  intros _.
  apply succeeds_bind;
    [apply succeeds_try_except_Exception, succeeds_generate_graphs, Hm |].
  intros _.
  destruct quiet; [apply succeeds_ret |].
  apply succeeds_bind; [apply succeeds_path_str |]. intros shown.
  apply succeeds_bind; [apply succeeds_print_stderr |]. intros _.
  apply succeeds_bind; [apply succeeds_path_str |]. intros shown'.
  apply succeeds_print_stderr.
Qed.

(** The aggregator returns no more comparisons than the parser read
    lines. *)
Lemma front_end_lengths (lines : list string)
    (results : list BenchmarkResult.t)
    (standard_comparisons mutation_comparisons : list ComparisonResult.t) :
  front_end lines
  = Returns (results, standard_comparisons, mutation_comparisons) ->
  (List.length standard_comparisons <= List.length lines)%nat
  /\ (List.length mutation_comparisons <= List.length lines)%nat.
Proof.
  intros H. destruct (front_end_returns _ _ _ _ H) as (Hp & Hs & Hm).
  destruct (parse_benchmarks_from_lines _ _ Hp) as [Hlen _].
  pose proof (generate_comparisons_length _ _ _ Hs).
  pose proof (generate_comparisons_length _ _ _ Hm).
  lia.
Qed.

(** *** The charts of a run *)

Lemma saved_charts_app (d1 d2 : trace) :
  saved_charts (d1 ++ d2)%list = (saved_charts d1 ++ saved_charts d2)%list.
Proof. apply flat_map_app. Qed.

Section Charts.

Variable Q : BarChart.t -> Prop.

Lemma charts_ret {A : Type} (a : A) :
  always (fun d _ => Forall Q (saved_charts d)) (io_ret a).
Proof. apply always_ret. constructor. Qed.

Lemma charts_bind {A B : Type} (m : io A) (f : A -> io B) :
  always (fun d _ => Forall Q (saved_charts d)) m ->
  (forall a, always (fun d _ => Forall Q (saved_charts d)) (f a)) ->
  always (fun d _ => Forall Q (saved_charts d)) (io_bind m f).
Proof.
  apply always_bind. intros d1 d2 s H1 H2. rewrite saved_charts_app.
  apply Forall_app. split; assumption.
Qed.

Lemma charts_chart (comparisons : list ComparisonResult.t)
    (title subtitle : string) (gohivex_values hivex_values : list val)
    (output_path : path) :
  (forall chart,
     bar_chart comparisons title subtitle gohivex_values hivex_values output_path
     = Returns chart -> Q chart) ->
  always (fun d _ => Forall Q (saved_charts d))
    (create_horizontal_bar_chart comparisons title subtitle gohivex_values
       hivex_values output_path).
Proof.
  intros H. apply always_chart.
  - intros x _. constructor.
  - intros chart Hc. specialize (H chart Hc).
    split; [| intros message]; (constructor; [exact H | constructor]).
Qed.

End Charts.

(** In what the aggregator returns, the test on [gohivex_only] changes no
    hivex memory and no hivex allocation count. *)
Lemma hivex_columns (results : list BenchmarkResult.t) (filter_type : string)
    (comps : list ComparisonResult.t) :
  generate_comparisons results filter_type = Returns comps ->
  map (fun comp => if ComparisonResult.gohivex_only comp then VInt 0
                   else ComparisonResult.hivex_mem comp) comps
  = map ComparisonResult.hivex_mem comps
  /\ map (fun comp => if ComparisonResult.gohivex_only comp then VInt 0
                      else ComparisonResult.hivex_allocs comp) comps
     = map ComparisonResult.hivex_allocs comps
  /\ Forall2 (fun v comp =>
                v = ComparisonResult.hivex_ns comp
                \/ (v = VInt 0 /\ ComparisonResult.hivex_ns comp = VFloat fzero))
       (map (fun comp => if ComparisonResult.gohivex_only comp then VInt 0
                         else ComparisonResult.hivex_ns comp) comps)
       comps.
Proof.
  intros H.
  assert (Hzero : forall c, In c comps -> ComparisonResult.gohivex_only c = true ->
            ComparisonResult.hivex_ns c = VFloat fzero
            /\ ComparisonResult.hivex_mem c = VInt 0
            /\ ComparisonResult.hivex_allocs c = VInt 0).
  { intros c Hc Honly.
    destruct (generate_comparisons_In _ _ _ _ H Hc) as (group & _ & Hcmp).
    exact (gohivex_only_fields _ _ _ Hcmp Honly). }
  clear H. induction comps as [| c comps IH]; [repeat split; constructor |].
  destruct IH as (IHm & IHa & IHn).
  { intros c' Hc'. apply Hzero. now right. }
  cbn [map]. rewrite IHm, IHa.
  destruct (ComparisonResult.gohivex_only c) eqn:E.
  - destruct (Hzero c (or_introl eq_refl) E) as (Hn & Hm & Ha).
    rewrite Hm, Ha. repeat split. constructor; [right; auto | exact IHn].
  - repeat split. constructor; [left; reflexivity | exact IHn].
Qed.

(** ** Further properties of the parsers *)

(** X1. On a line that begins, once stripped, with an opening brace, the
    outcome of [parse_benchmarks] is that of the structured parser alone:
    the text parser, tried when the structured one gives nothing, never
    gives a record for such a line. *)
Theorem X1_brace_line_decided_by_json (results : list BenchmarkResult.t)
    (line : string) :
  startswith (strip line) "{" = true ->
  parse_benchmarks_body results line =
  (parsed <- parse_json_benchmark (strip line) ;;
   Returns (match parsed with
            | Some result => (results ++ [result])%list
            | None => results
            end)).
Proof.
  intros H. unfold parse_benchmarks_body. cbv zeta.
  destruct (strip line) as [| c s] eqn:E; [discriminate H |].
  cbn [truthy_str negb]. rewrite H.
  destruct (parse_json_benchmark (String c s)) as [[r |] | e]; cbn [bind];
    try reflexivity.
  rewrite (parse_text_benchmark_prefix _ (startswith_brace _ H)). reflexivity.
Qed.

Lemma X1_brace_line_decided_by_json_witness :
  startswith (strip (json_text " {'Name': 'BenchmarkOpen/gohivex'} ")) "{" = true
  /\ parse_benchmarks_body [scenario_2_record]
       (json_text " {'Name': 'BenchmarkOpen/gohivex'} ")
     = (parsed <- parse_json_benchmark
                    (strip (json_text " {'Name': 'BenchmarkOpen/gohivex'} ")) ;;
        Returns (match parsed with
                 | Some result => ([scenario_2_record] ++ [result])%list
                 | None => [scenario_2_record]
                 end)).
Proof.
  split; [reflexivity |].
  apply (X1_brace_line_decided_by_json [scenario_2_record]
           (json_text " {'Name': 'BenchmarkOpen/gohivex'} ")).
  reflexivity.
Defined.

(** X2. A line that begins with an opening brace and is not a JSON document
    is skipped: it adds no record and raises nothing. *)
Theorem X2_invalid_json_line_skipped (results : list BenchmarkResult.t)
    (line : string) :
  startswith (strip line) "{" = true ->
  Json.loads (strip line) = Raises JSONDecodeError ->
  parse_benchmarks_body results line = Returns results.
Proof.
  intros H Hloads. unfold parse_benchmarks_body. cbv zeta.
  destruct (strip line) as [| c s] eqn:E; [discriminate H |].
  cbn [truthy_str negb]. rewrite H.
  unfold parse_json_benchmark, parse_json_benchmark_try. rewrite Hloads.
  cbn [bind try_except existsb exn_eqb orb].
  rewrite (parse_text_benchmark_prefix _ (startswith_brace _ H)). reflexivity.
Qed.

Lemma X2_invalid_json_line_skipped_witness :
  Json.loads (strip "{not json}") = Raises JSONDecodeError
  /\ parse_benchmarks_body [scenario_1_record] "{not json}"
     = Returns [scenario_1_record].
Proof.
  assert (H : Json.loads (strip "{not json}") = Raises JSONDecodeError)
    by (vm_compute; reflexivity).
  split; [exact H |].
  exact (X2_invalid_json_line_skipped [scenario_1_record] "{not json}" eq_refl H).
Defined.

(** X3. A JSON object without a [Name], or whose [Name] is a str without a
    slash, is skipped as well. *)
Theorem X3_object_without_benchmark_name_skipped
    (results : list BenchmarkResult.t) (line : string)
    (d : list (string * val)) :
  startswith (strip line) "{" = true ->
  Json.loads (strip line) = Returns (VDict d) ->
  dict_lookup d "Name" = None
  \/ (exists name, dict_lookup d "Name" = Some (VStr name)
                   /\ free_of "/" name = true) ->
  parse_benchmarks_body results line = Returns results.
Proof.
  intros H Hloads Hname. unfold parse_benchmarks_body. cbv zeta.
  destruct (strip line) as [| c s] eqn:E; [discriminate H |].
  cbn [truthy_str negb]. rewrite H.
  assert (Hjson : parse_json_benchmark (String c s) = Returns None).
  { unfold parse_json_benchmark, parse_json_benchmark_try. rewrite Hloads.
    cbn [bind]. unfold get at 1.
    destruct Hname as [-> | (name & -> & Hfree)]; cbn [bind].
    - reflexivity.
    - rewrite (split_free _ _ Hfree). reflexivity. }
  rewrite Hjson. cbn [bind].
  rewrite (parse_text_benchmark_prefix _ (startswith_brace _ H)). reflexivity.
Qed.

Lemma X3_object_without_benchmark_name_skipped_witness :
  Json.loads (strip (json_text "{'Action': 'pass', 'Name': 'TestOpen'}"))
  = Returns (VDict [("Action", VStr "pass"); ("Name", VStr "TestOpen")])
  /\ parse_benchmarks_body [scenario_1_record]
       (json_text "{'Action': 'pass', 'Name': 'TestOpen'}")
     = Returns [scenario_1_record].
Proof.
  assert (H : Json.loads (strip (json_text "{'Action': 'pass', 'Name': 'TestOpen'}"))
              = Returns (VDict [("Action", VStr "pass"); ("Name", VStr "TestOpen")]))
    by (vm_compute; reflexivity).
  split; [exact H |].
  apply (X3_object_without_benchmark_name_skipped [scenario_1_record]
           (json_text "{'Action': 'pass', 'Name': 'TestOpen'}") _ eq_refl H).
  right. exists "TestOpen". split; reflexivity.
Defined.

(** X4. A line that, once stripped, begins neither with an opening brace nor
    with [Benchmark] is skipped; so are the blank lines and the lines of
    [go test] that are no results. *)
Theorem X4_other_lines_skipped (results : list BenchmarkResult.t)
    (line : string) :
  startswith (strip line) "{" = false ->
  startswith (strip line) "Benchmark" = false ->
  parse_benchmarks_body results line = Returns results.
Proof.
  intros Hb Ht. unfold parse_benchmarks_body. cbv zeta.
  destruct (negb (truthy_str (strip line))); [reflexivity |].
  rewrite Hb. cbn [bind].
  rewrite (parse_text_benchmark_prefix _ Ht). reflexivity.
Qed.

Lemma X4_other_lines_skipped_witness :
  parse_benchmarks_body [scenario_1_record] "goos: linux" = Returns [scenario_1_record]
  /\ parse_benchmarks_body [scenario_1_record] "   " = Returns [scenario_1_record]
  /\ parse_benchmarks_body [scenario_1_record] "ok  hivekit/bench  12.3s"
     = Returns [scenario_1_record].
Proof.
  split; [| split].
  - exact (X4_other_lines_skipped [scenario_1_record] "goos: linux" eq_refl eq_refl).
  - exact (X4_other_lines_skipped [scenario_1_record] "   " eq_refl eq_refl).
  - exact (X4_other_lines_skipped [scenario_1_record] "ok  hivekit/bench  12.3s"
             eq_refl eq_refl).
Defined.

(** X5. [parse_benchmarks] works line by line and keeps no state between
    lines: parsing two inputs one after the other is parsing the first, then
    the second, and putting the records of the second after those of the
    first; the first line that raises decides the exception. *)
Theorem X5_parse_benchmarks_concatenation (lines1 lines2 : list string) :
  parse_benchmarks (lines1 ++ lines2) =
  (results1 <- parse_benchmarks lines1 ;;
   results2 <- parse_benchmarks lines2 ;;
   Returns (results1 ++ results2)%list).
Proof.
  induction lines1 as [| line lines1 IH].
  - cbn [app]. change (parse_benchmarks []) with (@Returns (list BenchmarkResult.t) []).
    cbn [bind]. destruct (parse_benchmarks lines2); reflexivity.
  - cbn [app]. rewrite !parse_benchmarks_cons, IH.
    destruct (parse_benchmarks_body [] line) as [rs1 | e]; cbn [bind];
      [| reflexivity].
    destruct (parse_benchmarks lines1) as [r1 | e]; cbn [bind]; [| reflexivity].
    destruct (parse_benchmarks lines2) as [r2 | e]; cbn [bind]; [| reflexivity].
    now rewrite app_assoc.
Qed.

(** X6. [parse_benchmarks] returns at most one record per line, and every
    record it returns is what one of the two parsers makes of a stripped
    line of the input: the structured parser of a line that begins with a
    brace, or the text parser. *)
Theorem X6_records_come_from_lines (lines : list string)
    (results : list BenchmarkResult.t) :
  parse_benchmarks lines = Returns results ->
  (List.length results <= List.length lines)%nat
  /\ forall r, In r results ->
       exists line,
         In line lines
         /\ ((startswith (strip line) "{" = true
              /\ parse_json_benchmark (strip line) = Returns (Some r))
             \/ parse_text_benchmark (strip line) = Returns (Some r)).
Proof.
  intros H. destruct (parse_benchmarks_from_lines _ _ H) as [Hlen Hfrom].
  split; [exact Hlen |]. intros r Hr.
  destruct (Hfrom r Hr) as (line & Hin & Hbody). exists line.
  split; [exact Hin |].
  destruct (parse_benchmarks_body_one _ _ Hbody) as [E | (r' & E & Hp)];
    [discriminate E |].
  inversion E; subst r'. exact Hp.
Qed.

Lemma X6_records_come_from_lines_witness :
  parse_benchmarks ["PASS"; scenario_1_line; ""; scenario_2_line]
  = Returns [scenario_1_record; scenario_2_record]
  /\ (List.length [scenario_1_record; scenario_2_record]
      <= List.length ["PASS"; scenario_1_line; ""; scenario_2_line])%nat
  /\ exists line,
       In line ["PASS"; scenario_1_line; ""; scenario_2_line]
       /\ parse_text_benchmark (strip line) = Returns (Some scenario_2_record).
Proof.
  assert (H : parse_benchmarks ["PASS"; scenario_1_line; ""; scenario_2_line]
              = Returns [scenario_1_record; scenario_2_record])
    by (vm_compute; reflexivity).
  split; [exact H |].
  destruct (X6_records_come_from_lines _ _ H) as [Hlen Hfrom].
  split; [exact Hlen |].
  exists scenario_2_line. split; [simpl; auto |]. vm_compute. reflexivity.
Defined.

(** X7. Every record of the text parser has [gohivex] or [hivex] as its
    implementation and a size category that is not empty; its iteration
    count, bytes and allocations are ints that are not negative, and its
    time is a float. *)
Theorem X7_text_record_fields (line : string) (r : BenchmarkResult.t) :
  parse_text_benchmark line = Returns (Some r) ->
  (BenchmarkResult.impl r = "gohivex" \/ BenchmarkResult.impl r = "hivex")
  /\ BenchmarkResult.hive_size r <> ""
  /\ (exists n, BenchmarkResult.iterations r = VInt n /\ 0 <= n)
  /\ (exists f, BenchmarkResult.ns_per_op r = VFloat f)
  /\ (exists b, BenchmarkResult.bytes_per_op r = VInt b /\ 0 <= b)
  /\ (exists a, BenchmarkResult.allocs_per_op r = VInt a /\ 0 <= a).
Proof.
  intros H.
  destruct (parse_text_benchmark_some _ _ H)
    as (operation & variant & rest & n & f & b & a & _ & _ & Himpl & [Hsize _]
        & _ & _ & _ & Hn & Hf & Hb & Ha).
  repeat split; eauto.
Qed.

Lemma X7_text_record_fields_witness :
  parse_text_benchmark scenario_2_line = Returns (Some scenario_2_record)
  /\ (BenchmarkResult.impl scenario_2_record = "gohivex"
      \/ BenchmarkResult.impl scenario_2_record = "hivex")
  /\ exists f, BenchmarkResult.ns_per_op scenario_2_record = VFloat f.
Proof.
  assert (H : parse_text_benchmark scenario_2_line = Returns (Some scenario_2_record))
    by (vm_compute; reflexivity).
  split; [exact H |].
  destruct (X7_text_record_fields _ _ H) as (Himpl & _ & _ & Hf & _).
  split; [exact Himpl | exact Hf].
Defined.

(** X8. The name a record of the text parser carries, read back as the
    [Name] of a JSON line, gives a record with the same operation,
    implementation and size category, provided the variant has no slash in
    it (the name then has four segments, the last one empty when the line
    has no variant). *)
Theorem X8_text_name_reads_back (line jline : string) (r : BenchmarkResult.t)
    (d : list (string * val)) :
  parse_text_benchmark line = Returns (Some r) ->
  (List.length (split "/" (BenchmarkResult.name r)) <= 4)%nat ->
  Json.loads jline = Returns (VDict d) ->
  dict_lookup d "Name" = Some (VStr (BenchmarkResult.name r)) ->
  exists r',
    parse_json_benchmark jline = Returns (Some r')
    /\ BenchmarkResult.name r' = BenchmarkResult.name r
    /\ BenchmarkResult.operation r' = BenchmarkResult.operation r
    /\ BenchmarkResult.impl r' = BenchmarkResult.impl r
    /\ BenchmarkResult.hive_size r' = BenchmarkResult.hive_size r.
Proof.
  intros H Hlen Hloads Hname.
  destruct (parse_text_benchmark_some _ _ H)
    as (operation & variant & rest & n & f & b & a & _ & [_ Hop] & Himpl
        & [_ Hsize] & _ & Hn & Hoperation & _).
  apply word_free_of_slash in Hop. apply word_free_of_slash in Hsize.
  assert (Hi : free_of "/" (BenchmarkResult.impl r) = true)
    by (destruct Himpl as [-> | ->]; reflexivity).
  assert (Hb : free_of "/" ("Benchmark" ++ operation) = true).
  { rewrite free_of_app, Hop. reflexivity. }
  assert (Hv : free_of "/" variant = true).
  { destruct (free_of "/" variant) eqn:E; [reflexivity | exfalso].
    apply split_length_free in E. rewrite Hn in Hlen.
    change ("Benchmark" ++ operation ++ "/" ++ BenchmarkResult.impl r ++ "/"
            ++ BenchmarkResult.hive_size r ++ "/" ++ variant)
      with (("Benchmark" ++ operation)
            ++ String "/" (BenchmarkResult.impl r
                           ++ String "/" (BenchmarkResult.hive_size r
                                          ++ String "/" variant))) in Hlen.
    rewrite (split_app _ _ _ Hb), (split_app _ _ _ Hi), (split_app _ _ _ Hsize)
      in Hlen.
    simpl in Hlen. lia. }
  eexists. split.
  - apply (parse_json_benchmark_name jline d _ operation
             (BenchmarkResult.impl r) (BenchmarkResult.hive_size r) variant
             Hloads Hname Hop Hi Hsize Hv).
    left. exact Hn.
  - cbn [BenchmarkResult.name BenchmarkResult.operation BenchmarkResult.impl
         BenchmarkResult.hive_size].
    rewrite Hoperation. repeat split.
Qed.

Lemma X8_text_name_reads_back_witness :
  parse_text_benchmark scenario_2_line = Returns (Some scenario_2_record)
  /\ BenchmarkResult.name scenario_2_record = "BenchmarkNodeGetChild/hivex/medium/"
  /\ exists r',
       parse_json_benchmark
         (json_text "{'Name': 'BenchmarkNodeGetChild/hivex/medium/'}")
       = Returns (Some r')
       /\ BenchmarkResult.operation r' = "NodeGetChild"
       /\ BenchmarkResult.impl r' = "hivex"
       /\ BenchmarkResult.hive_size r' = "medium".
Proof.
  assert (H : parse_text_benchmark scenario_2_line = Returns (Some scenario_2_record))
    by (vm_compute; reflexivity).
  split; [exact H |]. split; [reflexivity |].
  assert (Hloads :
    Json.loads (json_text "{'Name': 'BenchmarkNodeGetChild/hivex/medium/'}")
    = Returns (VDict [("Name", VStr "BenchmarkNodeGetChild/hivex/medium/")]))
    by (vm_compute; reflexivity).
  destruct (X8_text_name_reads_back scenario_2_line
              (json_text "{'Name': 'BenchmarkNodeGetChild/hivex/medium/'}")
              scenario_2_record
              [("Name", VStr "BenchmarkNodeGetChild/hivex/medium/")] H)
    as (r' & Hr' & _ & Ho & Hi & Hs).
  - simpl. lia.
  - exact Hloads.
  - reflexivity.
  - exists r'. split; [exact Hr' |]. split; [exact Ho |]. split; [exact Hi | exact Hs].
Defined.

(** X9. A JSON line whose [Name] is [Benchmark<operation>/<impl>/<size>],
    with [/<variant>] after it or not, and no slash inside the parts, gives
    a record with exactly these parts: the operation is [<operation>], or
    [<operation>/<variant>] when there is a variant. *)
Theorem X9_json_name_segments (line : string) (d : list (string * val))
    (operation impl hive_size variant : string) :
  Json.loads line = Returns (VDict d) ->
  dict_lookup d "Name"
  = Some (VStr (benchmark_name operation impl hive_size variant)) ->
  free_of "/" operation = true -> free_of "/" impl = true ->
  free_of "/" hive_size = true -> free_of "/" variant = true ->
  exists r,
    parse_json_benchmark line = Returns (Some r)
    /\ BenchmarkResult.name r = benchmark_name operation impl hive_size variant
    /\ BenchmarkResult.operation r
       = (if truthy_str variant then operation ++ "/" ++ variant else operation)
    /\ BenchmarkResult.impl r = impl
    /\ BenchmarkResult.hive_size r = hive_size.
Proof.
  intros Hloads Hname Ho Hi Hs Hv.
  eexists. split.
  - apply (parse_json_benchmark_name line d _ operation impl hive_size variant
             Hloads Hname Ho Hi Hs Hv).
    unfold benchmark_name. destruct variant as [| c v]; cbn [truthy_str].
    + right. rewrite append_nil_r. split; reflexivity.
    + left. reflexivity.
  - repeat split.
Qed.

Lemma X9_json_name_segments_witness :
  exists r,
    parse_json_benchmark
      (json_text "{'Name': 'BenchmarkNodeGetChild/gohivex/medium/deep_key', 'T': 7.5}")
    = Returns (Some r)
    /\ BenchmarkResult.operation r = "NodeGetChild/deep_key"
    /\ BenchmarkResult.impl r = "gohivex"
    /\ BenchmarkResult.hive_size r = "medium".
Proof.
  destruct (X9_json_name_segments
              (json_text "{'Name': 'BenchmarkNodeGetChild/gohivex/medium/deep_key', 'T': 7.5}")
              [("Name", VStr "BenchmarkNodeGetChild/gohivex/medium/deep_key");
               ("T", VFloat (S754_finite false 8444249301319680 (-50)))]
              "NodeGetChild" "gohivex" "medium" "deep_key")
    as (r & Hr & _ & Ho & Hi & Hs);
    try reflexivity.
  exists r. split; [exact Hr |]. split; [exact Ho |]. split; [exact Hi | exact Hs].
Defined.

(** X10. Whichever parser made a record, its category depends on its name
    up to the first slash only: the base name the aggregator looks up among
    the mutation operations is that segment without the leftmost
    [Benchmark]. A variant never changes the category. *)
Theorem X10_category_from_first_segment (line : string) (r : BenchmarkResult.t) :
  parse_json_benchmark line = Returns (Some r)
  \/ parse_text_benchmark line = Returns (Some r) ->
  operation_base r
  = replace1 "Benchmark" "" (nth 0 (split "/" (BenchmarkResult.name r)) "")
  /\ category r
     = (if in_set (replace1 "Benchmark" ""
                     (nth 0 (split "/" (BenchmarkResult.name r)) ""))
             MUTATION_OPERATIONS
        then "mutation" else "standard").
Proof.
  intros H.
  assert (Hbase : operation_base r
                  = replace1 "Benchmark" ""
                      (nth 0 (split "/" (BenchmarkResult.name r)) "")).
  { destruct H as [H | H];
      [exact (operation_base_json _ _ H) | exact (operation_base_text _ _ H)]. }
  split; [exact Hbase |]. unfold category, is_mutation. rewrite Hbase. reflexivity.
Qed.

Lemma X10_category_from_first_segment_witness :
  exists r,
    parse_text_benchmark
      "BenchmarkCommit/gohivex/large/with_10_values-8  100  5000.5 ns/op"
    = Returns (Some r)
    /\ BenchmarkResult.operation r = "Commit/with_10_values"
    /\ operation_base r = "Commit"
    /\ category r = "mutation".
Proof.
  assert (H : exists r,
    parse_text_benchmark
      "BenchmarkCommit/gohivex/large/with_10_values-8  100  5000.5 ns/op"
    = Returns (Some r)
    /\ BenchmarkResult.name r = "BenchmarkCommit/gohivex/large/with_10_values"
    /\ BenchmarkResult.operation r = "Commit/with_10_values").
  { eexists. split; [vm_compute; reflexivity | split; reflexivity]. }
  destruct H as (r & Hr & Hname & Hop).
  exists r. split; [exact Hr |]. split; [exact Hop |].
  destruct (X10_category_from_first_segment _ r (or_intror Hr)) as [Hb Hc].
  rewrite Hname in Hb, Hc. split; [exact Hb | exact Hc].
Defined.

(** ** Further properties of the aggregator *)

(** X11. No two comparisons of a run have the same operation and size
    category: there is one comparison per key. *)
Theorem X11_one_comparison_per_key (results : list BenchmarkResult.t)
    (filter_type : string) (comps : list ComparisonResult.t) :
  generate_comparisons results filter_type = Returns comps ->
  NoDup (map sort_key comps).
Proof.
  intros H. apply generate_comparisons_returns in H.
  destruct H as (cs & Hcs & ->).
  apply (Permutation_NoDup (l := map sort_key cs)).
  - apply Permutation_map, Permutation_sym, sort_perm.
  - rewrite (compare_groups_keys _ _ Hcs). apply group_results_NoDup.
Qed.

Lemma X11_one_comparison_per_key_witness :
  generate_comparisons
    [scenario_1_record; commit_record; large_record; scenario_2_record; rerun_record]
    "standard"
  = Returns [large_comparison;
             ComparisonResult.set_speedup
               (ComparisonResult.set_gohivex scenario_3_comparison
                  (VFloat float_150_2) (VInt 50) (VInt 4))
               (VFloat (S754_finite false 4503599627370496 (-52)))]
  /\ NoDup [("NodeGetChild", "large"); ("NodeGetChild", "medium")].
Proof.
  assert (H : generate_comparisons
    [scenario_1_record; commit_record; large_record; scenario_2_record; rerun_record]
    "standard"
  = Returns [large_comparison;
             ComparisonResult.set_speedup
               (ComparisonResult.set_gohivex scenario_3_comparison
                  (VFloat float_150_2) (VInt 50) (VInt 4))
               (VFloat (S754_finite false 4503599627370496 (-52)))])
    by (vm_compute; reflexivity).
  split; [exact H |]. exact (X11_one_comparison_per_key _ _ _ H).
Defined.

(** X12. Every comparison stands for a record of the input that the filter
    lets through and that has the operation and size category of the
    comparison; there are no more comparisons than records. *)
Theorem X12_comparisons_come_from_records (results : list BenchmarkResult.t)
    (filter_type : string) (comps : list ComparisonResult.t) :
  generate_comparisons results filter_type = Returns comps ->
  (List.length comps <= List.length results)%nat
  /\ forall c, In c comps ->
       exists r, In r results
                 /\ skipped filter_type r = false
                 /\ BenchmarkResult.operation r = ComparisonResult.operation c
                 /\ BenchmarkResult.hive_size r = ComparisonResult.hive_size c.
Proof.
  intros H. split.
  - pose proof H as H'. apply generate_comparisons_returns in H'.
    destruct H' as (cs & Hcs & ->).
    rewrite (Permutation_length (sort_perm cs)).
    rewrite <- (Forall2_length Hcs). apply group_results_length.
  - intros c Hc.
    destruct (generate_comparisons_In _ _ _ _ H Hc) as (group & Hin & _).
    apply group_results_In in Hin. destruct Hin as [-> Hne].
    destruct (members filter_type results (sort_key c)) as [| r rest] eqn:E;
      [congruence |].
    assert (Hr : In r (members filter_type results (sort_key c)))
      by (rewrite E; now left).
    apply members_In in Hr. destruct Hr as (Hr & Hs & Hk).
    exists r. split; [exact Hr |]. split; [exact Hs |].
    unfold result_key, sort_key in Hk. inversion Hk. split; reflexivity.
Qed.

Lemma X12_comparisons_come_from_records_witness :
  generate_comparisons [scenario_1_record; commit_record; scenario_2_record]
    "standard"
  = Returns [scenario_3_comparison]
  /\ (List.length [scenario_3_comparison]
      <= List.length [scenario_1_record; commit_record; scenario_2_record])%nat.
Proof.
  assert (H : generate_comparisons
                [scenario_1_record; commit_record; scenario_2_record] "standard"
              = Returns [scenario_3_comparison])
    by (vm_compute; reflexivity).
  split; [exact H |].
  exact (proj1 (X12_comparisons_come_from_records _ _ _ H)).
Defined.

(** X13. A comparison marked [gohivex_only] has nothing on the hivex side:
    the hivex time is the float zero, the hivex bytes and allocations are
    the int zero, and the speedup is the float zero. *)
Theorem X13_gohivex_only_zero_side (results : list BenchmarkResult.t)
    (filter_type : string) (comps : list ComparisonResult.t)
    (c : ComparisonResult.t) :
  generate_comparisons results filter_type = Returns comps ->
  In c comps ->
  ComparisonResult.gohivex_only c = true ->
  ComparisonResult.hivex_ns c = VFloat fzero
  /\ ComparisonResult.hivex_mem c = VInt 0
  /\ ComparisonResult.hivex_allocs c = VInt 0
  /\ ComparisonResult.speedup c = VFloat fzero.
Proof.
  intros H Hc Honly.
  destruct (generate_comparisons_In _ _ _ _ H Hc) as (group & _ & Hcmp).
  destruct (gohivex_only_fields _ _ _ Hcmp Honly) as (Hns & Hmem & Hallocs).
  repeat split; try assumption.
  apply (proj2 (compare_group_speedup _ _ _ Hcmp)).
  intros [_ Hh]. rewrite Hns in Hh. discriminate Hh.
Qed.

Lemma X13_gohivex_only_zero_side_witness :
  generate_comparisons [large_record] "standard" = Returns [large_comparison]
  /\ ComparisonResult.gohivex_only large_comparison = true
  /\ ComparisonResult.hivex_ns large_comparison = VFloat fzero
  /\ ComparisonResult.speedup large_comparison = VFloat fzero.
Proof.
  assert (H : generate_comparisons [large_record] "standard"
              = Returns [large_comparison])
    by (vm_compute; reflexivity).
  split; [exact H |]. split; [reflexivity |].
  destruct (X13_gohivex_only_zero_side _ _ _ large_comparison H)
    as (Hns & _ & _ & Hs); [now left | reflexivity |].
  split; [exact Hns | exact Hs].
Defined.

(** X14. The speedup of a comparison is always a float, also when the two
    times are ints: the division is the true division. *)
Theorem X14_speedup_is_a_float (results : list BenchmarkResult.t)
    (filter_type : string) (comps : list ComparisonResult.t)
    (c : ComparisonResult.t) :
  generate_comparisons results filter_type = Returns comps ->
  In c comps ->
  exists f, ComparisonResult.speedup c = VFloat f.
Proof.
  intros H Hc.
  destruct (generate_comparisons_In _ _ _ _ H Hc) as (group & _ & Hcmp).
  exact (compare_group_speedup_float _ _ _ Hcmp).
Qed.

Lemma X14_speedup_is_a_float_witness :
  generate_comparisons [int_gohivex_record; int_hivex_record] "standard"
  = Returns [int_comparison]
  /\ ComparisonResult.gohivex_ns int_comparison = VInt 100
  /\ ComparisonResult.hivex_ns int_comparison = VInt 250
  /\ exists f, ComparisonResult.speedup int_comparison = VFloat f.
Proof.
  assert (H : generate_comparisons [int_gohivex_record; int_hivex_record] "standard"
              = Returns [int_comparison])
    by (vm_compute; reflexivity).
  split; [exact H |]. split; [reflexivity |]. split; [reflexivity |].
  apply (X14_speedup_is_a_float _ _ _ int_comparison H). now left.
Defined.

(** X15. The only exceptions the aggregator raises are [TypeError], when a
    time is not a number, and [OverflowError], when an int time is too
    large for a float or the quotient of two int times is. It never raises
    [ZeroDivisionError]: it divides by a time that compared greater than
    zero. *)
Theorem X15_aggregator_raises_only (results : list BenchmarkResult.t)
    (filter_type : string) (e : exn) :
  generate_comparisons results filter_type = Raises e ->
  e = TypeError \/ e = OverflowError.
Proof.
  intros H.
  destruct (generate_comparisons_raises_group _ _ _ H) as (k & group & _ & Hcmp).
  exact (compare_group_raises _ _ _ Hcmp).
Qed.

Lemma X15_aggregator_raises_only_witness :
  generate_comparisons [untimed_record] "standard" = Raises TypeError
  /\ (TypeError = TypeError \/ TypeError = OverflowError).
Proof.
  assert (H : generate_comparisons [untimed_record] "standard" = Raises TypeError)
    by (vm_compute; reflexivity).
  split; [exact H |]. exact (X15_aggregator_raises_only _ _ _ H).
Defined.

(** X16. On input without a line that begins with a brace, every record is
    the text parser's and its time a float: whenever [parse_benchmarks]
    returns, the aggregator returns as well, whatever the filter. *)
Theorem X16_text_input_aggregates (lines : list string)
    (results : list BenchmarkResult.t) (filter_type : string) :
  Forall (fun line => startswith (strip line) "{" = false) lines ->
  parse_benchmarks lines = Returns results ->
  exists comps, generate_comparisons results filter_type = Returns comps.
Proof.
  intros Htext H. apply generate_comparisons_total.
  apply Forall_forall. intros r Hr.
  destruct (parse_benchmarks_from_lines _ _ H) as [_ Hfrom].
  destruct (Hfrom r Hr) as (line & Hin & Hbody).
  destruct (parse_benchmarks_body_one _ _ Hbody) as [E | (r' & E & Hp)];
    [discriminate E |].
  inversion E; subst r'.
  rewrite Forall_forall in Htext. specialize (Htext line Hin).
  destruct Hp as [[Hb _] | Ht]; [congruence |].
  destruct (parse_text_benchmark_some _ _ Ht)
    as (operation & variant & rest & n & f & b & a & _ & _ & _ & _ & _ & _ & _
        & _ & Hf & _).
  exists f. exact Hf.
Qed.

Lemma X16_text_input_aggregates_witness :
  parse_benchmarks ["goos: linux"; scenario_2_line; "PASS"]
  = Returns [scenario_2_record]
  /\ exists comps,
       generate_comparisons [scenario_2_record] "standard" = Returns comps.
Proof.
  assert (H : parse_benchmarks ["goos: linux"; scenario_2_line; "PASS"]
              = Returns [scenario_2_record])
    by (vm_compute; reflexivity).
  split; [exact H |].
  apply (X16_text_input_aggregates ["goos: linux"; scenario_2_line; "PASS"]);
    [| exact H].
  repeat constructor.
Defined.

(** X17. A filter other than ['standard'] and ['mutation'] lets every record
    through: each record of the input has its comparison in the output. *)
Theorem X17_other_filter_keeps_all (results : list BenchmarkResult.t)
    (filter_type : string) (comps : list ComparisonResult.t)
    (r : BenchmarkResult.t) :
  filter_type <> "standard" -> filter_type <> "mutation" ->
  generate_comparisons results filter_type = Returns comps ->
  In r results ->
  exists c, In c comps
            /\ ComparisonResult.operation c = BenchmarkResult.operation r
            /\ ComparisonResult.hive_size c = BenchmarkResult.hive_size r.
Proof.
  intros Hs Hm H Hr.
  assert (Hskip : skipped filter_type r = false).
  { unfold skipped.
    destruct (String.eqb_spec filter_type "standard") as [E | _]; [contradiction |].
    destruct (String.eqb_spec filter_type "mutation") as [E | _]; [contradiction |].
    reflexivity. }
  apply (included_iff results filter_type r Hr) in Hskip.
  destruct Hskip as (group & Hin & _).
  destruct (generate_comparisons_group _ _ _ _ _ H Hin) as (c & Hc & Hcmp).
  exists c. split; [exact Hc |].
  destruct (compare_group_fields _ _ _ Hcmp) as (Ho & Hh & _).
  split; [exact Ho | exact Hh].
Qed.

Lemma X17_other_filter_keeps_all_witness :
  generate_comparisons [commit_record; scenario_1_record; scenario_2_record] "all"
  = Returns [commit_comparison; scenario_3_comparison]
  /\ exists c, In c [commit_comparison; scenario_3_comparison]
               /\ ComparisonResult.operation c = "Commit"
               /\ ComparisonResult.hive_size c = "large".
Proof.
  assert (H : generate_comparisons
                [commit_record; scenario_1_record; scenario_2_record] "all"
              = Returns [commit_comparison; scenario_3_comparison])
    by (vm_compute; reflexivity).
  split; [exact H |].
  apply (X17_other_filter_keeps_all _ "all" _ commit_record) with (3 := H);
    [discriminate | discriminate | now left].
Defined.

(** X18. When the gohivex record that counts for a group (the last one) has
    a time that is no number, as a JSON line with a string or [null] under
    [T] gives it, the aggregator does not return: the comparison [> 0]
    raises, and nothing catches it. *)
Theorem X18_non_numeric_time_raises (results : list BenchmarkResult.t)
    (filter_type : string) (k : key) (group : list BenchmarkResult.t)
    (g : BenchmarkResult.t) :
  In (k, group) (group_results results filter_type) ->
  last_of "gohivex" group = Some g ->
  numeric (BenchmarkResult.ns_per_op g) = false ->
  generate_comparisons results filter_type = Raises TypeError
  \/ generate_comparisons results filter_type = Raises OverflowError.
Proof.
  intros Hin Hlast Hnum.
  assert (Hcmp : compare_group k group = Raises TypeError).
  { unfold compare_group. rewrite find_impls_last, Hlast.
    destruct (last_of "hivex" group) as [h |]; cbn;
      destruct (BenchmarkResult.ns_per_op g); try discriminate Hnum; reflexivity. }
  destruct (generate_comparisons results filter_type) as [comps | e] eqn:H.
  - destruct (generate_comparisons_group _ _ _ _ _ H Hin) as (c & _ & Hc).
    congruence.
  - destruct (generate_comparisons_raises_group _ _ _ H) as (k' & group' & _ & He).
    destruct (compare_group_raises _ _ _ He) as [-> | ->]; auto.
Qed.

Lemma X18_non_numeric_time_raises_witness :
  In (("Open", "small"), [untimed_record])
    (group_results [scenario_1_record; untimed_record] "standard")
  /\ (generate_comparisons [scenario_1_record; untimed_record] "standard"
      = Raises TypeError
      \/ generate_comparisons [scenario_1_record; untimed_record] "standard"
         = Raises OverflowError).
Proof.
  assert (H : In (("Open", "small"), [untimed_record])
                (group_results [scenario_1_record; untimed_record] "standard"))
    by (vm_compute; auto).
  split; [exact H |].
  exact (X18_non_numeric_time_raises _ _ _ _ untimed_record H eq_refl eq_refl).
Defined.

(** ** Properties of the renderer and of the driver *)

(** X19. For every list of comparisons Python can hold (fewer than 2^63),
    [create_horizontal_bar_chart] gets to its drawing calls without an
    exception of its own. The chart has one label per comparison, in the
    order of the list, ticks 0, 1, 2 and so on, and one bar position per
    comparison for each implementation; with up to 32 comparisons the
    figure is 16 by 8, the int 8. *)
Theorem X19_chart_of_comparisons (comparisons : list ComparisonResult.t)
    (title subtitle : string) (gohivex_values hivex_values : list val)
    (output_path : path) :
  Z.of_nat (List.length comparisons) < 2 ^ 63 ->
  exists chart,
    bar_chart comparisons title subtitle gohivex_values hivex_values output_path
    = Returns chart
    /\ BarChart.yticklabels chart = map ComparisonResult.label comparisons
    /\ BarChart.yticks chart = range (List.length comparisons)
    /\ List.length (BarChart.gohivex_y chart) = List.length comparisons
    /\ List.length (BarChart.hivex_y chart) = List.length comparisons
    /\ BarChart.output_path chart = output_path
    /\ ((List.length comparisons <= 32)%nat ->
        BarChart.figsize chart = (VInt 16, VInt 8)).
Proof.
  intros Hlen.
  destruct (bar_chart_returns comparisons title subtitle gohivex_values
              hivex_values output_path Hlen) as [chart H].
  exists chart. split; [exact H |].
  destruct (bar_chart_fields _ _ _ _ _ _ _ H)
    as (_ & _ & El & Et & Hu & Hl & _ & Hp).
  repeat (split; [assumption |]).
  intros Hsmall.
  destruct (bar_chart_figsize _ _ _ _ _ _ _ H) as (scaled & Hs & -> & _).
  now rewrite (max_8_small _ _ Hsmall Hs).
Qed.

Lemma X19_chart_of_comparisons_witness :
  exists chart,
    bar_chart [large_comparison; scenario_3_comparison] "Title" "Subtitle"
      [] [] (Path "a.png") = Returns chart
    /\ BarChart.yticklabels chart
       = ["NodeGetChild (large)"; "NodeGetChild (medium)"]
    /\ BarChart.yticks chart = [0; 1]
    /\ BarChart.figsize chart = (VInt 16, VInt 8).
Proof.
  destruct (X19_chart_of_comparisons [large_comparison; scenario_3_comparison]
              "Title" "Subtitle" [] [] (Path "a.png"))
    as (chart & H & Hl & Ht & _ & _ & _ & Hf).
  - simpl. lia.
  - exists chart. split; [exact H |]. split; [exact Hl |]. split; [exact Ht |].
    apply Hf. simpl. lia.
Defined.

(** X20. Every chart a run of [main] saves is well shaped: its bar
    positions and values for gohivex, those for hivex, its ticks and its
    labels are equally many, so that the two [barh] calls and the tick
    labels fit. This holds of the charts saved before a failure too. *)
Theorem X20_saved_charts_well_shaped (args : Args.t) (w : world) :
  Forall well_shaped (saved_charts (fst (main args w []))).
Proof.
  destruct (always_main
              (fun d _ => Forall well_shaped (saved_charts d))
              (Forall_nil _)) with (quiet := Args.quiet args) (args := args)
              (w := w) (t := @nil event) as (d & E & H);
    try reflexivity.
  - intros x _. constructor.
  - intros d1 d2 s H1 H2. unfold saved_charts. rewrite flat_map_app.
    apply Forall_app. split; assumption.
  - intros d x text H _ _. unfold saved_charts. rewrite flat_map_app.
    apply Forall_app. split; [exact H | constructor].
  - intros chart Hc.
    split; [| intros message]; (constructor; [exact Hc | constructor]).
  - intros p. constructor.
  - intros _ text _. constructor.
  - rewrite E. exact H.
Qed.

(** X21. The two files of a graph are named from the same stem: the static
    copy is [<prefix><kind>.png] in the documentation directory, and the
    archive copy the same name after [<timestamp>_] in the output
    directory. The test the code makes on [prefix] changes nothing, an
    empty prefix adding nothing to a name. The archive copy is written
    first, and the static copy only when a documentation directory is
    given. *)
Theorem X21_graph_file_names (comparisons : list ComparisonResult.t)
    (output_dir : path) (timestamp prefix : string) (docs_dir : option path) :
  saves (Join output_dir (timestamp ++ "_" ++ prefix ++ "time.png")
         :: match docs_dir with
            | Some docs => [Join docs (prefix ++ "time.png")]
            | None => []
            end)
    (generate_time_graph comparisons output_dir timestamp prefix docs_dir)
  /\ saves (Join output_dir (timestamp ++ "_" ++ prefix ++ "memory.png")
            :: match docs_dir with
               | Some docs => [Join docs (prefix ++ "memory.png")]
               | None => []
               end)
       (generate_memory_graph comparisons output_dir timestamp prefix docs_dir)
  /\ saves (Join output_dir (timestamp ++ "_" ++ prefix ++ "allocations.png")
            :: match docs_dir with
               | Some docs => [Join docs (prefix ++ "allocations.png")]
               | None => []
               end)
       (generate_allocations_graph comparisons output_dir timestamp prefix
          docs_dir).
Proof.
  split; [apply saves_generate_time_graph |].
  split; [apply saves_generate_memory_graph | apply saves_generate_allocations_graph].
Qed.

(** X22. On what the aggregator returns, the memory and the allocations
    charts plot the fields of the comparisons as they are: the zero the
    code puts in for the hivex side of a [gohivex_only] comparison is the
    value the field holds already. In the time chart the only effect of
    that test is the int [0] where the field holds the float [0.0]. *)
Theorem X22_hivex_columns_of_aggregated (results : list BenchmarkResult.t)
    (filter_type : string) (comps : list ComparisonResult.t)
    (output_dir : path) (timestamp prefix : string) (docs_dir : option path) :
  generate_comparisons results filter_type = Returns comps ->
  always (fun d _ =>
            Forall (fun chart =>
                      BarChart.gohivex_values chart
                      = map ComparisonResult.gohivex_mem comps
                      /\ BarChart.hivex_values chart
                         = map ComparisonResult.hivex_mem comps)
              (saved_charts d))
    (generate_memory_graph comps output_dir timestamp prefix docs_dir)
  /\ always (fun d _ =>
               Forall (fun chart =>
                         BarChart.gohivex_values chart
                         = map ComparisonResult.gohivex_allocs comps
                         /\ BarChart.hivex_values chart
                            = map ComparisonResult.hivex_allocs comps)
                 (saved_charts d))
       (generate_allocations_graph comps output_dir timestamp prefix docs_dir)
  /\ always (fun d _ =>
               Forall (fun chart =>
                         BarChart.gohivex_values chart
                         = map ComparisonResult.gohivex_ns comps
                         /\ Forall2 (fun v comp =>
                                       v = ComparisonResult.hivex_ns comp
                                       \/ (v = VInt 0
                                           /\ ComparisonResult.hivex_ns comp
                                              = VFloat fzero))
                              (BarChart.hivex_values chart) comps)
                 (saved_charts d))
       (generate_time_graph comps output_dir timestamp prefix docs_dir).
Proof.
  intros H. destruct (hivex_columns _ _ _ H) as (Hm & Ha & Hn).
  split; [| split].
  - unfold generate_memory_graph. cbv zeta. rewrite Hm.
    apply charts_bind; [| intros _; destruct docs_dir; [| apply charts_ret]];
      apply charts_chart; intros chart Hc;
      destruct (bar_chart_fields _ _ _ _ _ _ _ Hc) as (-> & -> & _);
      split; reflexivity.
  - unfold generate_allocations_graph. cbv zeta. rewrite Ha.
    apply charts_bind; [| intros _; destruct docs_dir; [| apply charts_ret]];
      apply charts_chart; intros chart Hc;
      destruct (bar_chart_fields _ _ _ _ _ _ _ Hc) as (-> & -> & _);
      split; reflexivity.
  - unfold generate_time_graph. cbv zeta.
    apply charts_bind; [| intros _; destruct docs_dir; [| apply charts_ret]];
      apply charts_chart; intros chart Hc;
      destruct (bar_chart_fields _ _ _ _ _ _ _ Hc) as (-> & -> & _);
      (split; [reflexivity | exact Hn]).
Qed.

Lemma X22_hivex_columns_of_aggregated_witness :
  generate_comparisons [large_record] "standard" = Returns [large_comparison]
  /\ ComparisonResult.gohivex_only large_comparison = true
  /\ always (fun d _ =>
               Forall (fun chart =>
                         BarChart.gohivex_values chart = [VInt 48]
                         /\ BarChart.hivex_values chart = [VInt 0])
                 (saved_charts d))
       (generate_memory_graph [large_comparison] (Path "out") "T" ""
          (Some (Path "docs"))).
Proof.
  assert (H : generate_comparisons [large_record] "standard"
              = Returns [large_comparison])
    by (vm_compute; reflexivity).
  split; [exact H |]. split; [reflexivity |].
  exact (proj1 (X22_hivex_columns_of_aggregated [large_record] "standard"
                  [large_comparison] (Path "out") "T" "" (Some (Path "docs")) H)).
Defined.

(** X23. When the file [--input] names cannot be opened, [main] prints one
    line, [Error opening input file:] and the message of the error, and
    exits with status 1: it makes no directory and saves no chart. *)
Theorem X23_unreadable_input (args : Args.t) (w : world) (message : string) :
  Args.input args <> "" ->
  read_input w (Args.input args) = ReadIOError message ->
  main args w []
  = ([Stderr ("Error opening input file: " ++ message)], Fail (SystemExit 1))
  /\ exit_code (snd (main args w [])) = 1.
Proof.
  intros Hname Hread.
  assert (E : main args w []
              = ([Stderr ("Error opening input file: " ++ message)],
                 Fail (SystemExit 1))).
  { unfold main. apply io_bind_fail. unfold read_lines.
    destruct (Args.input args) as [| c s]; [congruence |].
    cbn [truthy_str]. rewrite Hread. reflexivity. }
  split; [exact E |]. rewrite E. reflexivity.
Qed.

Lemma X23_unreadable_input_witness :
  main (example_args "missing.txt" false) example_world []
  = ([Stderr "Error opening input file: [Errno 2] No such file or directory"],
     Fail (SystemExit 1))
  /\ exit_code (snd (main (example_args "missing.txt" false) example_world [])) = 1.
Proof.
  apply (X23_unreadable_input (example_args "missing.txt" false) example_world
           "[Errno 2] No such file or directory").
  - discriminate.
  - reflexivity.
Defined.

(** X24. An exception of the parser or of the aggregator ends [main] before
    it touches the file system: the exception leaves [main] as it is (the
    interpreter then exits with status 1), and no directory is made and no
    chart saved. *)
Theorem X24_front_end_exception (args : Args.t) (w : world)
    (lines : list string) (e : exn) :
  input_lines args w = Some lines ->
  front_end lines = Raises e ->
  snd (main args w []) = Fail (PyExn e)
  /\ exit_code (snd (main args w [])) = 1
  /\ made_dirs (fst (main args w [])) = []
  /\ saved_paths (fst (main args w [])) = [].
Proof.
  intros Hin Hfront.
  assert (E : exists t, main args w [] = (t, Fail (PyExn e))
                        /\ made_dirs t = [] /\ saved_paths t = []).
  { unfold main, front_end in *.
    rewrite (io_bind_ok _ _ _ _ _ _ (read_lines_ok _ _ _ _ Hin)).
    destruct (parse_benchmarks lines) as [results | e1] eqn:Hp; cbn [bind] in Hfront.
    2:{ inversion Hfront; subst e1.
        rewrite (io_bind_fail _ _ _ _ _ _ (lift_raises _ _ _ _ eq_refl)).
        eexists. repeat split. }
    rewrite (io_bind_ok _ _ _ _ _ _ (lift_returns _ _ _ _ eq_refl)).
    rewrite (io_bind_ok _ _ _ _ _ _ (progress_run _ _ _ _)).
    destruct (generate_comparisons results "standard") as [std | e1] eqn:Hs;
      cbn [bind] in Hfront.
    2:{ inversion Hfront; subst e1.
        rewrite (io_bind_fail _ _ _ _ _ _ (lift_raises _ _ _ _ eq_refl)).
        eexists. split; [reflexivity |]. destruct (Args.quiet args); split; reflexivity. }
    rewrite (io_bind_ok _ _ _ _ _ _ (lift_returns _ _ _ _ eq_refl)).
    rewrite (io_bind_ok _ _ _ _ _ _ (progress_run _ _ _ _)).
    destruct (generate_comparisons results "mutation") as [mut | e1] eqn:Hm;
      cbn [bind] in Hfront; [discriminate Hfront |].
    inversion Hfront; subst e1.
    rewrite (io_bind_fail _ _ _ _ _ _ (lift_raises _ _ _ _ eq_refl)).
    eexists. split; [reflexivity |]. destruct (Args.quiet args); split; reflexivity. }
  destruct E as (t & -> & Hd & Hs). repeat split; assumption.
Qed.

Lemma X24_front_end_exception_witness :
  front_end (stdin_lines bad_input_world) = Raises AttributeError
  /\ snd (main (example_args "" false) bad_input_world [])
     = Fail (PyExn AttributeError)
  /\ made_dirs (fst (main (example_args "" false) bad_input_world [])) = [].
Proof.
  assert (H : front_end (stdin_lines bad_input_world) = Raises AttributeError)
    by (vm_compute; reflexivity).
  split; [exact H |].
  destruct (X24_front_end_exception (example_args "" false) bad_input_world
              (stdin_lines bad_input_world) AttributeError eq_refl H)
    as (Hr & _ & Hd & _).
  split; [exact Hr | exact Hd].
Defined.

(** X25. With [--quiet], [main] prints nothing, unless it gives up: then it
    prints one line, which starts with [Error], and exits with status 1. *)
Theorem X25_quiet_prints_errors_only (args : Args.t) (w : world) :
  Args.quiet args = true ->
  printed (fst (main args w [])) = []
  \/ exists text,
       printed (fst (main args w [])) = [text]
       /\ error_line text = true
       /\ snd (main args w []) = Fail (SystemExit 1).
Proof.
  intros Hquiet.
  destruct (always_main
              (fun d s => printed d = []
                          \/ exists text, printed d = [text]
                                          /\ error_line text = true
                                          /\ s = Some (SystemExit 1))
              (or_introl eq_refl)) with (quiet := true) (args := args)
              (w := w) (t := @nil event) as (d & E & H);
    try exact Hquiet.
  - intros x _. now left.
  - intros d1 d2 s [H1 | (text & _ & _ & H1)] H2; [| discriminate H1].
    rewrite printed_app, H1. exact H2.
  - intros d x text [H | (text' & _ & _ & H)] Hx Herr.
    + right. exists text. rewrite printed_app, H. repeat split. exact Herr.
    + inversion H; subst x. discriminate Hx.
  - intros chart _. split; [| intros message]; now left.
  - intros p. now left.
  - intros Hq. discriminate Hq.
  - rewrite E. cbn [app]. destruct H as [H | (text & Hp & Herr & Hs)]; [now left |].
    right. exists text. repeat split; try assumption.
    destruct (snd (main args w [])) as [a | x]; [discriminate Hs |].
    inversion Hs. reflexivity.
Qed.

Lemma X25_quiet_prints_errors_only_witness :
  printed (fst (main (example_args "bench.txt" true) example_world [])) = []
  /\ printed (fst (main (example_args "bench.txt" true) full_disk_world []))
     = ["Error generating standard graphs: [Errno 28] No space left on device"]
  /\ (printed (fst (main (example_args "bench.txt" true) full_disk_world [])) = []
      \/ exists text,
           printed (fst (main (example_args "bench.txt" true) full_disk_world []))
           = [text]
           /\ error_line text = true
           /\ snd (main (example_args "bench.txt" true) full_disk_world [])
              = Fail (SystemExit 1)).
Proof.
  split; [vm_compute; reflexivity |]. split; [vm_compute; reflexivity |].
  exact (X25_quiet_prints_errors_only (example_args "bench.txt" true)
           full_disk_world eq_refl).
Defined.

(** X26. A run of the script ends with status 0, 1 or 2. Status 2 is the
    exit of argparse on a command line it rejects, and the help option exits
    with status 0; both happen before [main] does anything else. Once the
    arguments are parsed, the status is 0 or 1, and 0 exactly when [main]
    returns; when [main] exits by its own [sys.exit], the status is 1 and
    the last thing it did was to print a line that starts with [Error]: it
    never exits silently, quiet or not. *)
Theorem X26_exit_status (parsed : parse_args_result) (w : world) :
  (exit_code (snd (main_argv parsed w [])) = 0
   \/ exit_code (snd (main_argv parsed w [])) = 1
   \/ exit_code (snd (main_argv parsed w [])) = 2)
  /\ (exit_code (snd (main_argv parsed w [])) = 2 <-> parsed = UsageExit)
  /\ (parsed = HelpExit -> main_argv parsed w [] = ([], Fail (SystemExit 0)))
  /\ (parsed = UsageExit -> main_argv parsed w [] = ([], Fail (SystemExit 2)))
  /\ forall args,
       parsed = Parsed args ->
       main_argv parsed w [] = main args w []
       /\ (exit_code (snd (main args w [])) = 0
           \/ exit_code (snd (main args w [])) = 1)
       /\ (exit_code (snd (main args w [])) = 0 <-> snd (main args w []) = Ok tt)
       /\ forall code,
            snd (main args w []) = Fail (SystemExit code) ->
            code = 1
            /\ exists t0 text,
                 fst (main args w []) = (t0 ++ [Stderr text])%list
                 /\ error_line text = true.
Proof.
  assert (Hexit : forall args code,
            snd (main args w []) = Fail (SystemExit code) ->
            code = 1
            /\ exists t0 text,
                 fst (main args w []) = (t0 ++ [Stderr text])%list
                 /\ error_line text = true).
  { intros args.
    destruct (always_main
                (fun d s => forall code, s = Some (SystemExit code) ->
                   code = 1
                   /\ exists d0 text, d = (d0 ++ [Stderr text])%list
                                      /\ error_line text = true))
      with (quiet := Args.quiet args) (args := args) (w := w) (t := @nil event)
      as (d & E & H); try reflexivity; try (intros; discriminate).
    - intros x Hx code Hc. inversion Hc; subst x. discriminate Hx.
    - intros d1 d2 s _ H2 code Hc. destruct (H2 code Hc) as (-> & d0 & text & -> & He).
      split; [reflexivity |]. exists (d1 ++ d0)%list, text.
      now rewrite app_assoc.
    - intros d x text _ _ Herr code Hc. inversion Hc; subst code.
      split; [reflexivity |]. now exists d, text.
    - intros chart _. split; [| intros message]; intros code Hc; discriminate Hc.
    - intros code Hc. rewrite E. cbn [app]. apply H. now rewrite Hc. }
  assert (Hstatus : forall args,
            (exit_code (snd (main args w [])) = 0
             \/ exit_code (snd (main args w [])) = 1)
            /\ (exit_code (snd (main args w [])) = 0
                <-> snd (main args w []) = Ok tt)).
  { intros args. specialize (Hexit args).
    destruct (snd (main args w [])) as [[] | [e | message | code]]; cbn.
    - split; [now left | now split].
    - split; [now right | split; intros H; discriminate H].
    - split; [now right | split; intros H; discriminate H].
    - destruct (Hexit code eq_refl) as [-> _].
      split; [now right | split; intros H; discriminate H]. }
  destruct parsed as [args | |]; cbn [main_argv].
  - destruct (Hstatus args) as [H01 Hok].
    split; [destruct H01; auto |].
    split; [split; [intros H2; destruct H01 as [H | H]; rewrite H in H2;
                    discriminate H2 | intros H; discriminate H] |].
    split; [intros H; discriminate H |]. split; [intros H; discriminate H |].
    intros args' E. inversion E; subst args'.
    split; [reflexivity |]. split; [exact H01 |]. split; [exact Hok |].
    exact (Hexit args).
  - split; [now left |].
    split; [split; intros H; discriminate H |].
    split; [reflexivity |]. split; [intros H; discriminate H |].
    intros args E. discriminate E.
  - split; [now right; right |].
    split; [split; reflexivity |].
    split; [intros H; discriminate H |]. split; [reflexivity |].
    intros args E. discriminate E.
Qed.

Lemma X26_exit_status_witness :
  snd (main (example_args "bench.txt" false) full_disk_world [])
  = Fail (SystemExit 1)
  /\ (exists t0 text,
        fst (main (example_args "bench.txt" false) full_disk_world [])
        = (t0 ++ [Stderr text])%list
        /\ error_line text = true)
  /\ exit_code (snd (main_argv UsageExit example_world [])) = 2.
Proof.
  assert (H : snd (main (example_args "bench.txt" false) full_disk_world [])
              = Fail (SystemExit 1))
    by (vm_compute; reflexivity).
  split; [exact H |]. split.
  - destruct (X26_exit_status (Parsed (example_args "bench.txt" false))
                full_disk_world) as (_ & _ & _ & _ & Hparsed).
    destruct (Hparsed _ eq_refl) as (_ & _ & _ & Hexit).
    exact (proj2 (Hexit 1 H)).
  - apply (proj2 (proj1 (proj2 (X26_exit_status UsageExit example_world)))).
    reflexivity.
Defined.

(** X27. Once the input is read, parsed and aggregated, the files [main]
    saves are known: the six of the standard category if it has a
    comparison, then the six of the mutation category, named [mutation_...],
    if it has one; in each category time, memory and allocations, the
    archive copy before the static copy. A run that returns has saved them
    all, in this order; a run that fails has saved the first few of them
    and nothing else. *)
Theorem X27_saved_files_follow_the_plan (args : Args.t) (w : world)
    (lines : list string) (results : list BenchmarkResult.t)
    (standard_comparisons mutation_comparisons : list ComparisonResult.t) :
  input_lines args w = Some lines ->
  front_end lines
  = Returns (results, standard_comparisons, mutation_comparisons) ->
  let plan :=
    (category_paths standard_comparisons (Path (Args.output args))
       (Path (Args.docs_dir args)) (timestamp_of args w) ""
     ++ category_paths mutation_comparisons (Path (Args.output args))
          (Path (Args.docs_dir args)) (timestamp_of args w) "mutation_")%list in
  list_prefix (saved_paths (fst (main args w []))) plan
  /\ (snd (main args w []) = Ok tt -> saved_paths (fst (main args w [])) = plan).
Proof.
  intros Hin Hfront plan.
  destruct (main_front_end _ _ _ _ _ _ Hin Hfront) as (t0 & _ & _ & Hs0 & ->).
  destruct (saves_back_end (Args.quiet args) standard_comparisons
              mutation_comparisons (Path (Args.output args))
              (Path (Args.docs_dir args)) (timestamp_of args w) _
              (saves_final_lines (Args.quiet args) (Path (Args.output args))
                 (Path (Args.docs_dir args))) w t0)
    as (d & E & Hpre & Hall).
  rewrite E, saved_paths_app, Hs0. cbn [app].
  split; [exact Hpre |]. intros Hok. apply Hall. now rewrite Hok.
Qed.

Lemma X27_saved_files_follow_the_plan_witness :
  saved_paths (fst (main (example_args "bench.txt" true) full_disk_world []))
  = [Join (Path "out") "T_time.png"; Join (Path "docs") "time.png"]
  /\ list_prefix
       (saved_paths (fst (main (example_args "bench.txt" true) full_disk_world [])))
       [ Join (Path "out") "T_time.png"; Join (Path "docs") "time.png";
         Join (Path "out") "T_memory.png"; Join (Path "docs") "memory.png";
         Join (Path "out") "T_allocations.png";
         Join (Path "docs") "allocations.png" ].
Proof.
  split; [vm_compute; reflexivity |].
  exact (proj1 (X27_saved_files_follow_the_plan
                  (example_args "bench.txt" true) full_disk_world
                  [scenario_1_line; scenario_2_line]
                  [scenario_1_record; scenario_2_record]
                  [scenario_3_comparison] [] eq_refl
                  ltac:(vm_compute; reflexivity))).
Defined.

(** X28. In a world where no directory fails to be made and no chart to be
    drawn, [main] returns whenever the parser and the aggregator do (the
    input being one Python can hold, of fewer than 2^63 lines): it makes the
    output directory, then the documentation directory, saves every file of
    the plan, and ends with status 0. Nothing in the renderer or the driver
    raises on its own. *)
Theorem X28_run_in_a_benign_world (args : Args.t) (w : world)
    (lines : list string) (results : list BenchmarkResult.t)
    (standard_comparisons mutation_comparisons : list ComparisonResult.t) :
  input_lines args w = Some lines ->
  front_end lines
  = Returns (results, standard_comparisons, mutation_comparisons) ->
  benign w ->
  Z.of_nat (List.length lines) < 2 ^ 63 ->
  snd (main args w []) = Ok tt
  /\ exit_code (snd (main args w [])) = 0
  /\ saved_paths (fst (main args w []))
     = (category_paths standard_comparisons (Path (Args.output args))
          (Path (Args.docs_dir args)) (timestamp_of args w) ""
        ++ category_paths mutation_comparisons (Path (Args.output args))
             (Path (Args.docs_dir args)) (timestamp_of args w) "mutation_")%list.
Proof.
  intros Hin Hfront Hw Hlen.
  destruct (front_end_lengths _ _ _ _ Hfront) as [Hs Hm].
  destruct (main_front_end _ _ _ _ _ _ Hin Hfront) as (t0 & _ & _ & Hs0 & E).
  assert (Hok : snd (main args w []) = Ok tt).
  { rewrite E.
    destruct (succeeds_back_end (Args.quiet args) standard_comparisons
                mutation_comparisons (Path (Args.output args))
                (Path (Args.docs_dir args)) (timestamp_of args w)
                (fun message =>
                   io_bind
                     (print_stderr ("Error generating standard graphs: " ++ message))
                     (fun _ => io_fail (SystemExit 1)))
                (fun message =>
                   io_bind
                     (print_stderr ("Error generating mutation graphs: " ++ message))
                     (fun _ => io_fail (SystemExit 1)))
                ltac:(lia) ltac:(lia) w t0 Hw) as [[] Ha].
    exact Ha. }
  split; [exact Hok |]. split; [now rewrite Hok |].
  revert Hok. rewrite E. intros Hok.
  destruct (saves_back_end (Args.quiet args) standard_comparisons
              mutation_comparisons (Path (Args.output args))
              (Path (Args.docs_dir args)) (timestamp_of args w) _
              (saves_final_lines (Args.quiet args) (Path (Args.output args))
                 (Path (Args.docs_dir args))) w t0)
    as (d & Ed & _ & Hall).
  rewrite Ed, saved_paths_app, Hs0. cbn [app]. apply Hall. now rewrite Hok.
Qed.

Lemma X28_run_in_a_benign_world_witness :
  benign example_world
  /\ snd (main (example_args "bench.txt" false) example_world []) = Ok tt
  /\ saved_paths (fst (main (example_args "bench.txt" false) example_world []))
     = [ Join (Path "out") "T_time.png"; Join (Path "docs") "time.png";
         Join (Path "out") "T_memory.png"; Join (Path "docs") "memory.png";
         Join (Path "out") "T_allocations.png";
         Join (Path "docs") "allocations.png" ].
Proof.
  assert (Hw : benign example_world) by (split; reflexivity).
  split; [exact Hw |].
  destruct (X28_run_in_a_benign_world (example_args "bench.txt" false)
              example_world [scenario_1_line; scenario_2_line]
              [scenario_1_record; scenario_2_record]
              [scenario_3_comparison] [] eq_refl
              ltac:(vm_compute; reflexivity) Hw ltac:(simpl; lia))
    as (Hok & _ & Hsaved).
  split; [exact Hok | exact Hsaved].
Defined.

(** X29. When the input yields no comparison at all (it is empty, or none
    of its lines is a result), [main] still makes both directories, saves
    no chart and draws none, and ends with status 0, as long as the
    directories can be made: an empty input is no error. *)
Theorem X29_nothing_to_draw (args : Args.t) (w : world) (lines : list string)
    (results : list BenchmarkResult.t) :
  input_lines args w = Some lines ->
  front_end lines = Returns (results, [], []) ->
  (forall t p, mkdir_error w t p = None) ->
  snd (main args w []) = Ok tt
  /\ made_dirs (fst (main args w []))
     = [Path (Args.output args); Path (Args.docs_dir args)]
  /\ saved_paths (fst (main args w [])) = [].
Proof.
  intros Hin Hfront Hmk.
  destruct (main_front_end _ _ _ _ _ _ Hin Hfront) as (t0 & _ & Hd0 & Hs0 & ->).
  unfold io_bind, mkdir, try_except_Exception, generate_graphs, io_ret.
  rewrite !Hmk.
  destruct (Args.quiet args); cbn;
    rewrite ?made_dirs_app, ?saved_paths_app, Hd0, Hs0; repeat split.
Qed.

Lemma X29_nothing_to_draw_witness :
  front_end (stdin_lines headless_world) = Returns ([], [], [])
  /\ snd (main (example_args "" true) headless_world []) = Ok tt
  /\ made_dirs (fst (main (example_args "" true) headless_world []))
     = [Path "out"; Path "docs"].
Proof.
  assert (H : front_end (stdin_lines headless_world) = Returns ([], [], []))
    by (vm_compute; reflexivity).
  split; [exact H |].
  destruct (X29_nothing_to_draw (example_args "" true) headless_world
              (stdin_lines headless_world) [] eq_refl H)
    as (Hok & Hd & _).
  - reflexivity.
  - split; [exact Hok | exact Hd].
Defined.
